(** * Sharable Links: the link service and its analytics, verified

    A shallow embedding of [LinksService] ([src/links/links.service.ts])
    and of the redirect handler of [LinksController]
    ([src/links/links.controller.ts]), over a model of the PostgreSQL
    tables of the migration ([links], [clicks]) and of the JavaScript
    numbers the service formats its results with.

    Layout:
    - [JS]      binary64 numbers, [Number.prototype.toFixed], [Math.ceil],
                [String.prototype.padStart];
    - [Db]      rows, tables and the queries the service issues;
    - [Eff]     the calls an [async] method awaits, as a small free monad
                with exceptions, and its interpreters;
    - [Prisma]  the client's check of the arguments of [findMany];
    - [Dto], [Service]  [createLink], [resolve], [recordClick], [getStats];
    - [Controller]  the [GET /:shortCode] handler;
    - [Spec]    the notions the specification speaks of;
    - [Scenario]  the stores of the examples;
    - facts about each layer, then the claims of the specification. *)

From Stdlib Require Import ZArith List String Ascii Bool Lia Permutation Sorted.
Import ListNotations.
Open Scope Z_scope.

(* ===================================================================== *)
(** * JavaScript numbers and strings *)
(* ===================================================================== *)

Module JS.

(** A binary64 value.  [Finite neg m e] is [(-1)^neg * m * 2^e]; normal
    numbers have [2^52 <= m < 2^53] and [-1074 <= e <= 971], zero and the
    subnormals have [e = -1074]. *)
Inductive double : Type :=
| NaN
| Infinity (neg : bool)
| Finite (neg : bool) (m e : Z).

Definition round_half_even (N D : Z) : Z :=
  let q := N / D in
  match 2 * (N mod D) ?= D with
  | Lt => q
  | Gt => q + 1
  | Eq => if Z.even q then q else q + 1
  end.

(** [p / (q * 2^e)] as a fraction of integers. *)
Definition scale_num (p e : Z) : Z := if e <? 0 then p * 2 ^ (- e) else p.
Definition scale_den (q e : Z) : Z := if e <? 0 then q else q * 2 ^ e.

(** The exponent [e] with [2^52 <= p / (q * 2^e) < 2^53], not below that
    of the subnormals. *)
Definition binade (p q : Z) : Z :=
  let e1 := Z.log2 p - Z.log2 q - 53 in
  let e := if scale_num p e1 <? 2 ^ 53 * scale_den q e1 then e1 else e1 + 1 in
  Z.max e (-1074).

(** The binary64 nearest to the rational [p / q], ties to even
    ([0 <= p], [0 < q]): what reading a decimal literal and what the
    division of two numbers produce. *)
Definition fl (p q : Z) : double :=
  if p =? 0 then Finite false 0 (-1074)
  else
    let e := binade p q in
    let m := round_half_even (scale_num p e) (scale_den q e) in
    let m' := if m =? 2 ^ 53 then 2 ^ 52 else m in
    let e' := if m =? 2 ^ 53 then e + 1 else e in
    if 971 <? e' then Infinity false else Finite false m' e'.

(** The value [m * 2^e] as a fraction of integers. *)
Definition val_num (m e : Z) : Z := if e <? 0 then m else m * 2 ^ e.
Definition val_den (e : Z) : Z := if e <? 0 then 2 ^ (- e) else 1.

Definition with_sign (neg : bool) (x : double) : double :=
  match x with
  | NaN => NaN
  | Infinity _ => Infinity neg
  | Finite _ m e => Finite neg m e
  end.


(** [a / b] on two numbers that hold the integers [a] and [b]. *)
Definition div_int (a b : Z) : double :=
  if b =? 0 then (if a =? 0 then NaN else Infinity (a <? 0))
  else with_sign (xorb (a <? 0) (b <? 0)) (fl (Z.abs a) (Z.abs b)).

(** [Math.ceil]. *)
Definition Math_ceil (x : double) : double :=
  match x with
  | Finite neg m e =>
      if 0 <=? e then x
      else
        let c := if neg then m / val_den e else (m + val_den e - 1) / val_den e in
        with_sign neg (fl c 1)
  | _ => x
  end.

(** [x || 0] on a number: [NaN] and the zeros are falsy. *)
Definition or_zero (x : double) : double :=
  match x with
  | NaN => Finite false 0 (-1074)
  | Finite _ 0 _ => Finite false 0 (-1074)
  | _ => x
  end.

(** ** Decimal digits *)

Definition digit_char (d : Z) : ascii :=
  ascii_of_nat (48 + Z.to_nat d).

Fixpoint digits_fuel (fuel : nat) (n : Z) (acc : string) : string :=
  match fuel with
  | O => acc
  | S f =>
      let acc' := String (digit_char (n mod 10)) acc in
      if n <? 10 then acc' else digits_fuel f (n / 10) acc'
  end.

(** The decimal representation of a non-negative integer, ["0"] for 0. *)
Definition decimal (n : Z) : string :=
  digits_fuel (S (Z.to_nat (Z.log2 n))) n EmptyString.

Fixpoint zeros (k : nat) : string :=
  match k with
  | O => EmptyString
  | S k' => String "0" (zeros k')
  end.

(** [String(n)] for a number holding a non-negative integer below [10^21]
    and [-n] for its negation. *)
Definition String_of_int (n : Z) : string :=
  if n <? 0 then ("-" ++ decimal (- n))%string else decimal n.

(** [s.padStart(n, '0')]. *)
Definition padStart0 (n : nat) (s : string) : string :=
  (zeros (n - String.length s) ++ s)%string.

(** ** [Number::toString] of the values [toFixed] hands over to it *)

(** Number of decimal digits of a positive integer. *)
Definition ndigits (n : Z) : Z := Z.of_nat (String.length (decimal n)).

Definition double_eqb (x y : double) : bool :=
  match x, y with
  | NaN, NaN => true
  | Infinity a, Infinity b => Bool.eqb a b
  | Finite a m e, Finite b m' e' => Bool.eqb a b && (m =? m') && (e =? e')
  | _, _ => false
  end.

(** [Number::toString] needs the fewest digits [s] (say [k] of them) and
    the exponent [n] with [fl (s * 10^(n-k)) = x].  [v] is the integer
    value of [x] and [n] its number of digits; for [k = 1, 2, ...] the two
    integers next to [v / 10^(n-k)] are tried, the nearer one first; a
    candidate [10^k] stands for the digit 1 with one more integer digit. *)
Definition digits_candidate (c k v n : Z) (x : double) : option (Z * Z * Z) :=
  if negb (double_eqb (fl (c * 10 ^ (n - k)) 1) x) then None
  else if (10 ^ (k - 1) <=? c) && (c <? 10 ^ k) then Some (c, k, n)
  else if c =? 10 ^ k then Some (1, 1, n + 1)
  else None.

Fixpoint shortest_digits (fuel : nat) (k : Z) (v n : Z) (x : double) : Z * Z * Z :=
  let u := 10 ^ (n - k) in
  let lo := v / u in
  let near := if 2 * (v mod u) <? u then lo else lo + 1 in
  let far := if 2 * (v mod u) <? u then lo + 1 else lo in
  match fuel with
  | O => (near, k, n)
  | S f =>
      match digits_candidate near k v n x with
      | Some r => r
      | None =>
          match digits_candidate far k v n x with
          | Some r => r
          | None => shortest_digits f (k + 1) v n x
          end
      end
  end.

(** [Number::toString] of the finite [m * 2^e >= 10^21]: exponent
    notation, [d.ddd] followed by [e+] and [n - 1]. *)
Definition toString_large (m e : Z) : string :=
  let v := m * 2 ^ e in
  let '(s, k, n) := shortest_digits 17 1 v (ndigits v) (Finite false m e) in
  let d := decimal s in
  let mantissa :=
    if k =? 1 then d
    else (substring 0 1 d ++ "." ++ substring 1 (Z.to_nat k - 1) d)%string in
  (mantissa ++ "e+" ++ decimal (n - 1))%string.

(** ** [Number.prototype.toFixed] *)

(** The integer nearest to [N / D], the larger one of two. *)
Definition round_half_up (N D : Z) : Z := (2 * N + D) / (2 * D).

(** Steps 11.c.i to 11.c.iv: pad the digits to [f + 1] of them and put
    the point before the last [f]. *)
Definition place_point (f : nat) (digits : string) : string :=
  let k := String.length digits in
  let padded := if (k <=? f)%nat then (zeros (f + 1 - k) ++ digits)%string else digits in
  let k' := if (k <=? f)%nat then (f + 1)%nat else k in
  (substring 0 (k' - f) padded ++ "." ++ substring (k' - f) f padded)%string.

Definition toFixed (f : nat) (x : double) : string :=
  match x with
  | NaN => "NaN"
  | Infinity neg => if neg then "-Infinity" else "Infinity"
  | Finite neg m e =>
      let s := if neg && (0 <? m) then "-"%string else EmptyString in
      if 10 ^ 21 * val_den e <=? val_num m e
      then (s ++ toString_large m e)%string
      else
        let n := round_half_up (10 ^ Z.of_nat f * val_num m e) (val_den e) in
        if (f =? 0)%nat then (s ++ decimal n)%string
        else (s ++ place_point f (decimal n))%string
  end.

End JS.

(* ===================================================================== *)
(** * The tables of the migration and the queries issued on them *)
(* ===================================================================== *)

Module Db.

(** [TIMESTAMP(3)]: a civil date and the milliseconds of its day.  Prisma
    hands it over as the [Date] with these UTC fields. *)
Record Timestamp : Type := mkTimestamp
  { year : Z; month : Z; day : Z; millis : Z }.

Definition ts_eqb (a b : Timestamp) : bool :=
  (year a =? year b) && (month a =? month b) && (day a =? day b)
  && (millis a =? millis b).

(** Chronological order. *)
Definition ts_ltb (a b : Timestamp) : bool :=
  (year a <? year b)
  || ((year a =? year b)
      && ((month a <? month b)
          || ((month a =? month b)
              && ((day a <? day b)
                  || ((day a =? day b) && (millis a <? millis b)))))).

(** [DATE_TRUNC('month', t)]. *)
Definition date_trunc_month (t : Timestamp) : Timestamp :=
  {| year := year t; month := month t; day := 1; millis := 0 |}.

(** [DECIMAL(10,2)] and [Prisma.Decimal] at scale 2: the amount in
    hundredths, an exact integer. *)
Definition Decimal : Type := Z.

Record Link : Type := mkLink
  { id : Z; shortCode : string; targetUrl : string; createdAt : Timestamp }.

Record Click : Type := mkClick
  { click_id : Z; linkId : Z; isValid : bool; earnedCredit : Decimal;
    clickedAt : Timestamp }.

(** The two tables, in insertion order, and their [SERIAL] sequences. *)
Record Store : Type := mkStore
  { links : list Link; clicks : list Click; links_id_seq : Z; clicks_id_seq : Z }.

Definition empty : Store :=
  {| links := []; clicks := []; links_id_seq := 0; clicks_id_seq := 0 |}.

(** The largest value of a [SERIAL] column. *)
Definition SERIAL_max : Z := 2147483647.

(** What a rejected insert reports: the columns of the violated unique
    index, or the violated foreign key. *)
Inductive violation : Type :=
| Unique (columns : list string)
| ForeignKey (constraint : string).

Definition find_by_targetUrl (ls : list Link) (url : string) : option Link :=
  find (fun l => String.eqb (targetUrl l) url) ls.

Definition find_by_shortCode (ls : list Link) (code : string) : option Link :=
  find (fun l => String.eqb (shortCode l) code) ls.

Definition find_by_id (ls : list Link) (i : Z) : option Link :=
  find (fun l => id l =? i) ls.

(** [INSERT INTO links (short_code, target_url)]: the sequence advances,
    then the unique indexes are checked in the order of their creation,
    [links_short_code_key] before [links_target_url_key]. *)
Definition insert_link (st : Store) (code url : string) (now : Timestamp)
  : (violation + Link) * Store :=
  let i := links_id_seq st + 1 in
  let st' := {| links := links st; clicks := clicks st;
                links_id_seq := i; clicks_id_seq := clicks_id_seq st |} in
  match find_by_shortCode (links st) code with
  | Some _ => (inl (Unique ["short_code"%string]), st')
  | None =>
      match find_by_targetUrl (links st) url with
      | Some _ => (inl (Unique ["target_url"%string]), st')
      | None =>
          let l := {| id := i; shortCode := code; targetUrl := url; createdAt := now |} in
          (inr l, {| links := links st ++ [l]; clicks := clicks st;
                     links_id_seq := i; clicks_id_seq := clicks_id_seq st |})
      end
  end.

(** [INSERT INTO clicks (link_id, is_valid, earned_credit)], under
    [clicks_link_id_fkey]. *)
Definition insert_click (st : Store) (lid : Z) (valid : bool) (credit : Decimal)
    (now : Timestamp) : (violation + Click) * Store :=
  let i := clicks_id_seq st + 1 in
  match find_by_id (links st) lid with
  | None =>
      (inl (ForeignKey "clicks_link_id_fkey"%string),
       {| links := links st; clicks := clicks st;
          links_id_seq := links_id_seq st; clicks_id_seq := i |})
  | Some _ =>
      let c := {| click_id := i; linkId := lid; isValid := valid;
                  earnedCredit := credit; clickedAt := now |} in
      (inr c, {| links := links st; clicks := clicks st ++ [c];
                 links_id_seq := links_id_seq st; clicks_id_seq := i |})
  end.

(** [ORDER BY created_at DESC]: an insertion sort.  SQL leaves open the
    order of rows of equal [created_at]; here they keep their table
    order: a row goes behind the rows created after it and before all
    the others, and the rows are inserted from the last to the first. *)
Fixpoint insert_desc (l : Link) (sorted : list Link) : list Link :=
  match sorted with
  | [] => [l]
  | x :: rest =>
      if ts_ltb (createdAt l) (createdAt x) then x :: insert_desc l rest
      else l :: sorted
  end.

Definition order_by_createdAt_desc (ls : list Link) : list Link :=
  fold_right insert_desc [] ls.

(** [findMany({ skip, take, orderBy: { createdAt: 'desc' } })] as the
    database answers it: the rows from [OFFSET skip] on, [LIMIT take] of
    them, for [0 <= skip] and [0 <= take]; a negative argument stands
    for 0 here.  What the client does with the arguments before the
    query is sent is in [Prisma]. *)
Definition list_links (ls : list Link) (skip take : Z) : list Link :=
  firstn (Z.to_nat take) (skipn (Z.to_nat skip) (order_by_createdAt_desc ls)).

Definition count_links (ls : list Link) : Z := Z.of_nat (List.length ls).

Definition clicks_of (cs : list Click) (lid : Z) : list Click :=
  filter (fun c => linkId c =? lid) cs.

Definition sum_credit (cs : list Click) : Decimal :=
  fold_right (fun c acc => earnedCredit c + acc) 0 cs.

(** [aggregate({ where: { linkId }, _count: true, _sum: { earnedCredit } })]:
    the sum over no rows is [null]. *)
Definition aggregate_clicks (cs : list Click) (lid : Z) : Z * option Decimal :=
  let g := clicks_of cs lid in
  (Z.of_nat (List.length g), match g with [] => None | _ => Some (sum_credit g) end).

Record MonthlyRow : Type := mkMonthlyRow
  { row_month : Timestamp; row_clicks : Z; row_earnings : Decimal }.

Fixpoint insert_month (m : Timestamp) (ms : list Timestamp) : list Timestamp :=
  match ms with
  | [] => [m]
  | x :: rest =>
      if ts_ltb m x then m :: ms
      else if ts_eqb m x then ms
      else x :: insert_month m rest
  end.

(** The distinct values of [DATE_TRUNC('month', clicked_at)], ascending. *)
Definition months_of (cs : list Click) : list Timestamp :=
  fold_right insert_month [] (map (fun c => date_trunc_month (clickedAt c)) cs).

Definition in_month (m : Timestamp) (c : Click) : bool :=
  ts_eqb (date_trunc_month (clickedAt c)) m.

(** [SELECT DATE_TRUNC('month', clicked_at) AS month, COUNT( * ),
    COALESCE(SUM(earned_credit), 0) FROM clicks WHERE link_id = lid
    GROUP BY DATE_TRUNC('month', clicked_at) ORDER BY month ASC]. *)
Definition monthly_clicks (cs : list Click) (lid : Z) : list MonthlyRow :=
  let g := clicks_of cs lid in
  map (fun m =>
         {| row_month := m;
            row_clicks := Z.of_nat (List.length (filter (in_month m) g));
            row_earnings := sum_credit (filter (in_month m) g) |})
      (months_of g).

End Db.

(* ===================================================================== *)
(** * What an [async] method does: calls, awaited one after another *)
(* ===================================================================== *)

Module Eff.
Import Db.

(** What a promise rejects with. *)
Inductive error : Type :=
| PrismaClientKnownRequestError (code : string) (target : option (list string))
| NotFoundException (message : string)
| Error (message : string).

(** A settled promise. *)
Inductive outcome (A : Type) : Type :=
| Ok (a : A)
| Err (e : error).
Arguments Ok {A} a.
Arguments Err {A} e.

(** The lines the services and the controller write to their [Logger]. *)
Inductive logline : Type :=
| ExistingLinkFound (targetUrl shortCode : string)
| NewLinkCreated (shortCode targetUrl : string)
| ExistingLinkFoundRace (targetUrl shortCode : string)
| ShortCodeCollision (attempt maxRetries : Z)
| ShortCodeNotFound (shortCode : string)
| Resolved (shortCode targetUrl : string)
| ClickRecordingSkipped (shortCode : string)
| ClickRecorded (shortCode : string) (isValid : bool) (earnedCredit : Decimal)
| Redirecting (shortCode : string)
| FailedToRecordClick (shortCode : string) (err : error).

(** The collaborators of the service: the Prisma client, [nanoid], the
    fraud service, the logger and the response object. *)
Inductive call : Type -> Type :=
| link_findUnique_targetUrl (targetUrl : string) : call (option Link)
| link_findUnique_shortCode (shortCode : string) : call (option Link)
| link_create (shortCode targetUrl : string) : call Link
| link_findMany (skip take : Z) : call (list Link)
| link_count : call Z
| click_create (linkId : Z) (isValid : bool) (earnedCredit : Decimal) : call Click
| click_aggregate (linkId : Z) : call (Z * option Decimal)
| queryRaw_monthly (linkId : Z) : call (list MonthlyRow)
| nanoid (size : Z) : call string
| fraud_validate : call bool
| logger (line : logline) : call unit
| res_redirect (status : Z) (url : string) : call unit.

(** A computation: it returns, throws, or calls a collaborator and goes
    on with how that call settled. *)
Inductive prog (R : Type) : Type :=
| Ret (r : R)
| Throw (e : error)
| Await {A : Type} (c : call A) (k : outcome A -> prog R).
Arguments Ret {R} r.
Arguments Throw {R} e.
Arguments Await {R A} c k.

Fixpoint bind {R S : Type} (p : prog R) (f : R -> prog S) : prog S :=
  match p with
  | Ret r => f r
  | Throw e => Throw e
  | Await c k => Await c (fun o => bind (k o) f)
  end.

(** [await c]: a rejection is thrown where the call is awaited. *)
Definition await {A : Type} (c : call A) : prog A :=
  Await c (fun o => match o with Ok a => Ret a | Err e => Throw e end).

(** A logger call: nothing is awaited, nothing comes back. *)
Definition say (line : logline) : prog unit :=
  Await (logger line) (fun _ => Ret tt).

(** [try { p } catch (error) { h error }]. *)
Fixpoint try_catch {R : Type} (p : prog R) (h : error -> prog R) : prog R :=
  match p with
  | Ret r => Ret r
  | Throw e => h e
  | Await c k => Await c (fun o => try_catch (k o) h)
  end.

(** [Promise.all(xs.map(f))], the calls of one element after those of the
    element before it. *)
Fixpoint for_each {X Y : Type} (f : X -> prog Y) (xs : list X) : prog (list Y) :=
  match xs with
  | [] => Ret []
  | x :: rest =>
      bind (f x) (fun y => bind (for_each f rest) (fun ys => Ret (y :: ys)))
  end.

Declare Scope prog_scope.
Delimit Scope prog_scope with prog.
Notation "x <- p ;; q" := (bind p (fun x => q))
  (at level 61, p at next level, right associativity) : prog_scope.
Notation "p ;; q" := (bind p (fun _ => q))
  (at level 61, right associativity) : prog_scope.

(** ** Running a computation *)

(** A call and how it settled. *)
Inductive event : Type :=
| Ev {A : Type} (c : call A) (o : outcome A).

(** The collaborators, over a state of theirs. *)
Definition handler (S : Type) : Type := forall A : Type, call A -> S -> outcome A * S.

Fixpoint interp {S R : Type} (h : handler S) (p : prog R) (s : S)
  : outcome R * S * list event :=
  match p with
  | Ret r => (Ok r, s, [])
  | Throw e => (Err e, s, [])
  | Await c k =>
      let '(o, s1) := h _ c s in
      let '(r, s2, tr) := interp h (k o) s1 in
      (r, s2, Ev c o :: tr)
  end.

(** The calls that write to a table, and the calls of the validator. *)
Definition is_write (e : event) : bool :=
  match e with
  | Ev c _ =>
      match c with
      | link_create _ _ | click_create _ _ _ => true
      | _ => false
      end
  end.

Definition is_fraud_validate (e : event) : bool :=
  match e with
  | Ev c _ => match c with fraud_validate => true | _ => false end
  end.

Definition count (f : event -> bool) (tr : list event) : nat :=
  List.length (filter f tr).

(** The [link.create] calls of a run with how each settled, and the rows
    its [click.create] calls asked for. *)
Fixpoint link_inserts (tr : list event) : list (string * string * outcome Link) :=
  match tr with
  | [] => []
  | Ev c o :: rest =>
      match c in call A return outcome A -> _ with
      | link_create code url => fun o => (code, url, o) :: link_inserts rest
      | _ => fun _ => link_inserts rest
      end o
  end.

Fixpoint click_inserts (tr : list event) : list (Z * bool * Decimal) :=
  match tr with
  | [] => []
  | Ev c _ :: rest =>
      match c with
      | click_create lid valid credit => (lid, valid, credit) :: click_inserts rest
      | _ => click_inserts rest
      end
  end.

(** The responses sent, in order. *)
Fixpoint responses (tr : list event) : list (Z * string) :=
  match tr with
  | [] => []
  | Ev c _ :: rest =>
      match c with
      | res_redirect status url => (status, url) :: responses rest
      | _ => responses rest
      end
  end.

(** ** The collaborators as they are: one store, other writers, chance *)

(** What the service does not decide: the codes [nanoid] draws, the
    verdicts of the fraud service, the time of the database at each
    query, and the links that concurrent [createLink] calls of other
    requests commit just before each query of this one.  Clicks that
    other requests record meanwhile are not part of this: within one
    call the table of Clicks changes by the inserts of the call only. *)
Record Oracle : Type := mkOracle
  { gen_code : nat -> string;
    verdict : nat -> bool;
    clock : nat -> Timestamp;
    intruders : nat -> list (string * string) }.

Record World : Type := mkWorld
  { store : Store; queries : nat; codes_drawn : nat; validations : nat }.

Definition intrude (orc : Oracle) (n : nat) (st : Store) : Store :=
  fold_left (fun st cu => snd (insert_link st (fst cu) (snd cu) (clock orc n)))
            (intruders orc n) st.

Definition reject {A : Type} (v : violation) : outcome A :=
  match v with
  | Unique columns => Err (PrismaClientKnownRequestError "P2002" (Some columns))
  | ForeignKey _ => Err (PrismaClientKnownRequestError "P2003" None)
  end.

(** The two rejections of an insert into [links]. *)
Definition short_code_conflict : error :=
  PrismaClientKnownRequestError "P2002" (Some ["short_code"%string]).
Definition target_url_conflict : error :=
  PrismaClientKnownRequestError "P2002" (Some ["target_url"%string]).

Definition settle {A : Type} (r : violation + A) : outcome A :=
  match r with
  | inl v => reject v
  | inr a => Ok a
  end.

(** A query: the other writers first, then the statement. *)
Definition query {A : Type} (orc : Oracle) (w : World)
    (q : Store -> Timestamp -> outcome A * Store) : outcome A * World :=
  let '(o, st) := q (intrude orc (queries w) (store w)) (clock orc (queries w)) in
  (o, {| store := st; queries := S (queries w);
         codes_drawn := codes_drawn w; validations := validations w |}).

Definition read {A : Type} (orc : Oracle) (w : World) (q : Store -> A)
  : outcome A * World :=
  query orc w (fun st _ => (Ok (q st), st)).

Definition world_handler (orc : Oracle) : handler World :=
  fun A c w =>
    match c in call A return outcome A * World with
    | link_findUnique_targetUrl url =>
        read orc w (fun st => find_by_targetUrl (links st) url)
    | link_findUnique_shortCode code =>
        read orc w (fun st => find_by_shortCode (links st) code)
    | link_create code url =>
        query orc w (fun st now =>
          let '(r, st') := insert_link st code url now in (settle r, st'))
    | link_findMany skip take =>
        read orc w (fun st => list_links (links st) skip take)
    | link_count => read orc w (fun st => count_links (links st))
    | click_create lid valid credit =>
        query orc w (fun st now =>
          let '(r, st') := insert_click st lid valid credit now in (settle r, st'))
    | click_aggregate lid =>
        read orc w (fun st => aggregate_clicks (clicks st) lid)
    | queryRaw_monthly lid =>
        read orc w (fun st => monthly_clicks (clicks st) lid)
    | nanoid _ =>
        (Ok (gen_code orc (codes_drawn w)),
         {| store := store w; queries := queries w;
            codes_drawn := S (codes_drawn w); validations := validations w |})
    | fraud_validate =>
        (Ok (verdict orc (validations w)),
         {| store := store w; queries := queries w;
            codes_drawn := codes_drawn w; validations := S (validations w) |})
    | logger _ => (Ok tt, w)
    | res_redirect _ _ => (Ok tt, w)
    end.

Definition run {R : Type} (orc : Oracle) (p : prog R) (w : World)
  : outcome R * World * list event :=
  interp (world_handler orc) p w.

(** No other writer is active. *)
Definition quiet (orc : Oracle) : Prop := forall n, intruders orc n = [].

End Eff.

(* ===================================================================== *)
(** * The Prisma client in front of the store *)
(* ===================================================================== *)

Module Prisma.
Import Db Eff.

(** An [Int] argument of a query is a signed 64-bit integer. *)
Definition Int_max : Z := 2 ^ 63 - 1.



(** What the client takes for [skip] and [take]: [skip] from 0 to
    [Int_max], [take] any [Int]. *)
Definition accepts (skip take : Z) : bool :=
  (0 <=? skip) && (skip <=? Int_max)
  && (- Int_max - 1 <=? take) && (take <=? Int_max).

(** [findMany({ skip, take, orderBy: { createdAt: 'desc' } })] on
    accepted arguments: a negative [take] counts from the end of the
    listing, and so does its [skip]. *)
Definition findMany (ls : list Link) (skip take : Z) : list Link :=
  if 0 <=? take then list_links ls skip take
  else rev (firstn (Z.to_nat (- take))
              (skipn (Z.to_nat skip) (rev (order_by_createdAt_desc ls)))).

(** The collaborators with the client's check of the arguments of
    [findMany]: what it does not accept is rejected with [refusal]
    before any query is sent. *)
Definition client (refusal : error) (orc : Oracle) : handler World :=
  fun A c w =>
    match c in call A return outcome A * World with
    | link_findMany skip take =>
        if accepts skip take
        then read orc w (fun st => findMany (links st) skip take)
        else (Err refusal, w)
    | c' => world_handler orc _ c' w
    end.

End Prisma.

(* ===================================================================== *)
(** * [dto/link-stats.dto.ts] *)
(* ===================================================================== *)

Module Dto.

Record MonthlyBreakdown : Type := mkMonthlyBreakdown
  { month : string; clicks : Z; earnings : string }.

Record LinkStatsItem : Type := mkLinkStatsItem
  { shortCode : string; url : string; totalClicks : Z; totalEarnings : string;
    monthlyBreakdown : list MonthlyBreakdown }.

Record PaginationMeta : Type := mkPaginationMeta
  { page : Z; limit : Z; totalItems : Z; totalPages : JS.double }.

Record LinkStatsResponse : Type := mkLinkStatsResponse
  { data : list LinkStatsItem; meta : PaginationMeta }.

End Dto.

(* ===================================================================== *)
(** * [LinksService] *)
(* ===================================================================== *)

Module Service.
Import Eff.
Local Open Scope prog_scope.

(** What [createLink] resolves to. *)
Record Created : Type := mkCreated
  { shortCode : string; targetUrl : string; isNew : bool }.

Definition maxRetries : Z := 3.

(** [error instanceof Prisma.PrismaClientKnownRequestError &&
    error.code === 'P2002']. *)
Definition is_P2002 (e : error) : bool :=
  match e with
  | PrismaClientKnownRequestError code _ => String.eqb code "P2002"
  | _ => false
  end.

(** [Array.isArray(target) && target.includes(column)] on
    [error.meta?.target]. *)
Definition target_includes (e : error) (column : string) : bool :=
  match e with
  | PrismaClientKnownRequestError _ (Some target) => existsb (String.eqb column) target
  | _ => false
  end.

(** The [for] loop of [createLink] from [attempt] on, [remaining] being
    [maxRetries - attempt]; falling out of it is the [throw] below it. *)
Fixpoint createLink_attempts (remaining : nat) (attempt : Z) (url : string)
  : prog Created :=
  match remaining with
  | O => Throw (Error "Failed to generate unique short code after retries")
  | S remaining' =>
      try_catch
        (code <- await (nanoid 8) ;;
         link <- await (link_create code url) ;;
         say (NewLinkCreated (Db.shortCode link) url) ;;
         Ret {| shortCode := Db.shortCode link; targetUrl := Db.targetUrl link;
                isNew := true |})
        (fun error =>
           if is_P2002 error then
             let collision :=
               say (ShortCodeCollision (attempt + 1) maxRetries) ;;
               if attempt =? maxRetries - 1 then Throw error
               else createLink_attempts remaining' (attempt + 1) url in
             if target_includes error "target_url" then
               existing <- await (link_findUnique_targetUrl url) ;;
               match existing with
               | Some existing =>
                   say (ExistingLinkFoundRace url (Db.shortCode existing)) ;;
                   Ret {| shortCode := Db.shortCode existing;
                          targetUrl := Db.targetUrl existing; isNew := false |}
               | None => collision
               end
             else collision
           else Throw error)
  end.

Definition createLink (url : string) : prog Created :=
  existing <- await (link_findUnique_targetUrl url) ;;
  match existing with
  | Some existing =>
      say (ExistingLinkFound url (Db.shortCode existing)) ;;
      Ret {| shortCode := Db.shortCode existing; targetUrl := Db.targetUrl existing;
             isNew := false |}
  | None => createLink_attempts (Z.to_nat maxRetries) 0 url
  end.

Definition resolve (code : string) : prog string :=
  link <- await (link_findUnique_shortCode code) ;;
  match link with
  | None =>
      say (ShortCodeNotFound code) ;;
      Throw (NotFoundException "Short link not found")
  | Some link =>
      say (Resolved code (Db.targetUrl link)) ;;
      Ret (Db.targetUrl link)
  end.

(** [new Prisma.Decimal('0.05')] and [new Prisma.Decimal('0.00')]. *)
Definition Decimal_0_05 : Db.Decimal := 5.
Definition Decimal_0_00 : Db.Decimal := 0.

Definition recordClick (code : string) : prog unit :=
  link <- await (link_findUnique_shortCode code) ;;
  match link with
  | None => say (ClickRecordingSkipped code) ;; Ret tt
  | Some link =>
      isValid <- await fraud_validate ;;
      let earnedCredit := if isValid then Decimal_0_05 else Decimal_0_00 in
      _ <- await (click_create (Db.id link) isValid earnedCredit) ;;
      say (ClickRecorded code isValid earnedCredit) ;;
      Ret tt
  end.

(** [Number(d)] on a decimal: the binary64 nearest to the amount. *)
Definition Number_of_Decimal (d : Db.Decimal) : JS.double :=
  JS.with_sign (d <? 0) (JS.fl (Z.abs d) 100).

(** [Number(x)] where [x] is a decimal or [null]. *)
Definition Number_of_nullable (x : option Db.Decimal) : JS.double :=
  match x with
  | None => JS.Finite false 0 (-1074)
  | Some d => Number_of_Decimal d
  end.

(** One row of the monthly query as the response shows it.  [row.clicks]
    is a [bigint] below [2^53], which [Number] keeps as it is. *)
Definition monthly_entry (row : Db.MonthlyRow) : Dto.MonthlyBreakdown :=
  let date := Db.row_month row in
  let mm := JS.padStart0 2 (JS.String_of_int (Db.month date)) in
  let yyyy := Db.year date in
  {| Dto.month := (mm ++ "/" ++ JS.String_of_int yyyy)%string;
     Dto.clicks := Db.row_clicks row;
     Dto.earnings := JS.toFixed 2 (Number_of_Decimal (Db.row_earnings row)) |}.

(** The object one Link of the page is mapped to. *)
Definition stats_item (link : Db.Link) (aggregation : Z * option Db.Decimal)
    (monthlyRaw : list Db.MonthlyRow) : Dto.LinkStatsItem :=
  let monthlyBreakdown := map monthly_entry monthlyRaw in
  {| Dto.shortCode := Db.shortCode link;
     Dto.url := Db.targetUrl link;
     Dto.totalClicks := fst aggregation;
     Dto.totalEarnings :=
       JS.toFixed 2 (JS.or_zero (Number_of_nullable (snd aggregation)));
     Dto.monthlyBreakdown := monthlyBreakdown |}.

(** The two queries on the Clicks of one Link, each awaited. *)
Definition link_stats (link : Db.Link) : prog Dto.LinkStatsItem :=
  aggregation <- await (click_aggregate (Db.id link)) ;;
  monthlyRaw <- await (queryRaw_monthly (Db.id link)) ;;
  Ret (stats_item link aggregation monthlyRaw).

(** Both [Promise.all] are taken in the order of their elements: the
    page of Links, then the count, then the Links of the page one after
    the other.  [page], [limit], [totalItems] and the counts are numbers
    that hold integers; they are kept as integers up to the division.
    The offset is the exact product [(page - 1) * limit]; the service
    computes it on numbers ([Prisma.skip_of]), which gives the same
    integer while it is below [2^53]. *)
Definition getStats (page limit : Z) : prog Dto.LinkStatsResponse :=
  links <- await (link_findMany ((page - 1) * limit) limit) ;;
  totalItems <- await link_count ;;
  data <- for_each link_stats links ;;
  Ret {| Dto.data := data;
         Dto.meta := {| Dto.page := page; Dto.limit := limit;
                        Dto.totalItems := totalItems;
                        Dto.totalPages := JS.Math_ceil (JS.div_int totalItems limit) |} |}.

End Service.

(* ===================================================================== *)
(** * [LinksController]: [GET /:shortCode] *)
(* ===================================================================== *)

Module Controller.
Import Eff.
Local Open Scope prog_scope.

Definition FOUND : Z := 302.

(** The promise chain [recordClick(shortCode).catch(...)]. *)
Definition record_and_log (code : string) : prog unit :=
  try_catch (Service.recordClick code)
            (fun err => say (FailedToRecordClick code err)).

(** The handler.  Its own promise resolves to nothing; what it returns
    here are the promise chains it has started and not awaited.  (The
    first query of [recordClick] is already on its way when the handler
    returns, after [res.redirect]; it settles later, like the rest.) *)
Definition redirect (code : string) : prog (list (prog unit)) :=
  say (Redirecting code) ;;
  targetUrl <- Service.resolve code ;;
  await (res_redirect FOUND targetUrl) ;;
  Ret [record_and_log code].

(** The detached chains run when the handler has returned; none of them
    has anything to reject into. *)
Fixpoint run_detached {S : Type} (h : handler S) (tasks : list (prog unit)) (s : S)
  : list (outcome unit) * S * list event :=
  match tasks with
  | [] => ([], s, [])
  | t :: rest =>
      let '(o, s1, tr1) := interp h t s in
      let '(os, s2, tr2) := run_detached h rest s1 in
      (o :: os, s2, tr1 ++ tr2)
  end.

(** One request: what the caller gets (the handler's outcome and the
    events up to its return), then the detached work. *)
Definition serve {S : Type} (h : handler S) (handle : prog (list (prog unit))) (s : S)
  : outcome unit * list event * (list (outcome unit) * S * list event) :=
  let '(r, s1, tr) := interp h handle s in
  match r with
  | Ok tasks => (Ok tt, tr, run_detached h tasks s1)
  | Err e => (Err e, tr, ([], s1, []))
  end.

End Controller.

(* ===================================================================== *)
(** * The words of the specification *)
(* ===================================================================== *)

Module Spec.

(** An exact amount of hundredths written with exactly two decimal
    places: the integer part, a point, the tenths and the hundredths. *)
Definition two_decimals (c : Z) : string :=
  (JS.decimal (c / 100) ++ "."
   ++ String (JS.digit_char (c / 10 mod 10))
        (String (JS.digit_char (c mod 10)) EmptyString))%string.


(** The exact sum of [earnedCredit] over the Clicks of a Link. *)
Definition exact_total (cs : list Db.Click) (lid : Z) : Z :=
  Db.sum_credit (Db.clicks_of cs lid).

(** The Clicks of a Link that fall into the calendar month of [m]. *)
Definition clicks_in_month (cs : list Db.Click) (lid : Z) (m : Db.Timestamp)
  : list Db.Click :=
  filter (fun c => (Db.year (Db.clickedAt c) =? Db.year m)
                   && (Db.month (Db.clickedAt c) =? Db.month m))
         (Db.clicks_of cs lid).

(** The label [MM/YYYY] of a month: two digits, a slash, four digits. *)
Definition month_label (m : Db.Timestamp) : string :=
  let d := JS.digit_char in
  let mo := Db.month m in
  let y := Db.year m in
  String (d (mo / 10)) (String (d (mo mod 10)) (String "/"
    (String (d (y / 1000)) (String (d (y / 100 mod 10))
      (String (d (y / 10 mod 10)) (String (d (y mod 10)) EmptyString)))))).

(** A date of the calendar with a year of four digits. *)
Definition civil (t : Db.Timestamp) : Prop :=
  1 <= Db.month t <= 12 /\ 1000 <= Db.year t <= 9999.

(** Every Click carries one of the two credits, the one of its flag. *)
Definition credits_canonical (cs : list Db.Click) : Prop :=
  forall c, In c cs ->
    Db.earnedCredit c = if Db.isValid c then 5 else 0.

(** The table holds no more rows than its [SERIAL] key can number. *)
Definition within_serial (cs : list Db.Click) : Prop :=
  Z.of_nat (List.length cs) <= Db.SERIAL_max.

(** One state of [links] continues another: rows are only appended. *)
Definition grows (ls ls' : list Db.Link) : Prop := exists extra, ls' = ls ++ extra.

(** An insert attempt that met a taken short code. *)
Definition collided (url : string) (x : string * string * Eff.outcome Db.Link) : Prop :=
  exists code, x = (code, url, Eff.Err Eff.short_code_conflict).

(** Both unique indexes of [links] hold. *)
Definition unique_links (ls : list Db.Link) : Prop :=
  NoDup (map Db.targetUrl ls) /\ NoDup (map Db.shortCode ls).

(** Chronological order of two months, and of two Links by creation,
    the later one first. *)
Definition earlier (a b : Db.Timestamp) : Prop := Db.ts_ltb a b = true.
Definition not_older (a b : Db.Link) : Prop :=
  Db.ts_ltb (Db.createdAt a) (Db.createdAt b) = false.

End Spec.

(* ===================================================================== *)
(** * Stores and oracles of the examples *)
(* ===================================================================== *)

Module Scenario.
Import Db Eff.

Definition on (y m d : Z) : Timestamp :=
  {| year := y; month := m; day := d; millis := 0 |}.

(** No concurrent writer. *)
Definition alone : nat -> list (string * string) := fun _ => [].

(** An oracle that draws the given codes in turn and finds every click
    valid. *)
Definition drawing (codes : list string) (others : nat -> list (string * string))
  : Oracle :=
  {| gen_code := fun n => nth n codes "zzzzzzzz"%string;
     verdict := fun _ => true;
     clock := fun _ => on 2026 1 15;
     intruders := others |}.

Definition world_of (st : Store) : World :=
  {| store := st; queries := 0; codes_drawn := 0; validations := 0 |}.

Definition link_a : Link :=
  {| id := 1; shortCode := "aaaaaaaa"; targetUrl := "https://example.com/a";
     createdAt := on 2025 12 1 |}.
Definition link_b : Link :=
  {| id := 2; shortCode := "bbbbbbbb"; targetUrl := "https://example.com/b";
     createdAt := on 2025 12 2 |}.
Definition link_c : Link :=
  {| id := 3; shortCode := "cccccccc"; targetUrl := "https://example.com/c";
     createdAt := on 2025 12 3 |}.

Definition holding (ls : list Link) (cs : list Click) : World :=
  world_of {| links := ls; clicks := cs;
              links_id_seq := Z.of_nat (List.length ls);
              clicks_id_seq := Z.of_nat (List.length cs) |}.

(** The generator draws two taken codes, then a free one; or three taken
    ones. *)
Definition colliding : Oracle :=
  drawing ["aaaaaaaa"; "bbbbbbbb"; "cccccccc"]%string alone.

(** Another request creates the same target between the lookup and the
    insert of this one. *)
Definition racing : Oracle :=
  drawing ["cccccccc"%string]
    (fun n => match n with
              | 1%nat => [("rrrrrrrr", "https://example.com/x")]%string
              | _ => []
              end).

(** [n] valid clicks on [link_a], and twenty of them. *)
Definition valid_clicks (n : nat) : list Click :=
  map (fun i => {| click_id := Z.of_nat i; linkId := 1; isValid := true;
                   earnedCredit := Service.Decimal_0_05; clickedAt := on 2026 1 15 |})
      (seq 1 n).

Definition twenty_valid : list Click := valid_clicks 20.

(** Clicks on [link_a] dated 2026-01-03, 2025-12-15 and 2025-12-28, in
    this order in the table. *)
Definition three_dated : list Click :=
  [ {| click_id := 1; linkId := 1; isValid := true;
       earnedCredit := Service.Decimal_0_05; clickedAt := on 2026 1 3 |};
    {| click_id := 2; linkId := 1; isValid := true;
       earnedCredit := Service.Decimal_0_05; clickedAt := on 2025 12 15 |};
    {| click_id := 3; linkId := 1; isValid := false;
       earnedCredit := Service.Decimal_0_00; clickedAt := on 2025 12 28 |} ].

(** What the client rejects a query with that it does not accept. *)
Definition refusal : error := Error "Invalid prisma.link.findMany() invocation".

(** Forty-two Links, created one millisecond after the other. *)
Definition forty_two : list Link :=
  map (fun i => {| id := Z.of_nat i;
                   shortCode := ("code" ++ JS.decimal (Z.of_nat i))%string;
                   targetUrl := ("https://example.com/" ++ JS.decimal (Z.of_nat i))%string;
                   createdAt := {| year := 2026; month := 1; day := 1;
                                   millis := Z.of_nat i |} |})
      (seq 1 42).

End Scenario.

(* ===================================================================== *)
(** * [LinksController]: [POST /links] and [GET /stats] *)
(* ===================================================================== *)

Module Handlers.
Import Eff.
Local Open Scope prog_scope.

Definition CREATED : Z := 201.
Definition OK : Z := 200.

(** The line a handler writes to the controller's [Logger] before
    anything else. *)
Inductive announcement : Type :=
| CreatingShortLink (url : string)
| FetchingStats (page limit : Z).

(** A handler: the line it logs first, then what it awaits and what its
    response object is given at the end. *)
Record handled (R : Type) : Type := mkHandled
  { logs_first : announcement; work : prog R }.
Arguments mkHandled {R} logs_first work.
Arguments logs_first {R} h.
Arguments work {R} h.

(** [process.env.BASE_URL || 'http://localhost:3000']: a variable that is
    not set and one that is empty are both falsy. *)
Definition baseUrl (BASE_URL : option string) : string :=
  match BASE_URL with
  | None => "http://localhost:3000"
  | Some EmptyString => "http://localhost:3000"
  | Some url => url
  end.

(** The object handed to [res.status(status).json(...)]. *)
Record ShortLink : Type := mkShortLink
  { shortUrl : string; targetUrl : string }.

Record Reply : Type := mkReply
  { status : Z; json : ShortLink }.

(** [createLink(dto, res)], [dto.url] having passed validation. *)
Definition createLink (BASE_URL : option string) (url : string) : handled Reply :=
  {| logs_first := CreatingShortLink url;
     work :=
       let baseUrl := baseUrl BASE_URL in
       result <- Service.createLink url ;;
       let status := if Service.isNew result then CREATED else OK in
       Ret {| status := status;
              json := {| shortUrl := (baseUrl ++ "/" ++ Service.shortCode result)%string;
                         targetUrl := Service.targetUrl result |} |} |}.

(** [getStats(query)]. *)
Definition getStats (page limit : Z) : handled Dto.LinkStatsResponse :=
  {| logs_first := FetchingStats page limit;
     work := Service.getStats page limit |}.

End Handlers.

(* ===================================================================== *)
(** * What the end-to-end tests do with a short URL *)
(* ===================================================================== *)

Module Client.

Definition is_slash (c : ascii) : bool := Ascii.eqb c "/".

Fixpoint has_slash (s : string) : bool :=
  match s with
  | EmptyString => false
  | String c rest => is_slash c || has_slash rest
  end.

(** [s.split('/').pop()]: what follows the last slash, or all of [s]. *)
Fixpoint last_segment (s : string) : string :=
  match s with
  | EmptyString => EmptyString
  | String c rest =>
      if has_slash rest then last_segment rest
      else if is_slash c then rest
      else s
  end.

End Client.

(* ===================================================================== *)
(** * The constraints of the migration, as properties of a store *)
(* ===================================================================== *)

Module Schema.
Import Db.

(** [links_pkey] over [id SERIAL]: no id twice, none ahead of the
    sequence. *)
Definition links_pkey (st : Store) : Prop :=
  NoDup (map id (links st)) /\ forall l, In l (links st) -> id l <= links_id_seq st.

(** [clicks_pkey]. *)
Definition clicks_pkey (st : Store) : Prop :=
  NoDup (map click_id (clicks st)) /\
  forall c, In c (clicks st) -> click_id c <= clicks_id_seq st.

(** [clicks_link_id_fkey]. *)
Definition clicks_link_id_fkey (st : Store) : Prop :=
  forall c, In c (clicks st) -> exists l, In l (links st) /\ id l = linkId c.

(** All of them, [links_short_code_key] and [links_target_url_key]
    included. *)
Definition holds (st : Store) : Prop :=
  links_pkey st /\ clicks_pkey st /\ Spec.unique_links (links st) /\
  clicks_link_id_fkey st.

End Schema.

(* ===================================================================== *)
(** * Collaborators that fail, and what a run shows *)
(* ===================================================================== *)

Module Faults.
Import Db Eff.

Definition is_link_create {A : Type} (c : call A) : bool :=
  match c with
  | link_create _ _ => true
  | _ => false
  end.

Definition is_findUnique_targetUrl {A : Type} (c : call A) : bool :=
  match c with
  | link_findUnique_targetUrl _ => true
  | _ => false
  end.

Definition is_fraud_validate_call {A : Type} (c : call A) : bool :=
  match c with
  | fraud_validate => true
  | _ => false
  end.

(** Collaborators that cannot be reached: every call rejects with [e]. *)
Definition down (e : error) : handler unit :=
  fun _ _ s => (Err e, s).

(** A fraud service that rejects with [e]; the rest is the store. *)
Definition unvalidated (e : error) (orc : Oracle) : handler World :=
  fun A c w =>
    if is_fraud_validate_call c then (Err e, w) else world_handler orc A c w.

(** A database whose inserts into [links] all reject with [e]; the rest
    is the store. *)
Definition refusing (e : error) (orc : Oracle) : handler World :=
  fun A c w =>
    if is_link_create c then (Err e, w) else world_handler orc A c w.

(** The same, and reads by target URL come from a replica that shows no
    row. *)
Definition stale (e : error) (orc : Oracle) : handler World :=
  fun A c w =>
    match c in call A return outcome A * World with
    | link_findUnique_targetUrl _ => (Ok None, w)
    | c' => refusing e orc _ c' w
    end.

(** The errors the collaborators rejected with in a run, in order. *)
Fixpoint rejections (tr : list event) : list error :=
  match tr with
  | [] => []
  | Ev _ o :: rest =>
      match o with
      | Err e => e :: rejections rest
      | Ok _ => rejections rest
      end
  end.

(** [p] rejects only with an error of [known] or with one a collaborator
    rejected with in the same run. *)
Definition rethrows {S R : Type} (h : handler S) (known : error -> Prop) (p : prog R)
  : Prop :=
  forall s e,
    fst (fst (interp h p s)) = Err e ->
    known e \/ In e (rejections (snd (interp h p s))).

(** The reads by target URL of a run. *)
Definition lookups_by_url (tr : list event) : nat :=
  count (fun ev => match ev with Ev c _ => is_findUnique_targetUrl c end) tr.

End Faults.

Module Observe.
Import Db Eff.

(** The short codes on a page of [getStats], in the order of the page. *)
Definition page_codes (refusal : error) (orc : Oracle) (w : World) (limit : Z) (page : nat)
  : list string :=
  match fst (fst (interp (Prisma.client refusal orc)
                    (Service.getStats (Z.of_nat page) limit) w)) with
  | Ok r => map Dto.shortCode (Dto.data r)
  | Err _ => []
  end.

(** Of two Links, the first was created after the second. *)
Definition newer (a b : Link) : Prop := ts_ltb (createdAt b) (createdAt a) = true.

End Observe.

(* ===================================================================== *)
(** * Facts *)
(* ===================================================================== *)

Import Db Eff Spec.

(** Runs a computation on the store as far as its calls are known. *)
Ltac eval_run :=
  cbn -[intrude find_by_targetUrl find_by_shortCode find_by_id insert_link insert_click
        Service.createLink_attempts Z.to_nat];
  unfold read, query;
  cbn -[intrude find_by_targetUrl find_by_shortCode find_by_id insert_link insert_click
        Service.createLink_attempts Z.to_nat].

(** ** Numbers and digits *)

Section JSFacts.
Import JS.

Lemma round_half_even_spec N D :
  0 < D -> - D <= 2 * N - 2 * round_half_even N D * D <= D.
Proof.
  intros HD. unfold round_half_even.
  pose proof (Z.div_mod N D ltac:(lia)) as E.
  pose proof (Z.mod_pos_bound N D HD) as B.
  set (q := N / D) in *. set (r := N mod D) in *. clearbody q r.
  assert (E1 : 2 * N - 2 * q * D = 2 * r) by (rewrite E; ring).
  assert (E2 : 2 * N - 2 * (q + 1) * D = 2 * r - 2 * D) by (rewrite E; ring).
  destruct (Z.compare_spec (2 * r) D) as [C|C|C].
  - destruct (Z.even q); lia.
  - lia.
  - lia.
Qed.

Lemma scale_nonpos p q e :
  e <= 0 -> scale_num p e = p * 2 ^ (- e) /\ scale_den q e = q.
Proof.
  intros He. unfold scale_num, scale_den.
  destruct (e <? 0) eqn:C.
  - split; reflexivity.
  - apply Z.ltb_ge in C. assert (e = 0) by lia. subst e. simpl. lia.
Qed.

Lemma val_nonpos m e :
  e <= 0 -> val_num m e = m /\ val_den e = 2 ^ (- e).
Proof.
  intros He. unfold val_num, val_den.
  destruct (e <? 0) eqn:C.
  - split; reflexivity.
  - apply Z.ltb_ge in C. assert (e = 0) by lia. subst e. simpl. lia.
Qed.

(** The exponent chosen for a quotient below [2^52]. *)
Lemma binade_spec p q :
  0 < p -> 0 < q < 2 ^ 53 -> p < 2 ^ 52 * q ->
  binade p q <= -1 /\
  2 ^ 52 * q <= p * 2 ^ (- binade p q) < 2 ^ 53 * q.
Proof.
  intros Hp Hq Hpq.
  destruct (Z.log2_spec p Hp) as [Lp Up].
  destruct (Z.log2_spec q ltac:(lia)) as [Lq Uq].
  pose proof (Z.log2_nonneg p) as Np.
  pose proof (Z.log2_nonneg q) as Nq.
  set (lp := Z.log2 p) in *. set (lq := Z.log2 q) in *.
  rewrite Z.pow_succ_r in Up, Uq by lia.
  assert (Hlq : lq <= 52).
  { destruct (Z_le_gt_dec lq 52) as [|G]; [assumption|].
    assert (2 ^ 53 <= 2 ^ lq) by (apply Z.pow_le_mono_r; lia). lia. }
  assert (He1 : lp - lq - 53 <= -1).
  { destruct (Z_le_gt_dec lp (lq + 52)) as [|G]; [lia|].
    assert (2 ^ (lq + 53) <= 2 ^ lp) by (apply Z.pow_le_mono_r; lia).
    rewrite Z.pow_add_r in H by lia. nia. }
  assert (T : 2 ^ (- (lp - lq - 53)) * 2 ^ lp = 2 ^ 53 * 2 ^ lq).
  { rewrite <- !Z.pow_add_r by lia. f_equal. lia. }
  assert (P1 : 0 < 2 ^ (- (lp - lq - 53))) by (apply Z.pow_pos_nonneg; lia).
  unfold binade. fold lp lq.
  set (e1 := lp - lq - 53) in *.
  destruct (scale_nonpos p q e1 ltac:(lia)) as [-> ->].
  destruct (p * 2 ^ (- e1) <? 2 ^ 53 * q) eqn:C.
  - apply Z.ltb_lt in C. rewrite Z.max_l by lia. split; [lia|]. nia.
  - apply Z.ltb_ge in C.
    assert (e1 <= -2).
    { destruct (Z.eq_dec e1 (-1)) as [E|]; [|lia].
      rewrite E in C. change (2 ^ (- -1)) with 2 in C. lia. }
    rewrite Z.max_l by lia.
    assert (S2 : 2 ^ (- e1) = 2 * 2 ^ (- (e1 + 1))).
    { rewrite <- Z.pow_succ_r by lia. f_equal. lia. }
    split; [lia|]. nia.
Qed.

(** The number read from, or computed as, a quotient below [2^52] is a
    nearest one on a grid of negative exponent. *)
Lemma fl_nearest p q :
  0 < p -> 0 < q < 2 ^ 53 -> p < 2 ^ 52 * q ->
  exists m e, fl p q = Finite false m e /\ e <= 0 /\ 2 ^ 52 <= m < 2 ^ 53 /\
              - q <= 2 * (p * 2 ^ (- e)) - 2 * m * q <= q.
Proof.
  intros Hp Hq Hpq.
  destruct (binade_spec p q Hp Hq Hpq) as [He [Lo Hi]].
  unfold fl. rewrite (proj2 (Z.eqb_neq p 0)) by lia.
  set (e := binade p q) in *.
  destruct (scale_nonpos p q e ltac:(lia)) as [-> ->].
  pose proof (round_half_even_spec (p * 2 ^ (- e)) q ltac:(lia)) as R.
  set (m := round_half_even (p * 2 ^ (- e)) q) in *.
  assert (Mlo : 2 ^ 52 <= m) by nia.
  assert (Mhi : m <= 2 ^ 53) by nia.
  destruct (m =? 2 ^ 53) eqn:C.
  - apply Z.eqb_eq in C.
    rewrite (proj2 (Z.ltb_ge 971 (e + 1))) by lia.
    exists (2 ^ 52), (e + 1). split; [reflexivity|]. split; [lia|]. split; [lia|].
    assert (S2 : 2 ^ (- e) = 2 * 2 ^ (- (e + 1))).
    { rewrite <- Z.pow_succ_r by lia. f_equal. lia. }
    rewrite C in R. change (2 ^ 53) with (2 * 2 ^ 52) in R. nia.
  - apply Z.eqb_neq in C.
    rewrite (proj2 (Z.ltb_ge 971 e)) by lia.
    exists m, e. repeat split; lia.
Qed.

(** ** Digits *)

Lemma append_assoc (a b c : string) : ((a ++ b) ++ c = a ++ (b ++ c))%string.
Proof. induction a as [|x a IH]; simpl; [reflexivity | rewrite IH; reflexivity]. Qed.

Lemma length_append (a b : string) :
  String.length (a ++ b) = (String.length a + String.length b)%nat.
Proof. induction a as [|x a IH]; simpl; [reflexivity | rewrite IH; reflexivity]. Qed.

Lemma digits_fuel_acc f : forall n acc,
  digits_fuel f n acc = (digits_fuel f n EmptyString ++ acc)%string.
Proof.
  induction f as [|f IH]; intros n acc; simpl.
  - reflexivity.
  - destruct (n <? 10).
    + reflexivity.
    + rewrite IH. rewrite (IH _ (String _ EmptyString)).
      rewrite append_assoc. reflexivity.
Qed.

Lemma digits_fuel_enough f1 : forall f2 n acc,
  0 <= n < 2 ^ Z.of_nat f1 -> n < 2 ^ Z.of_nat f2 ->
  (1 <= f1)%nat -> (1 <= f2)%nat ->
  digits_fuel f1 n acc = digits_fuel f2 n acc.
Proof.
  induction f1 as [|f1 IH]; intros f2 n acc H1 H2 G1 G2; [lia|].
  destruct f2 as [|f2]; [lia|]. simpl.
  destruct (n <? 10) eqn:C; [reflexivity|].
  apply Z.ltb_ge in C.
  rewrite Nat2Z.inj_succ, Z.pow_succ_r in H1, H2 by lia.
  assert (n / 10 < 2 ^ Z.of_nat f1).
  { apply Z.div_lt_upper_bound; lia. }
  assert (n / 10 < 2 ^ Z.of_nat f2).
  { apply Z.div_lt_upper_bound; lia. }
  assert (1 <= n / 10) by (apply Z.div_le_lower_bound; lia).
  apply IH; try lia.
  - destruct f1; [simpl in *; lia | lia].
  - destruct f2; [simpl in *; lia | lia].
Qed.

Lemma decimal_fuel_ok n : 0 <= n -> n < 2 ^ Z.of_nat (S (Z.to_nat (Z.log2 n))).
Proof.
  intros Hn. rewrite Nat2Z.inj_succ, Z2Nat.id by apply Z.log2_nonneg.
  destruct (Z.eq_dec n 0) as [->|]; [reflexivity|].
  apply Z.log2_spec. lia.
Qed.

Lemma decimal_small n :
  0 <= n < 10 -> decimal n = String (digit_char n) EmptyString.
Proof.
  intros H. unfold decimal. simpl.
  rewrite (proj2 (Z.ltb_lt n 10)) by lia.
  rewrite Z.mod_small by lia. reflexivity.
Qed.

Lemma decimal_step n :
  10 <= n ->
  decimal n = (decimal (n / 10) ++ String (digit_char (n mod 10)) EmptyString)%string.
Proof.
  intros H. unfold decimal at 1. simpl.
  rewrite (proj2 (Z.ltb_ge n 10)) by lia.
  rewrite digits_fuel_acc. f_equal.
  assert (1 <= n / 10) by (apply Z.div_le_lower_bound; lia).
  assert (n / 10 < n) by (apply Z.div_lt; lia).
  pose proof (decimal_fuel_ok n ltac:(lia)) as F.
  rewrite Nat2Z.inj_succ, Z.pow_succ_r in F by lia.
  unfold decimal.
  destruct (Z.to_nat (Z.log2 n)) as [|k] eqn:K.
  - simpl in F. lia.
  - apply digits_fuel_enough; try lia.
    + split; [lia|]. apply Z.div_lt_upper_bound; lia.
    + apply decimal_fuel_ok. lia.
Qed.

Lemma decimal_length_pos n : (1 <= String.length (decimal n))%nat.
Proof.
  unfold decimal. simpl. destruct (n <? 10).
  - simpl. lia.
  - rewrite digits_fuel_acc. rewrite length_append. simpl. lia.
Qed.

Lemma substring_prefix a : forall b,
  substring 0 (String.length a) (a ++ b) = a.
Proof.
  induction a as [|c a IH]; intros b; simpl.
  - destruct b; reflexivity.
  - rewrite IH. reflexivity.
Qed.

Lemma substring_all b : substring 0 (String.length b) b = b.
Proof.
  induction b as [|c b IH]; simpl; [reflexivity | rewrite IH; reflexivity].
Qed.

Lemma substring_suffix a : forall b,
  substring (String.length a) (String.length b) (a ++ b) = b.
Proof.
  induction a as [|c a IH]; intros b; simpl.
  - apply substring_all.
  - apply IH.
Qed.

(** [toFixed(2)] places the point as the exact notation does. *)
Lemma place_point_two_decimals n :
  0 <= n -> place_point 2 (decimal n) = Spec.two_decimals n.
Proof.
  intros Hn. unfold Spec.two_decimals.
  destruct (Z_lt_ge_dec n 10) as [S1|S1].
  - rewrite (decimal_small n) by lia.
    rewrite (Z.div_small n 100), (Z.div_small n 10), (Z.mod_small n 10) by lia.
    reflexivity.
  - rewrite (decimal_step n) by lia.
    destruct (Z_lt_ge_dec n 100) as [S2|S2].
    + assert (0 <= n / 10 < 10).
      { split; [apply Z.div_pos; lia | apply Z.div_lt_upper_bound; lia]. }
      rewrite (decimal_small (n / 10)) by lia.
      rewrite (Z.div_small n 100) by lia.
      rewrite (Z.mod_small (n / 10) 10) by lia.
      reflexivity.
    + assert (10 <= n / 10) by (apply Z.div_le_lower_bound; lia).
      rewrite (decimal_step (n / 10)) by lia.
      rewrite Z.div_div by lia. change (10 * 10) with 100.
      set (a := decimal (n / 100)).
      set (d1 := digit_char ((n / 10) mod 10)).
      set (d0 := digit_char (n mod 10)).
      rewrite append_assoc. simpl (String d1 EmptyString ++ _)%string.
      pose proof (decimal_length_pos (n / 100)) as L. fold a in L.
      unfold place_point.
      rewrite length_append. simpl (String.length (String d1 _)).
      replace (String.length a + 2 <=? 2)%nat with false
        by (symmetry; apply Nat.leb_gt; lia).
      replace (String.length a + 2 - 2)%nat with (String.length a) by lia.
      rewrite substring_prefix.
      change 2%nat with (String.length (String d1 (String d0 EmptyString))) at 1.
      rewrite substring_suffix. reflexivity.
Qed.

(** Reading an amount of hundredths below [2^46] and printing it with
    [toFixed(2)] gives back its exact notation. *)
Lemma toFixed_fl_cents k :
  0 <= k < 100 * 2 ^ 46 -> toFixed 2 (fl k 100) = Spec.two_decimals k.
Proof.
  intros Hk.
  destruct (Z.eq_dec k 0) as [->|Hnz]; [vm_compute; reflexivity|].
  destruct (fl_nearest k 100 ltac:(lia) ltac:(lia) ltac:(lia))
    as (m & e & -> & He & Hm & Hn).
  unfold toFixed. simpl (false && _).
  destruct (val_nonpos m e He) as [-> ->].
  assert (P : 0 < 2 ^ (- e)) by (apply Z.pow_pos_nonneg; lia).
  assert (Big : 128 <= 2 ^ (- e)).
  { destruct (Z_le_gt_dec 7 (- e)) as [G|G].
    - change 128 with (2 ^ 7). apply Z.pow_le_mono_r; lia.
    - exfalso.
      assert (2 ^ (- e) <= 2 ^ 6) by (apply Z.pow_le_mono_r; lia).
      change (2 ^ 6) with 64 in *. change (2 ^ 52) with 4503599627370496 in *.
      change (2 ^ 46) with 70368744177664 in *. nia. }
  rewrite (proj2 (Z.leb_gt _ _)).
  2:{ change (2 ^ 53) with 9007199254740992 in *. nia. }
  change (10 ^ Z.of_nat 2) with 100.
  assert (N : round_half_up (100 * m) (2 ^ (- e)) = k).
  { unfold round_half_up. symmetry. apply Z.div_unique_pos with (r := 2 * (100 * m) + 2 ^ (- e) - k * (2 * 2 ^ (- e))); nia. }
  rewrite N. simpl (2 =? 0)%nat. cbv iota.
  rewrite place_point_two_decimals by lia. reflexivity.
Qed.


(** ** Integers held exactly *)



End JSFacts.

(** ** Tables *)

Section DbFacts.

Ltac ts_unfold :=
  unfold Spec.earlier, Spec.not_older, ts_ltb, ts_eqb in *; simpl in *;
  repeat match goal with
         | H : _ = false |- _ => apply not_true_iff_false in H
         | |- _ = false => apply not_true_iff_false
         end;
  rewrite ?orb_true_iff, ?andb_true_iff, ?Z.ltb_lt, ?Z.eqb_eq in *.

Lemma ts_eqb_eq a b : ts_eqb a b = true <-> a = b.
Proof.
  destruct a, b. split.
  - intros H. ts_unfold. f_equal; lia.
  - intros H. injection H as -> -> -> ->. ts_unfold. lia.
Qed.

Lemma ts_eqb_refl a : ts_eqb a a = true.
Proof. apply ts_eqb_eq. reflexivity. Qed.

Lemma ts_ltb_trans a b c : ts_ltb a b = true -> ts_ltb b c = true -> ts_ltb a c = true.
Proof. destruct a, b, c. intros H1 H2. ts_unfold. lia. Qed.

Lemma ts_ltb_asym a b : ts_ltb a b = true -> ts_ltb b a = false.
Proof. destruct a, b. intros H1. ts_unfold. lia. Qed.

Lemma ts_ltb_total a b :
  ts_ltb a b = false -> ts_eqb a b = false -> ts_ltb b a = true.
Proof. destruct a, b. intros H1 H2. ts_unfold. lia. Qed.

Lemma ts_gtb_geb_trans a b c :
  ts_ltb b a = true -> ts_ltb b c = false -> ts_ltb a c = false.
Proof. destruct a, b, c. intros H1 H2. ts_unfold. lia. Qed.

(** ** The months of a breakdown *)

Lemma In_insert_month m ms x :
  In x (insert_month m ms) <-> x = m \/ In x ms.
Proof.
  induction ms as [|y ms IH]; simpl.
  - intuition.
  - destruct (ts_ltb m y) eqn:L.
    + simpl. intuition.
    + destruct (ts_eqb m y) eqn:E.
      * apply ts_eqb_eq in E. subst y. simpl. intuition.
      * simpl. rewrite IH. intuition.
Qed.

Lemma insert_month_sorted m ms :
  StronglySorted Spec.earlier ms -> StronglySorted Spec.earlier (insert_month m ms).
Proof.
  induction 1 as [|y ms Hs IH Hy]; simpl.
  - constructor; constructor.
  - destruct (ts_ltb m y) eqn:L.
    + constructor; [constructor; assumption|].
      constructor; [exact L|].
      rewrite Forall_forall in *. intros z Hz.
      eapply ts_ltb_trans; [exact L | apply Hy, Hz].
    + destruct (ts_eqb m y) eqn:E.
      * constructor; assumption.
      * constructor; [exact IH|].
        rewrite Forall_forall in *. intros z Hz.
        apply In_insert_month in Hz. destruct Hz as [->|Hz].
        -- apply ts_ltb_total; [exact L | exact E].
        -- apply Hy, Hz.
Qed.

Lemma months_of_sorted cs : StronglySorted Spec.earlier (months_of cs).
Proof.
  unfold months_of. induction cs as [|c cs IH]; simpl.
  - constructor.
  - apply insert_month_sorted, IH.
Qed.

Lemma In_months_of cs m :
  In m (months_of cs) <->
  exists c, In c cs /\ date_trunc_month (clickedAt c) = m.
Proof.
  unfold months_of. induction cs as [|c cs IH]; simpl.
  - split; [intros [] | intros (c & [] & _)].
  - rewrite In_insert_month, IH. split.
    + intros [->|(x & Hx & E)]; [exists c; auto | exists x; auto].
    + intros (x & [->|Hx] & E); [left; auto | right; exists x; auto].
Qed.

(** A month of the breakdown selects the Clicks of its year and month. *)
Lemma in_month_trunc c c' :
  in_month (date_trunc_month (clickedAt c')) c =
  (year (clickedAt c) =? year (clickedAt c')) && (month (clickedAt c) =? month (clickedAt c')).
Proof.
  unfold in_month, ts_eqb, date_trunc_month. simpl.
  rewrite !andb_true_r. reflexivity.
Qed.

(** ** Links by creation time *)

Lemma In_insert_desc l s x : In x (insert_desc l s) <-> x = l \/ In x s.
Proof.
  induction s as [|y s IH]; simpl.
  - intuition.
  - destruct (ts_ltb (createdAt l) (createdAt y)); simpl; [rewrite IH|]; intuition.
Qed.

Lemma insert_desc_perm l s : Permutation (l :: s) (insert_desc l s).
Proof.
  induction s as [|y s IH]; simpl.
  - apply Permutation_refl.
  - destruct (ts_ltb (createdAt l) (createdAt y)).
    + eapply perm_trans; [apply perm_swap|]. apply perm_skip, IH.
    + apply Permutation_refl.
Qed.

Lemma ts_geb_trans a b c :
  ts_ltb a b = false -> ts_ltb b c = false -> ts_ltb a c = false.
Proof. destruct a, b, c. intros H1 H2. ts_unfold. lia. Qed.

Lemma insert_desc_sorted l s :
  StronglySorted Spec.not_older s -> StronglySorted Spec.not_older (insert_desc l s).
Proof.
  induction 1 as [|y s Hs IH Hy]; simpl.
  - constructor; constructor.
  - destruct (ts_ltb (createdAt l) (createdAt y)) eqn:L.
    + constructor; [exact IH|].
      rewrite Forall_forall in *. intros z Hz.
      apply In_insert_desc in Hz. destruct Hz as [->|Hz]; [|apply Hy, Hz].
      apply ts_ltb_asym, L.
    + constructor; [constructor; assumption|].
      constructor; [exact L|].
      rewrite Forall_forall in *. intros z Hz.
      eapply ts_geb_trans; [exact L | apply Hy, Hz].
Qed.

Lemma order_by_createdAt_desc_sorted ls :
  StronglySorted Spec.not_older (order_by_createdAt_desc ls).
Proof.
  unfold order_by_createdAt_desc. induction ls as [|l ls IH]; simpl.
  - constructor.
  - apply insert_desc_sorted, IH.
Qed.

Lemma order_by_createdAt_desc_perm ls :
  Permutation ls (order_by_createdAt_desc ls).
Proof.
  unfold order_by_createdAt_desc. induction ls as [|l ls IH]; simpl.
  - constructor.
  - eapply perm_trans; [apply perm_skip, IH | apply insert_desc_perm].
Qed.

Lemma order_by_createdAt_desc_length ls :
  List.length (order_by_createdAt_desc ls) = List.length ls.
Proof. symmetry. apply Permutation_length, order_by_createdAt_desc_perm. Qed.


Lemma In_firstn {A} n : forall (l : list A) x, In x (firstn n l) -> In x l.
Proof.
  induction n as [|n IH]; intros [|y l] x H; simpl in *; try contradiction.
  destruct H as [->|H]; [left; reflexivity | right; apply IH, H].
Qed.



(** ** Lookups and inserts *)

Lemma find_app {A} (f : A -> bool) l l' :
  find f (l ++ l') = match find f l with Some x => Some x | None => find f l' end.
Proof.
  induction l as [|x l IH]; simpl; [reflexivity|].
  destruct (f x); [reflexivity | exact IH].
Qed.

Lemma find_none_notin {A B} (key : A -> B) (eqb : B -> B -> bool)
    (eqb_refl : forall b, eqb b b = true) (l : list A) (k : B) :
  find (fun x => eqb (key x) k) l = None -> ~ In k (map key l).
Proof.
  intros H Hin. apply in_map_iff in Hin. destruct Hin as (x & E & Hx).
  pose proof (find_none _ _ H x Hx) as F. simpl in F.
  rewrite E, eqb_refl in F. discriminate.
Qed.

Lemma find_by_targetUrl_some ls url l :
  find_by_targetUrl ls url = Some l -> In l ls /\ targetUrl l = url.
Proof.
  intros H. apply find_some in H. destruct H as [H E].
  apply String.eqb_eq in E. auto.
Qed.

Lemma find_by_shortCode_some ls code l :
  find_by_shortCode ls code = Some l -> In l ls /\ shortCode l = code.
Proof.
  intros H. apply find_some in H. destruct H as [H E].
  apply String.eqb_eq in E. auto.
Qed.

Lemma find_by_id_in ls l : In l ls -> find_by_id ls (id l) <> None.
Proof.
  intros H N. pose proof (find_none _ _ N l H) as F. simpl in F.
  rewrite Z.eqb_refl in F. discriminate.
Qed.

(** Rows are only ever appended to [links]. *)

Lemma grows_refl ls : grows ls ls.
Proof. exists []. symmetry. apply app_nil_r. Qed.

Lemma grows_trans a b c : grows a b -> grows b c -> grows a c.
Proof.
  intros [x ->] [y ->]. exists (x ++ y). rewrite app_assoc. reflexivity.
Qed.

Lemma grows_find_targetUrl ls ls' url l :
  grows ls ls' -> find_by_targetUrl ls url = Some l -> find_by_targetUrl ls' url = Some l.
Proof.
  intros [x ->] H. unfold find_by_targetUrl in *. rewrite find_app, H. reflexivity.
Qed.

Lemma grows_in ls ls' l : grows ls ls' -> In l ls -> In l ls'.
Proof. intros [x ->] H. apply in_or_app. left. exact H. Qed.

Lemma insert_link_grows st code url now :
  grows (links st) (links (snd (insert_link st code url now))).
Proof.
  unfold insert_link.
  destruct (find_by_shortCode (links st) code); [apply grows_refl|].
  destruct (find_by_targetUrl (links st) url); [apply grows_refl|].
  simpl. eexists. reflexivity.
Qed.

Lemma insert_link_clicks st code url now :
  clicks (snd (insert_link st code url now)) = clicks st.
Proof.
  unfold insert_link.
  destruct (find_by_shortCode (links st) code); [reflexivity|].
  destruct (find_by_targetUrl (links st) url); reflexivity.
Qed.

Lemma insert_link_unique st code url now :
  Spec.unique_links (links st) ->
  Spec.unique_links (links (snd (insert_link st code url now))).
Proof.
  intros [U1 U2]. unfold insert_link.
  destruct (find_by_shortCode (links st) code) eqn:F1; [split; assumption|].
  destruct (find_by_targetUrl (links st) url) eqn:F2; [split; assumption|].
  simpl. unfold Spec.unique_links. rewrite !map_app. simpl.
  split; apply NoDup_app; try assumption; try (constructor; [intros []|constructor]).
  - intros x Hx [<-|[]].
    revert Hx. apply (find_none_notin targetUrl String.eqb String.eqb_refl), F2.
  - intros x Hx [<-|[]].
    revert Hx. apply (find_none_notin shortCode String.eqb String.eqb_refl), F1.
Qed.

(** The three ways an insert into [links] ends. *)
Lemma insert_link_cases st code url now :
  (exists l, find_by_shortCode (links st) code = Some l /\
             fst (insert_link st code url now) = inl (Unique ["short_code"%string])) \/
  (find_by_shortCode (links st) code = None /\
   exists l, find_by_targetUrl (links st) url = Some l /\
             fst (insert_link st code url now) = inl (Unique ["target_url"%string])) \/
  (find_by_shortCode (links st) code = None /\
   find_by_targetUrl (links st) url = None /\
   exists l, fst (insert_link st code url now) = inr l /\
             shortCode l = code /\ targetUrl l = url /\
             links (snd (insert_link st code url now)) = links st ++ [l]).
Proof.
  unfold insert_link.
  destruct (find_by_shortCode (links st) code) eqn:F1.
  - left. eexists. split; reflexivity.
  - destruct (find_by_targetUrl (links st) url) eqn:F2.
    + right; left. split; [reflexivity|]. eexists. split; reflexivity.
    + right; right. split; [reflexivity|]. split; [reflexivity|].
      eexists. simpl. repeat split.
Qed.

(** ** Sums of credits *)

Lemma sum_credit_canonical g :
  (forall c, In c g -> earnedCredit c = if isValid c then 5 else 0) ->
  0 <= sum_credit g <= 5 * Z.of_nat (List.length g).
Proof.
  unfold sum_credit. induction g as [|c g IH]; intros H.
  - simpl. lia.
  - cbn [fold_right List.length]. rewrite Nat2Z.inj_succ.
    specialize (IH (fun x Hx => H x (or_intror Hx))).
    pose proof (H c (or_introl eq_refl)) as Hc.
    destruct (isValid c); lia.
Qed.

End DbFacts.

(** ** Interpreters and other writers *)

Section EffFacts.

Lemma interp_bind {S R T} (h : handler S) (p : prog R) (f : R -> prog T) : forall s,
  interp h (bind p f) s =
  let '(r, s1, tr1) := interp h p s in
  match r with
  | Ok a => let '(r2, s2, tr2) := interp h (f a) s1 in (r2, s2, tr1 ++ tr2)
  | Err e => (Err e, s1, tr1)
  end.
Proof.
  induction p as [r|e|A c k IH]; intros s; simpl.
  - destruct (interp h (f r) s) as [[r2 s2] tr2]. reflexivity.
  - reflexivity.
  - destruct (h A c s) as [o s1]. rewrite IH.
    destruct (interp h (k o) s1) as [[r s2] tr]. destruct r as [a|e].
    + destruct (interp h (f a) s2) as [[r2 s3] tr2]. reflexivity.
    + reflexivity.
Qed.

Lemma interp_try_catch {S R} (h : handler S) (p : prog R) (c : error -> prog R) : forall s,
  interp h (try_catch p c) s =
  let '(r, s1, tr1) := interp h p s in
  match r with
  | Ok a => (Ok a, s1, tr1)
  | Err e => let '(r2, s2, tr2) := interp h (c e) s1 in (r2, s2, tr1 ++ tr2)
  end.
Proof.
  induction p as [r|e|A c0 k IH]; intros s; simpl.
  - reflexivity.
  - destruct (interp h (c e) s) as [[r2 s2] tr2]. reflexivity.
  - destruct (h A c0 s) as [o s1]. rewrite IH.
    destruct (interp h (k o) s1) as [[r s2] tr]. destruct r as [a|e].
    + reflexivity.
    + destruct (interp h (c e) s2) as [[r2 s3] tr2]. reflexivity.
Qed.

Lemma responses_app a b : responses (a ++ b) = responses a ++ responses b.
Proof.
  induction a as [|[A c o] a IH]; simpl; [reflexivity|].
  destruct c; simpl; rewrite ?IH; reflexivity.
Qed.

(** ** Other writers *)

Lemma intrude_grows orc n st : grows (links st) (links (intrude orc n st)).
Proof.
  unfold intrude. generalize (intruders orc n) as l. intros l. revert st.
  induction l as [|[c u] l IH]; intros st; simpl.
  - apply grows_refl.
  - eapply grows_trans; [apply insert_link_grows | apply IH].
Qed.

Lemma intrude_clicks orc n st : clicks (intrude orc n st) = clicks st.
Proof.
  unfold intrude. generalize (intruders orc n) as l. intros l. revert st.
  induction l as [|[c u] l IH]; intros st; simpl.
  - reflexivity.
  - rewrite IH. apply insert_link_clicks.
Qed.

Lemma intrude_unique orc n st :
  Spec.unique_links (links st) -> Spec.unique_links (links (intrude orc n st)).
Proof.
  unfold intrude. generalize (intruders orc n) as l. intros l. revert st.
  induction l as [|[c u] l IH]; intros st H; simpl.
  - exact H.
  - apply IH, insert_link_unique, H.
Qed.

Lemma intrude_quiet orc n st : quiet orc -> intrude orc n st = st.
Proof. intros Q. unfold intrude. rewrite Q. reflexivity. Qed.

End EffFacts.

(** ** The service on the store *)

Section ServiceFacts.

(** How the loop of [createLink] ends on the store, whatever the other
    writers do: collisions, then a created Link, or the Link a
    concurrent writer created, or the error of the last collision. *)
Lemma grows_find_targetUrl_none ls ls' url :
  grows ls ls' -> find_by_targetUrl ls' url = None -> find_by_targetUrl ls url = None.
Proof.
  intros [x ->] H. unfold find_by_targetUrl in *. rewrite find_app in H.
  destruct (find _ ls); [discriminate | reflexivity].
Qed.

Lemma attempts_world url orc : forall n attempt w res w' tr,
  attempt + Z.of_nat n = Service.maxRetries ->
  run orc (Service.createLink_attempts n attempt url) w = (res, w', tr) ->
  grows (links (store w)) (links (store w')) /\
  clicks (store w') = clicks (store w) /\
  (unique_links (links (store w)) -> unique_links (links (store w'))) /\
  exists colls,
    Forall (collided url) colls /\ (List.length colls <= n)%nat /\
    ((exists l, link_inserts tr = colls ++ [(shortCode l, url, Ok l)] /\
                res = Ok {| Service.shortCode := shortCode l;
                            Service.targetUrl := url; Service.isNew := true |} /\
                find_by_targetUrl (links (store w)) url = None /\
                find_by_targetUrl (links (store w')) url = Some l) \/
     (exists code l, link_inserts tr = colls ++ [(code, url, Err target_url_conflict)] /\
                res = Ok {| Service.shortCode := shortCode l;
                            Service.targetUrl := url; Service.isNew := false |} /\
                find_by_targetUrl (links (store w')) url = Some l) \/
     (exists e, link_inserts tr = colls /\ res = Err e /\
                List.length colls = n /\ (n <> O -> e = short_code_conflict))).
Proof.
  induction n as [|n IH]; intros attempt w res w' tr Hn H.
  - simpl in H. injection H as <- <- <-.
    split; [apply grows_refl|]. split; [reflexivity|]. split; [auto|].
    exists []. split; [constructor|]. split; [simpl; lia|].
    right; right. eexists. repeat split. intros; congruence.
  - unfold run in H. cbn [Service.createLink_attempts] in H.
    rewrite interp_try_catch in H.
    cbn -[insert_link intrude find_by_targetUrl Service.createLink_attempts] in H.
    unfold query in H. cbn -[insert_link intrude find_by_targetUrl Service.createLink_attempts] in H.
    set (st0 := intrude orc (queries w) (store w)) in *.
    pose proof (intrude_grows orc (queries w) (store w)) as G0.
    pose proof (intrude_clicks orc (queries w) (store w)) as C0.
    pose proof (intrude_unique orc (queries w) (store w)) as U0.
    fold st0 in G0, C0, U0.
    pose proof (insert_link_grows st0 (gen_code orc (codes_drawn w)) url (clock orc (queries w))) as G1.
    pose proof (insert_link_clicks st0 (gen_code orc (codes_drawn w)) url (clock orc (queries w))) as C1.
    pose proof (insert_link_unique st0 (gen_code orc (codes_drawn w)) url (clock orc (queries w))) as U1.
    pose proof (insert_link_cases st0 (gen_code orc (codes_drawn w)) url (clock orc (queries w))) as Cs.
    destruct (insert_link st0 (gen_code orc (codes_drawn w)) url (clock orc (queries w))) as [r st1] eqn:E.
    cbn [fst snd] in *.
    destruct Cs as [(l & F1 & ->) | [(F1 & l & F2 & ->) | (F1 & F2 & l & -> & Hc & Hu & Hl)]].
    + (* the code is taken *)
      cbn -[intrude find_by_targetUrl Service.createLink_attempts] in H.
      destruct (attempt =? 2) eqn:A2.
      * cbn in H. injection H as <- <- <-. cbn [store].
        split; [eapply grows_trans; eassumption|].
        split; [congruence|]. split; [auto|].
        exists [(gen_code orc (codes_drawn w), url, Err short_code_conflict)].
        split; [constructor; [eexists; reflexivity | constructor]|].
        split; [simpl; lia|].
        right; right. exists short_code_conflict.
        apply Z.eqb_eq in A2. unfold Service.maxRetries in Hn.
        repeat split. simpl. lia.
      * apply Z.eqb_neq in A2. unfold Service.maxRetries in Hn.
        destruct (interp (world_handler orc) (Service.createLink_attempts n (attempt + 1) url) _)
          as [[r2 w2] tr2] eqn:R.
        injection H as <- <- <-.
        apply IH in R; [|unfold Service.maxRetries; lia]. cbn [store] in R.
        destruct R as (G2 & C2 & U2 & colls & Fc & Lc & Hcases).
        split; [eapply grows_trans; [eassumption|]; eapply grows_trans; eassumption|].
        split; [congruence|]. split; [auto|].
        exists ((gen_code orc (codes_drawn w), url, Err short_code_conflict) :: colls).
        split; [constructor; [eexists; reflexivity | assumption]|].
        split; [simpl; lia|].
        cbn [link_inserts app].
        destruct Hcases as [(l' & I & Rs & Fn & Fs) | [(code & l' & I & Rs & Fs) | (e & I & Rs & Ne & Nn)]].
        -- left. exists l'. rewrite I. repeat split; try assumption.
           eapply grows_find_targetUrl_none; [|exact Fn].
           eapply grows_trans; eassumption.
        -- right; left. exists code, l'. rewrite I. auto.
        -- right; right. exists e. rewrite I. repeat split; try assumption.
           ++ simpl. lia.
           ++ intros _. apply Nn. lia.
    + (* a concurrent writer has created the target *)
      cbn -[intrude find_by_targetUrl Service.createLink_attempts] in H.
      unfold read, query in H.
      cbn -[intrude find_by_targetUrl Service.createLink_attempts] in H.
      pose proof (intrude_grows orc (S (queries w)) st1) as G2.
      pose proof (intrude_clicks orc (S (queries w)) st1) as C2.
      pose proof (intrude_unique orc (S (queries w)) st1) as U2.
      assert (F3 : find_by_targetUrl (links (intrude orc (S (queries w)) st1)) url = Some l).
      { eapply grows_find_targetUrl; [|exact F2]. eapply grows_trans; eassumption. }
      rewrite F3 in H. cbn in H. injection H as <- <- <-. cbn [store].
      split; [eapply grows_trans; [eassumption|]; eapply grows_trans; eassumption|].
      split; [congruence|]. split; [auto|].
      exists []. split; [constructor|]. split; [simpl; lia|].
      right; left. exists (gen_code orc (codes_drawn w)), l.
      apply find_by_targetUrl_some in F2. destruct F2 as [_ ->].
      repeat split. exact F3.
    + (* the Link is created *)
      cbn -[intrude find_by_targetUrl Service.createLink_attempts] in H.
      injection H as <- <- <-. cbn [store].
      split; [eapply grows_trans; eassumption|].
      split; [congruence|]. split; [auto|].
      exists []. split; [constructor|]. split; [simpl; lia|].
      left. exists l. rewrite Hc, Hu. repeat split.
      * eapply grows_find_targetUrl_none; eassumption.
      * rewrite Hl. unfold find_by_targetUrl in *. rewrite find_app, F2. simpl.
        rewrite Hu, String.eqb_refl. reflexivity.
Qed.

(** [createLink] on the store: the Link that is there, or the loop. *)
Lemma createLink_world url orc w res w' tr :
  run orc (Service.createLink url) w = (res, w', tr) ->
  grows (links (store w)) (links (store w')) /\
  clicks (store w') = clicks (store w) /\
  (unique_links (links (store w)) -> unique_links (links (store w'))) /\
  ((exists l, find_by_targetUrl (links (store w')) url = Some l /\
              res = Ok {| Service.shortCode := shortCode l;
                          Service.targetUrl := url; Service.isNew := false |} /\
              link_inserts tr = []) \/
   (exists colls,
      Forall (collided url) colls /\ (List.length colls <= 3)%nat /\
      ((exists l, link_inserts tr = colls ++ [(shortCode l, url, Ok l)] /\
                  res = Ok {| Service.shortCode := shortCode l;
                              Service.targetUrl := url; Service.isNew := true |} /\
                  find_by_targetUrl (links (store w')) url = Some l) \/
       (exists code l, link_inserts tr = colls ++ [(code, url, Err target_url_conflict)] /\
                  res = Ok {| Service.shortCode := shortCode l;
                              Service.targetUrl := url; Service.isNew := false |} /\
                  find_by_targetUrl (links (store w')) url = Some l) \/
       (link_inserts tr = colls /\ res = Err short_code_conflict /\
        List.length colls = 3%nat)))).
Proof.
  intros H. unfold run, Service.createLink in H.
  cbn -[intrude find_by_targetUrl Service.createLink_attempts Z.to_nat] in H.
  unfold read, query in H.
  cbn -[intrude find_by_targetUrl Service.createLink_attempts Z.to_nat] in H.
  pose proof (intrude_grows orc (queries w) (store w)) as G0.
  pose proof (intrude_clicks orc (queries w) (store w)) as C0.
  pose proof (intrude_unique orc (queries w) (store w)) as U0.
  destruct (find_by_targetUrl (links (intrude orc (queries w) (store w))) url) as [l|] eqn:F.
  - cbn in H. injection H as <- <- <-. cbn [store].
    split; [assumption|]. split; [assumption|]. split; [assumption|].
    left. exists l. pose proof (find_by_targetUrl_some _ _ _ F) as [_ E].
    rewrite E. auto.
  - cbn -[intrude find_by_targetUrl Service.createLink_attempts Z.to_nat] in H.
    destruct (interp (world_handler orc) (Service.createLink_attempts _ 0 url) _)
      as [[r2 w2] tr2] eqn:R.
    injection H as <- <- <-.
    apply (attempts_world url orc 3 0) in R; [|reflexivity]. cbn [store] in R.
    destruct R as (G & C & U & colls & Fc & Lc & Hcases).
    split; [eapply grows_trans; eassumption|].
    split; [congruence|]. split; [auto|].
    right. exists colls. split; [assumption|]. split; [assumption|].
    cbn [link_inserts].
    destruct Hcases as [(l' & I & Rs & _ & Fs) | [(code & l' & I & Rs & Fs) | (e & I & Rs & Ne & Nn)]].
    + left. eauto.
    + right; left. eauto.
    + right; right. rewrite (Nn ltac:(discriminate)) in Rs. auto.
Qed.


Lemma attempts_bound {S} (h : handler S) url : forall n attempt s,
  le (List.length (link_inserts (snd (interp h (Service.createLink_attempts n attempt url) s)))) n.
Proof.
  induction n as [|n IH]; intros attempt s.
  - simpl. lia.
  - cbn [Service.createLink_attempts]. rewrite interp_try_catch.
    assert (Coll : forall e s',
      le (List.length (link_inserts (snd (interp h
            (bind (say (ShortCodeCollision (attempt + 1) Service.maxRetries))
               (fun _ => if attempt =? Service.maxRetries - 1 then Throw e
                         else Service.createLink_attempts n (attempt + 1) url)) s')))) n).
    { intros e s'. cbn -[Service.createLink_attempts].
      destruct (h unit (logger _) s') as [o s3].
      destruct (attempt =? 2).
      - cbn. lia.
      - specialize (IH (attempt + 1) s3).
        destruct (interp h (Service.createLink_attempts n (attempt + 1) url) s3) as [[r s4] tr4].
        cbn in *. lia. }
    assert (Catch : forall e s',
      le (List.length (link_inserts (snd (interp h
         (if Service.is_P2002 e
          then
            if Service.target_includes e "target_url"
            then
              bind (await (link_findUnique_targetUrl url))
                (fun existing =>
                   match existing with
                   | Some existing =>
                       bind (say (ExistingLinkFoundRace url (shortCode existing)))
                         (fun _ => Ret {| Service.shortCode := shortCode existing;
                                          Service.targetUrl := targetUrl existing;
                                          Service.isNew := false |})
                   | None =>
                       bind (say (ShortCodeCollision (attempt + 1) Service.maxRetries))
                         (fun _ => if attempt =? Service.maxRetries - 1 then Throw e
                                   else Service.createLink_attempts n (attempt + 1) url)
                   end)
            else
              bind (say (ShortCodeCollision (attempt + 1) Service.maxRetries))
                (fun _ => if attempt =? Service.maxRetries - 1 then Throw e
                          else Service.createLink_attempts n (attempt + 1) url)
          else Throw e) s')))) n).
    { intros e s'. destruct (Service.is_P2002 e); [|cbn; lia].
      destruct (Service.target_includes e "target_url"); [|apply Coll].
      rewrite interp_bind. cbn -[Service.createLink_attempts bind say].
      destruct (h (option Link) (link_findUnique_targetUrl url) s') as [[[ex|]|e2] s3];
        cbn -[Service.createLink_attempts bind say].
      - cbn. destruct (h unit (logger _) s3) as [o s4]. cbn. lia.
      - specialize (Coll e s3).
        destruct (interp h _ s3) as [[r s4] tr4]. cbn in *. lia.
      - cbn. lia. }
    cbn -[Service.createLink_attempts] in *.
    destruct (h string (nanoid 8) s) as [[code|e] s1];
      cbn -[Service.createLink_attempts].
    + destruct (h Link (link_create code url) s1) as [[link|e] s2];
        cbn -[Service.createLink_attempts].
      * destruct (h unit (logger _) s2) as [o s3]. cbn. lia.
      * specialize (Catch e s2).
        destruct (interp h _ s2) as [[r s4] tr4]. cbn in *. lia.
    + specialize (Catch e s1).
      destruct (interp h _ s1) as [[r s4] tr4]. cbn in *. lia.
Qed.

Lemma insert_link_taken st code url now l :
  find_by_shortCode (links st) code = Some l ->
  insert_link st code url now =
  (inl (Unique ["short_code"%string]),
   {| links := links st; clicks := clicks st;
      links_id_seq := links_id_seq st + 1; clicks_id_seq := clicks_id_seq st |}).
Proof. intros H. unfold insert_link. rewrite H. reflexivity. Qed.

Lemma insert_link_free st code url now :
  find_by_shortCode (links st) code = None ->
  find_by_targetUrl (links st) url = None ->
  insert_link st code url now =
  (inr {| id := links_id_seq st + 1; shortCode := code; targetUrl := url; createdAt := now |},
   {| links := links st ++ [{| id := links_id_seq st + 1; shortCode := code;
                               targetUrl := url; createdAt := now |}];
      clicks := clicks st;
      links_id_seq := links_id_seq st + 1; clicks_id_seq := clicks_id_seq st |}).
Proof. intros H1 H2. unfold insert_link. rewrite H1, H2. reflexivity. Qed.

Lemma createLink_two_collisions orc w url l1 l2 :
  quiet orc ->
  find_by_targetUrl (links (store w)) url = None ->
  find_by_shortCode (links (store w)) (gen_code orc (codes_drawn w)) = Some l1 ->
  find_by_shortCode (links (store w)) (gen_code orc (S (codes_drawn w))) = Some l2 ->
  find_by_shortCode (links (store w)) (gen_code orc (S (S (codes_drawn w)))) = None ->
  exists w' tr l,
    run orc (Service.createLink url) w =
      (Ok {| Service.shortCode := gen_code orc (S (S (codes_drawn w)));
             Service.targetUrl := url; Service.isNew := true |}, w', tr) /\
    link_inserts tr =
      [(gen_code orc (codes_drawn w), url, Err short_code_conflict);
       (gen_code orc (S (codes_drawn w)), url, Err short_code_conflict);
       (gen_code orc (S (S (codes_drawn w))), url, Ok l)] /\
    links (store w') = links (store w) ++ [l] /\
    shortCode l = gen_code orc (S (S (codes_drawn w))) /\ targetUrl l = url.
Proof.
  intros Q Fu F1 F2 F3. unfold run, Service.createLink.
  eval_run. rewrite (intrude_quiet _ _ _ Q), Fu.
  change (Z.to_nat Service.maxRetries) with 3%nat.
  cbn [Service.createLink_attempts].
  eval_run. rewrite (intrude_quiet _ _ _ Q).
  rewrite (insert_link_taken _ _ _ _ _ F1).
  eval_run. rewrite (intrude_quiet _ _ _ Q).
  rewrite (insert_link_taken _ _ _ _ l2) by exact F2.
  eval_run. rewrite (intrude_quiet _ _ _ Q).
  rewrite insert_link_free by assumption.
  eval_run.
  eexists _, _, _. split; [reflexivity|]. cbn. repeat split.
Qed.

Lemma createLink_three_collisions orc w url l1 l2 l3 :
  quiet orc ->
  find_by_targetUrl (links (store w)) url = None ->
  find_by_shortCode (links (store w)) (gen_code orc (codes_drawn w)) = Some l1 ->
  find_by_shortCode (links (store w)) (gen_code orc (S (codes_drawn w))) = Some l2 ->
  find_by_shortCode (links (store w)) (gen_code orc (S (S (codes_drawn w)))) = Some l3 ->
  exists w' tr,
    run orc (Service.createLink url) w = (Err short_code_conflict, w', tr) /\
    link_inserts tr =
      [(gen_code orc (codes_drawn w), url, Err short_code_conflict);
       (gen_code orc (S (codes_drawn w)), url, Err short_code_conflict);
       (gen_code orc (S (S (codes_drawn w))), url, Err short_code_conflict)] /\
    links (store w') = links (store w).
Proof.
  intros Q Fu F1 F2 F3. unfold run, Service.createLink.
  eval_run. rewrite (intrude_quiet _ _ _ Q), Fu.
  change (Z.to_nat Service.maxRetries) with 3%nat.
  cbn [Service.createLink_attempts].
  eval_run. rewrite (intrude_quiet _ _ _ Q).
  rewrite (insert_link_taken _ _ _ _ _ F1).
  eval_run. rewrite (intrude_quiet _ _ _ Q).
  rewrite (insert_link_taken _ _ _ _ l2) by exact F2.
  eval_run. rewrite (intrude_quiet _ _ _ Q).
  rewrite (insert_link_taken _ _ _ _ l3) by exact F3.
  eval_run.
  eexists _, _. split; [reflexivity|]. cbn. repeat split.
Qed.

Lemma recordClick_world_found orc w code l :
  find_by_shortCode (links (intrude orc (queries w) (store w))) code = Some l ->
  exists w' tr c,
    run orc (Service.recordClick code) w = (Ok tt, w', tr) /\
    clicks (store w') = clicks (store w) ++ [c] /\
    grows (links (store w)) (links (store w')) /\
    linkId c = id l /\
    isValid c = verdict orc (validations w) /\
    earnedCredit c = (if isValid c then Service.Decimal_0_05 else Service.Decimal_0_00) /\
    click_inserts tr = [(linkId c, isValid c, earnedCredit c)] /\
    count is_fraud_validate tr = 1%nat.
Proof.
  intros F. unfold run, Service.recordClick. eval_run. rewrite F. eval_run.
  set (st1 := intrude orc (queries w) (store w)) in *.
  set (st2 := intrude orc (S (queries w)) st1).
  pose proof (intrude_grows orc (queries w) (store w)) as G1. fold st1 in G1.
  pose proof (intrude_grows orc (S (queries w)) st1) as G2. fold st2 in G2.
  pose proof (intrude_clicks orc (queries w) (store w)) as C1. fold st1 in C1.
  pose proof (intrude_clicks orc (S (queries w)) st1) as C2. fold st2 in C2.
  assert (Hin : In l (links st2)).
  { eapply grows_in; [exact G2|]. apply find_by_shortCode_some in F. apply F. }
  pose proof (find_by_id_in _ _ Hin) as Fid.
  unfold insert_click.
  destruct (find_by_id (links st2) (id l)) as [l'|]; [|congruence].
  eval_run.
  eexists _, _, _. split; [reflexivity|]. cbn.
  split; [rewrite C2, C1; reflexivity|].
  split; [eapply grows_trans; eassumption|].
  repeat split.
Qed.

Lemma recordClick_world_absent orc w code :
  find_by_shortCode (links (intrude orc (queries w) (store w))) code = None ->
  exists w' tr,
    run orc (Service.recordClick code) w = (Ok tt, w', tr) /\
    store w' = intrude orc (queries w) (store w) /\
    clicks (store w') = clicks (store w) /\
    count is_fraud_validate tr = 0%nat /\ click_inserts tr = [].
Proof.
  intros F. unfold run, Service.recordClick. eval_run. rewrite F. eval_run.
  eexists _, _. split; [reflexivity|]. cbn.
  repeat split. apply intrude_clicks.
Qed.

Lemma recordClick_no_response {S} (h : handler S) s code :
  responses (snd (interp h (Service.recordClick code) s)) = [].
Proof.
  unfold Service.recordClick. cbn.
  destruct (h (option Link) (link_findUnique_shortCode code) s) as [[[l|]|e] s1]; cbn.
  - destruct (h bool fraud_validate s1) as [[v|e] s2]; cbn; [|reflexivity].
    destruct (h Click (click_create _ _ _) s2) as [[c|e] s3]; cbn; [|reflexivity].
    destruct (h unit (logger _) s3) as [o s4]. reflexivity.
  - destruct (h unit (logger _) s1) as [o s2]. reflexivity.
  - reflexivity.
Qed.

Lemma record_and_log_spec {S} (h : handler S) s code :
  interp h (Controller.record_and_log code) s =
  let '(r, s1, tr1) := interp h (Service.recordClick code) s in
  match r with
  | Ok _ => (Ok tt, s1, tr1)
  | Err e =>
      let '(o, s2) := h _ (logger (FailedToRecordClick code e)) s1 in
      (Ok tt, s2, tr1 ++ [Ev (logger (FailedToRecordClick code e)) o])
  end.
Proof.
  unfold Controller.record_and_log. rewrite interp_try_catch.
  destruct (interp h (Service.recordClick code) s) as [[[[]|e] s1] tr1]; [reflexivity|].
  cbn. destruct (h unit (logger _) s1) as [o s2]. reflexivity.
Qed.

Lemma NoDup_map_inj {A B} (f : A -> B) (l : list A) a b :
  NoDup (map f l) -> In a l -> In b l -> f a = f b -> a = b.
Proof.
  induction l as [|x l IH]; intros N Ha Hb E; [destruct Ha|].
  inversion N as [|? ? Nx N']; subst.
  destruct Ha as [->|Ha], Hb as [->|Hb].
  - reflexivity.
  - exfalso. apply Nx. rewrite E. apply in_map, Hb.
  - exfalso. apply Nx. rewrite <- E. apply in_map, Ha.
  - apply IH; assumption.
Qed.

End ServiceFacts.

(** ** Statistics *)

Section StatsFacts.

Lemma with_sign_fl p q : JS.with_sign false (JS.fl p q) = JS.fl p q.
Proof.
  unfold JS.fl. destruct (p =? 0); [reflexivity|].
  destruct (971 <? _); reflexivity.
Qed.

(** An amount the table can hold, read as a number and printed with
    [toFixed(2)], is printed exactly. *)
Lemma money_exact s :
  0 <= s < 100 * 2 ^ 46 ->
  JS.toFixed 2 (Service.Number_of_Decimal s) = two_decimals s /\
  JS.toFixed 2 (JS.or_zero (Service.Number_of_Decimal s)) = two_decimals s.
Proof.
  intros Hs. unfold Service.Number_of_Decimal.
  rewrite (proj2 (Z.ltb_ge s 0)) by lia. rewrite Z.abs_eq by lia.
  rewrite with_sign_fl. split; [apply toFixed_fl_cents, Hs|].
  destruct (Z.eq_dec s 0) as [->|Hnz]; [vm_compute; reflexivity|].
  destruct (fl_nearest s 100 ltac:(lia) ltac:(lia) ltac:(lia))
    as (m & e & E & He & Hm & Hn).
  rewrite <- (toFixed_fl_cents s Hs). rewrite E.
  destruct m as [|m|m]; [|reflexivity|reflexivity].
  change (2 ^ 52) with 4503599627370496 in Hm. lia.
Qed.

Lemma sum_credit_bound g cs :
  credits_canonical cs -> within_serial cs ->
  incl g cs -> (List.length g <= List.length cs)%nat ->
  0 <= sum_credit g < 100 * 2 ^ 46.
Proof.
  intros Hc Hs Hi Hl.
  pose proof (sum_credit_canonical g (fun c Hin => Hc c (Hi c Hin))) as B.
  unfold within_serial, SERIAL_max in Hs.
  change (2 ^ 46) with 70368744177664. lia.
Qed.

Lemma clicks_of_incl cs lid : incl (clicks_of cs lid) cs.
Proof. intros c H. apply filter_In in H. apply H. Qed.

Lemma clicks_of_length cs lid : (List.length (clicks_of cs lid) <= List.length cs)%nat.
Proof. apply filter_length_le. Qed.

Lemma total_earnings_exact cs l monthlyRaw :
  credits_canonical cs -> within_serial cs ->
  Dto.totalEarnings (Service.stats_item l (aggregate_clicks cs (id l)) monthlyRaw) =
  two_decimals (exact_total cs (id l)).
Proof.
  intros Hc Hs. unfold Service.stats_item, aggregate_clicks, exact_total. cbn.
  pose proof (sum_credit_bound (clicks_of cs (id l)) cs Hc Hs
                (clicks_of_incl _ _) (clicks_of_length _ _)) as B.
  destruct (clicks_of cs (id l)) as [|c g] eqn:E.
  - vm_compute. reflexivity.
  - cbn [Service.Number_of_nullable]. apply money_exact, B.
Qed.

(** ** Labels *)

Lemma decimal_two_digits n :
  0 <= n < 100 ->
  JS.padStart0 2 (JS.decimal n) =
  String (JS.digit_char (n / 10)) (String (JS.digit_char (n mod 10)) EmptyString).
Proof.
  intros H. destruct (Z_lt_ge_dec n 10) as [S1|S1].
  - rewrite decimal_small by lia.
    rewrite Z.div_small, Z.mod_small by lia. reflexivity.
  - rewrite decimal_step by lia.
    assert (0 <= n / 10 < 10).
    { split; [apply Z.div_pos; lia | apply Z.div_lt_upper_bound; lia]. }
    rewrite decimal_small by lia. reflexivity.
Qed.

Lemma decimal_four_digits y :
  1000 <= y <= 9999 ->
  JS.decimal y =
  String (JS.digit_char (y / 1000)) (String (JS.digit_char (y / 100 mod 10))
    (String (JS.digit_char (y / 10 mod 10)) (String (JS.digit_char (y mod 10)) EmptyString))).
Proof.
  intros H.
  assert (100 <= y / 10) by (apply Z.div_le_lower_bound; lia).
  assert (10 <= y / 10 / 10) by (apply Z.div_le_lower_bound; lia).
  assert (0 <= y / 10 / 10 / 10 < 10).
  { split; [apply Z.div_pos; lia|]. rewrite !Z.div_div by lia.
    apply Z.div_lt_upper_bound; lia. }
  rewrite (decimal_step y) by lia.
  rewrite (decimal_step (y / 10)) by lia.
  rewrite (decimal_step (y / 10 / 10)) by lia.
  rewrite (decimal_small (y / 10 / 10 / 10)) by lia.
  rewrite !Z.div_div by lia. reflexivity.
Qed.

Lemma label_civil m :
  civil m ->
  (JS.padStart0 2 (JS.String_of_int (month m)) ++ "/" ++ JS.String_of_int (year m))%string
  = month_label m.
Proof.
  intros [Hm Hy]. unfold JS.String_of_int, month_label.
  rewrite (proj2 (Z.ltb_ge (month m) 0)), (proj2 (Z.ltb_ge (year m) 0)) by lia.
  rewrite decimal_two_digits by lia. rewrite decimal_four_digits by lia.
  reflexivity.
Qed.

(** ** The breakdown *)

Lemma filter_ext_in' {A} (f g : A -> bool) l :
  (forall x, In x l -> f x = g x) -> filter f l = filter g l.
Proof.
  induction l as [|x l IH]; intros H; simpl; [reflexivity|].
  rewrite (H x (or_introl eq_refl)), IH; [reflexivity|].
  intros y Hy. apply H. right. exact Hy.
Qed.

(** The months of the breakdown and the number of Clicks of each. *)
Lemma monthly_counts cs l aggregation :
  map Dto.clicks
      (Dto.monthlyBreakdown (Service.stats_item l aggregation (monthly_clicks cs (id l)))) =
  map (fun m => Z.of_nat (List.length (clicks_in_month cs (id l) m)))
      (months_of (clicks_of cs (id l))) /\
  Forall (fun e => 1 <= Dto.clicks e)
         (Dto.monthlyBreakdown (Service.stats_item l aggregation (monthly_clicks cs (id l)))).
Proof.
  unfold Service.stats_item, monthly_clicks. cbn [Dto.monthlyBreakdown].
  rewrite !map_map. split.
  - apply map_ext_in. intros m Hin.
    apply In_months_of in Hin. destruct Hin as (c & Hcin & <-).
    unfold Service.monthly_entry. cbn [Dto.clicks row_clicks].
    unfold clicks_in_month. do 2 f_equal.
    apply filter_ext_in'. intros x _. apply in_month_trunc.
  - rewrite !Forall_map. rewrite Forall_forall. intros m Hin.
    apply In_months_of in Hin. destruct Hin as (c & Hcin & <-).
    unfold Service.monthly_entry. cbn [Dto.clicks row_clicks].
    assert (In c (filter (in_month (date_trunc_month (clickedAt c))) (clicks_of cs (id l)))).
    { apply filter_In. split; [exact Hcin|]. unfold in_month. apply ts_eqb_refl. }
    destruct (filter _ (clicks_of cs (id l))); [contradiction|]. cbn [List.length]. lia.
Qed.

(** The labels, for dates of the calendar in a year of four digits. *)
Lemma monthly_labels cs l aggregation :
  (forall c, In c cs -> civil (clickedAt c)) ->
  map Dto.month
      (Dto.monthlyBreakdown (Service.stats_item l aggregation (monthly_clicks cs (id l)))) =
  map month_label (months_of (clicks_of cs (id l))).
Proof.
  intros Hd. unfold Service.stats_item, monthly_clicks. cbn [Dto.monthlyBreakdown].
  rewrite !map_map. apply map_ext_in. intros m Hin.
  apply In_months_of in Hin. destruct Hin as (c & Hcin & <-).
  unfold Service.monthly_entry. cbn [Dto.month row_month].
  apply label_civil. unfold civil. cbn. apply Hd. eapply clicks_of_incl, Hcin.
Qed.

(** ** [getStats] on the store *)

Lemma link_stats_run orc w l :
  exists w' tr,
    run orc (Service.link_stats l) w =
      (Ok (Service.stats_item l (aggregate_clicks (clicks (store w)) (id l))
                                (monthly_clicks (clicks (store w)) (id l))), w', tr) /\
    clicks (store w') = clicks (store w) /\
    grows (links (store w)) (links (store w')).
Proof.
  unfold run, Service.link_stats. eval_run.
  eexists _, _. split; [|split].
  - rewrite !intrude_clicks. reflexivity.
  - cbn. rewrite !intrude_clicks. reflexivity.
  - cbn. eapply grows_trans; apply intrude_grows.
Qed.

Lemma for_each_link_stats_run orc : forall ls w,
  exists w' tr,
    run orc (for_each Service.link_stats ls) w =
      (Ok (map (fun l => Service.stats_item l (aggregate_clicks (clicks (store w)) (id l))
                                              (monthly_clicks (clicks (store w)) (id l))) ls),
       w', tr) /\
    clicks (store w') = clicks (store w) /\
    grows (links (store w)) (links (store w')).
Proof.
  induction ls as [|l ls IH]; intros w.
  - eexists _, _. split; [reflexivity|]. split; [reflexivity | apply grows_refl].
  - unfold run in *. cbn [for_each]. rewrite interp_bind.
    destruct (link_stats_run orc w l) as (w1 & tr1 & R1 & C1 & G1).
    unfold run in R1. rewrite R1.
    rewrite interp_bind.
    destruct (IH w1) as (w2 & tr2 & R2 & C2 & G2). rewrite R2.
    cbn [interp app]. rewrite C1.
    eexists _, _. split; [reflexivity|]. split.
    + rewrite C2. exact C1.
    + eapply grows_trans; eassumption.
Qed.

Lemma getStats_run orc w page limit :
  let st1 := intrude orc (queries w) (store w) in
  let st2 := intrude orc (S (queries w)) st1 in
  let cs := clicks (store w) in
  exists w' tr,
    run orc (Service.getStats page limit) w =
      (Ok {| Dto.data :=
               map (fun l => Service.stats_item l (aggregate_clicks cs (id l))
                                                  (monthly_clicks cs (id l)))
                   (list_links (links st1) ((page - 1) * limit) limit);
             Dto.meta :=
               {| Dto.page := page; Dto.limit := limit;
                  Dto.totalItems := count_links (links st2);
                  Dto.totalPages := JS.Math_ceil (JS.div_int (count_links (links st2)) limit) |} |},
       w', tr) /\
    clicks (store w') = cs /\
    grows (links st1) (links (store w')).
Proof.
  intros st1 st2 cs. unfold run, Service.getStats.
  cbn -[intrude list_links count_links for_each Service.link_stats JS.Math_ceil JS.div_int].
  unfold read, query.
  cbn -[intrude list_links count_links for_each Service.link_stats JS.Math_ceil JS.div_int].
  fold st1. fold st2.
  rewrite interp_bind.
  destruct (for_each_link_stats_run orc (list_links (links st1) ((page - 1) * limit) limit)
              {| store := st2; queries := S (S (queries w));
                 codes_drawn := codes_drawn w; validations := validations w |})
    as (w2 & tr2 & R2 & C2 & G2).
  unfold run in R2. rewrite R2. cbn [store] in *.
  assert (Ecs : clicks st2 = cs).
  { unfold st2, st1. rewrite !intrude_clicks. reflexivity. }
  rewrite Ecs in *.
  cbn -[list_links count_links JS.Math_ceil JS.div_int].
  eexists _, _. split; [reflexivity|]. split; [exact C2|].
  eapply grows_trans; [apply intrude_grows | exact G2].
Qed.

Lemma list_links_incl ls skip take : incl (list_links ls skip take) ls.
Proof.
  intros l H. unfold list_links in H.
  apply In_firstn in H.
  assert (In l (order_by_createdAt_desc ls)).
  { revert H. generalize (order_by_createdAt_desc ls) as s. intros s.
    generalize (Z.to_nat skip) as n. intros n. revert s.
    induction n as [|n IH]; intros [|x s] H; simpl in *; auto. }
  eapply Permutation_in; [apply Permutation_sym, order_by_createdAt_desc_perm | assumption].
Qed.

(** The earnings of the months, without the labels. *)
Lemma monthly_earnings_exact cs l aggregation :
  credits_canonical cs -> within_serial cs ->
  map Dto.earnings
      (Dto.monthlyBreakdown (Service.stats_item l aggregation (monthly_clicks cs (id l)))) =
  map (fun m => two_decimals (sum_credit (clicks_in_month cs (id l) m)))
      (months_of (clicks_of cs (id l))).
Proof.
  intros Hc Hs. unfold Service.stats_item, monthly_clicks. cbn [Dto.monthlyBreakdown].
  rewrite !map_map. apply map_ext_in. intros m Hin.
  apply In_months_of in Hin. destruct Hin as (c & Hcin & <-).
  unfold Service.monthly_entry. cbn [Dto.earnings row_earnings].
  assert (F : filter (in_month (date_trunc_month (clickedAt c))) (clicks_of cs (id l))
              = clicks_in_month cs (id l) (date_trunc_month (clickedAt c))).
  { unfold clicks_in_month. apply filter_ext_in'. intros x _. apply in_month_trunc. }
  rewrite F. apply money_exact. unfold clicks_in_month.
  apply (sum_credit_bound _ cs Hc Hs).
  - intros x Hx. apply filter_In in Hx. eapply clicks_of_incl, Hx.
  - etransitivity; [apply filter_length_le | apply clicks_of_length].
Qed.

(** ** The client's check of [findMany] *)

Lemma client_link_stats refusal orc l w :
  interp (Prisma.client refusal orc) (Service.link_stats l) w =
  run orc (Service.link_stats l) w.
Proof. reflexivity. Qed.

Lemma client_for_each_link_stats refusal orc : forall ls w,
  interp (Prisma.client refusal orc) (for_each Service.link_stats ls) w =
  run orc (for_each Service.link_stats ls) w.
Proof.
  induction ls as [|l ls IH]; intros w; [reflexivity|].
  unfold run in *. cbn [for_each]. rewrite !interp_bind, client_link_stats.
  unfold run.
  destruct (interp (world_handler orc) (Service.link_stats l) w) as [[[y|e] w1] tr1];
    [|reflexivity].
  rewrite !interp_bind, IH. reflexivity.
Qed.

(** On arguments the client accepts, [getStats] runs as on the store. *)
Lemma getStats_client refusal orc w page limit :
  Prisma.accepts ((page - 1) * limit) limit = true -> 0 <= limit ->
  interp (Prisma.client refusal orc) (Service.getStats page limit) w =
  run orc (Service.getStats page limit) w.
Proof.
  intros Ha Hl. unfold run, Service.getStats.
  cbn -[intrude list_links count_links for_each Service.link_stats JS.Math_ceil JS.div_int
        Prisma.accepts Prisma.findMany].
  rewrite Ha. unfold Prisma.findMany. rewrite (proj2 (Z.leb_le 0 limit)) by exact Hl.
  unfold read, query.
  cbn -[intrude list_links count_links for_each Service.link_stats JS.Math_ceil JS.div_int].
  rewrite !interp_bind, client_for_each_link_stats. reflexivity.
Qed.



Lemma all_valid_total cs lid :
  credits_canonical cs ->
  Forall (fun c => isValid c = true) (clicks_of cs lid) ->
  exact_total cs lid = 5 * Z.of_nat (List.length (clicks_of cs lid)).
Proof.
  intros Hc Hv. unfold exact_total.
  assert (Hg : forall c, In c (clicks_of cs lid) -> earnedCredit c = 5).
  { intros c Hin. rewrite Forall_forall in Hv.
    rewrite (Hc c (clicks_of_incl _ _ _ Hin)), (Hv c Hin). reflexivity. }
  revert Hg. generalize (clicks_of cs lid) as g. intros g.
  unfold sum_credit. induction g as [|c g IH]; intros Hg.
  - reflexivity.
  - cbn [fold_right List.length]. rewrite Nat2Z.inj_succ.
    rewrite (Hg c (or_introl eq_refl)), IH; [lia|].
    intros x Hx. apply Hg. right. exact Hx.
Qed.

Lemma Forall2_map_right {A B} (P : A -> B -> Prop) (f : A -> B) l :
  (forall x, P x (f x)) -> Forall2 P l (map f l).
Proof. intros H. induction l as [|x l IH]; cbn [map]; constructor; auto. Qed.

Lemma valid_clicks_aggregate n :
  (0 < n)%nat ->
  credits_canonical (Scenario.valid_clicks n) /\
  aggregate_clicks (Scenario.valid_clicks n) 1 = (Z.of_nat n, Some (5 * Z.of_nat n)) /\
  exact_total (Scenario.valid_clicks n) 1 = 5 * Z.of_nat n.
Proof.
  intros Hn.
  assert (Hc : credits_canonical (Scenario.valid_clicks n)).
  { intros c H. unfold Scenario.valid_clicks in H. apply in_map_iff in H.
    destruct H as (i & <- & _). reflexivity. }
  assert (Hf : clicks_of (Scenario.valid_clicks n) 1 = Scenario.valid_clicks n).
  { unfold clicks_of, Scenario.valid_clicks. generalize (seq 1 n) as l. intros l.
    induction l as [|i l IH]; cbn [map filter linkId]; [reflexivity|].
    rewrite Z.eqb_refl, IH. reflexivity. }
  assert (Hl : List.length (Scenario.valid_clicks n) = n).
  { unfold Scenario.valid_clicks. rewrite length_map, length_seq. reflexivity. }
  assert (Ht : exact_total (Scenario.valid_clicks n) 1 = 5 * Z.of_nat n).
  { rewrite all_valid_total; [rewrite Hf, Hl; reflexivity | exact Hc |].
    rewrite Hf. unfold Scenario.valid_clicks. rewrite Forall_map.
    apply Forall_forall. intros i _. reflexivity. }
  split; [exact Hc|]. split; [|exact Ht].
  unfold aggregate_clicks. unfold exact_total in Ht. rewrite Ht, Hf, Hl.
  destruct (Scenario.valid_clicks n) eqn:E; [|reflexivity].
  cbn in Hl. lia.
Qed.

End StatsFacts.

(** ** The stores of the examples *)

Lemma quiet_colliding : quiet Scenario.colliding.
Proof. intros n. reflexivity. Qed.

Lemma twenty_valid_canonical : credits_canonical Scenario.twenty_valid.
Proof. apply (valid_clicks_aggregate 20). lia. Qed.

Lemma three_dated_canonical : credits_canonical Scenario.three_dated.
Proof.
  intros c H. repeat (destruct H as [<-|H]; [reflexivity|]). destruct H.
Qed.

Lemma three_dated_civil c : In c Scenario.three_dated -> civil (clickedAt c).
Proof.
  intros H. repeat (destruct H as [<-|H]; [unfold civil; cbn; lia|]). destruct H.
Qed.


(* ===================================================================== *)
(** * The claims of the specification *)
(* ===================================================================== *)

(** C1, as amended.  For every Link of the page [getStats] returns,
    [totalEarnings] is the exact sum of [earnedCredit] over the Clicks of
    that Link, written with exactly two decimal places, and the
    [earnings] of every entry of [monthlyBreakdown] is the exact sum of
    its month, as long as the table holds the credits [recordClick]
    writes (0.05 and 0.00) and no more rows than its [SERIAL] key can
    number, and in general as long as the sum is below [2^46].  The sum
    itself is an exact decimal; the service formats it through a binary64
    number, [Number(sum).toFixed(2)], which loses nothing in that range.
    For a Link with valid Clicks only the total is 0.05 times their
    number, and 20 of them give ["1.00"]. *)
Theorem getStats_exact_earnings :
  (forall orc w page limit,
     credits_canonical (clicks (store w)) -> within_serial (clicks (store w)) ->
     exists r w' tr page_links,
       run orc (Service.getStats page limit) w = (Ok r, w', tr) /\
       incl page_links (links (store w')) /\
       Forall2
         (fun l item =>
            Dto.shortCode item = shortCode l /\
            Dto.totalEarnings item =
              two_decimals (exact_total (clicks (store w)) (id l)) /\
            map Dto.earnings (Dto.monthlyBreakdown item) =
              map (fun m => two_decimals
                              (sum_credit (clicks_in_month (clicks (store w)) (id l) m)))
                  (months_of (clicks_of (clicks (store w)) (id l))) /\
            (Forall (fun c => isValid c = true) (clicks_of (clicks (store w)) (id l)) ->
             Dto.totalEarnings item =
               two_decimals (5 * Z.of_nat (List.length (clicks_of (clicks (store w)) (id l))))))
         page_links (Dto.data r)) /\
  (forall l n s monthlyRaw,
     0 <= s < 100 * 2 ^ 46 ->
     Dto.totalEarnings (Service.stats_item l (n, Some s) monthlyRaw) = two_decimals s) /\
  two_decimals (5 * 20) = "1.00"%string /\
  (exists r w' tr,
     run Scenario.colliding (Service.getStats 1 10)
         (Scenario.holding [Scenario.link_a] Scenario.twenty_valid) = (Ok r, w', tr) /\
     map Dto.totalClicks (Dto.data r) = [20] /\
     map Dto.totalEarnings (Dto.data r) = ["1.00"%string]).
Proof.
  split; [|split; [|split]].
  - intros orc w page limit Hc Hs.
    destruct (getStats_run orc w page limit) as (w' & tr & R & C & G).
    eexists _, w', tr,
      (list_links (links (intrude orc (queries w) (store w))) ((page - 1) * limit) limit).
    split; [exact R|]. cbn [Dto.data]. split.
    + intros l Hl. eapply grows_in; [exact G|]. eapply list_links_incl, Hl.
    + apply Forall2_map_right. intros l.
      split; [reflexivity|].
      split; [apply total_earnings_exact; assumption|].
      split; [apply monthly_earnings_exact; assumption|].
      intros Hv. rewrite <- all_valid_total by assumption.
      apply total_earnings_exact; assumption.
  - intros l n s monthlyRaw Hs. unfold Service.stats_item.
    cbn [Dto.totalEarnings snd Service.Number_of_nullable]. apply money_exact, Hs.
  - vm_compute. reflexivity.
  - eexists _, _, _. split; [vm_compute; reflexivity|]. split; vm_compute; reflexivity.
Qed.

(** C1 on the store holding one Link with twenty valid Clicks. *)
Lemma getStats_exact_earnings_witness :
  exists r w' tr page_links,
    run Scenario.colliding (Service.getStats 1 10)
        (Scenario.holding [Scenario.link_a] Scenario.twenty_valid) = (Ok r, w', tr) /\
    incl page_links (links (store w')) /\
    Forall2
      (fun l item =>
         Dto.shortCode item = shortCode l /\
         Dto.totalEarnings item =
           two_decimals (exact_total Scenario.twenty_valid (id l)) /\
         map Dto.earnings (Dto.monthlyBreakdown item) =
           map (fun m => two_decimals
                           (sum_credit (clicks_in_month Scenario.twenty_valid (id l) m)))
               (months_of (clicks_of Scenario.twenty_valid (id l))) /\
         (Forall (fun c => isValid c = true) (clicks_of Scenario.twenty_valid (id l)) ->
          Dto.totalEarnings item =
            two_decimals (5 * Z.of_nat (List.length (clicks_of Scenario.twenty_valid (id l))))))
      page_links (Dto.data r).
Proof.
  apply (proj1 getStats_exact_earnings Scenario.colliding
           (Scenario.holding [Scenario.link_a] Scenario.twenty_valid) 1 10).
  - exact twenty_valid_canonical.
  - unfold within_serial. vm_compute. discriminate.
Defined.

(** C1 as stated fails.  The number [getStats] formats is a binary64
    approximation of the sum: for one valid Click it is
    [7205759403792794 * 2^-57], which is not 0.05.  And the notation does
    drift for some number of Clicks: 1407374883553282 valid Clicks on one
    Link sum to 70368744177664.10, for which [getStats] returns
    ["70368744177664.09"]. *)
Lemma getStats_earnings_through_binary64 :
  (JS.or_zero (Service.Number_of_nullable (snd (aggregate_clicks (Scenario.valid_clicks 1) 1)))
     = JS.Finite false 7205759403792794 (-57) /\
   7205759403792794 * 100 <> 5 * 2 ^ 57) /\
  (credits_canonical (Scenario.valid_clicks (Z.to_nat 1407374883553282)) /\
   exists r w' tr,
     run Scenario.colliding (Service.getStats 1 10)
         (Scenario.holding [Scenario.link_a]
            (Scenario.valid_clicks (Z.to_nat 1407374883553282))) = (Ok r, w', tr) /\
     map Dto.totalEarnings (Dto.data r) = ["70368744177664.09"%string] /\
     two_decimals (exact_total (Scenario.valid_clicks (Z.to_nat 1407374883553282)) 1)
       = "70368744177664.10"%string).
Proof.
  split.
  - split; [vm_compute; reflexivity | vm_compute; discriminate].
  - assert (Hn : (0 < Z.to_nat 1407374883553282)%nat) by lia.
    destruct (valid_clicks_aggregate _ Hn) as (Hc & Ha & Ht).
    rewrite Z2Nat.id in Ha, Ht by lia.
    split; [exact Hc|].
    set (cs := Scenario.valid_clicks (Z.to_nat 1407374883553282)) in *.
    clearbody cs.
    destruct (getStats_run Scenario.colliding (Scenario.holding [Scenario.link_a] cs) 1 10)
      as (w' & tr & R & _ & _).
    eexists _, w', tr. split; [exact R|].
    rewrite Ht. split; [|vm_compute; reflexivity].
    cbn [Dto.data]. rewrite !map_map.
    unfold Scenario.holding, Scenario.world_of. cbn [store queries].
    rewrite !intrude_quiet by (intros n; reflexivity).
    cbn [links clicks].
    change (list_links [Scenario.link_a] ((1 - 1) * 10) 10) with [Scenario.link_a].
    cbn [map Scenario.link_a id].
    unfold Service.stats_item. cbn [Dto.totalEarnings]. rewrite Ha. cbn [snd].
    vm_compute. reflexivity.
Qed.

(** C2.  [createLink] makes at most 3 insert attempts, whatever its
    collaborators answer.  On the store with no other writer and no Link
    for the target: when [nanoid] draws two codes that are taken and then
    a free one, the third insert succeeds, [createLink] returns the third
    code with [isNew = true], and exactly 3 inserts were attempted; when
    all three codes drawn are taken, [createLink] rejects with the
    uniqueness violation of the third insert, after exactly 3 attempts,
    and no Link was added. *)
Theorem createLink_collision_retry :
  (forall (S : Type) (h : handler S) (s : S) (url : string),
     le (List.length (link_inserts (snd (interp h (Service.createLink url) s)))) 3) /\
  (forall orc w url l1 l2,
     quiet orc ->
     find_by_targetUrl (links (store w)) url = None ->
     find_by_shortCode (links (store w)) (gen_code orc (codes_drawn w)) = Some l1 ->
     find_by_shortCode (links (store w)) (gen_code orc (S (codes_drawn w))) = Some l2 ->
     find_by_shortCode (links (store w)) (gen_code orc (S (S (codes_drawn w)))) = None ->
     exists w' tr l,
       run orc (Service.createLink url) w =
         (Ok {| Service.shortCode := gen_code orc (S (S (codes_drawn w)));
                Service.targetUrl := url; Service.isNew := true |}, w', tr) /\
       link_inserts tr =
         [(gen_code orc (codes_drawn w), url, Err short_code_conflict);
          (gen_code orc (S (codes_drawn w)), url, Err short_code_conflict);
          (gen_code orc (S (S (codes_drawn w))), url, Ok l)] /\
       links (store w') = links (store w) ++ [l] /\
       shortCode l = gen_code orc (S (S (codes_drawn w))) /\ targetUrl l = url) /\
  (forall orc w url l1 l2 l3,
     quiet orc ->
     find_by_targetUrl (links (store w)) url = None ->
     find_by_shortCode (links (store w)) (gen_code orc (codes_drawn w)) = Some l1 ->
     find_by_shortCode (links (store w)) (gen_code orc (S (codes_drawn w))) = Some l2 ->
     find_by_shortCode (links (store w)) (gen_code orc (S (S (codes_drawn w)))) = Some l3 ->
     exists w' tr,
       run orc (Service.createLink url) w = (Err short_code_conflict, w', tr) /\
       link_inserts tr =
         [(gen_code orc (codes_drawn w), url, Err short_code_conflict);
          (gen_code orc (S (codes_drawn w)), url, Err short_code_conflict);
          (gen_code orc (S (S (codes_drawn w))), url, Err short_code_conflict)] /\
       links (store w') = links (store w)).
Proof.
  split; [|split].
  - intros S h s url. unfold Service.createLink.
    cbn -[Service.createLink_attempts Z.to_nat].
    destruct (h (option Link) (link_findUnique_targetUrl url) s) as [[[ex|]|e] s1];
      cbn -[Service.createLink_attempts Z.to_nat].
    + destruct (h unit (logger _) s1) as [o s2]. cbn. lia.
    + pose proof (attempts_bound h url 3 0 s1) as B.
      change (Z.to_nat Service.maxRetries) with 3%nat.
      destruct (interp h (Service.createLink_attempts 3 0 url) s1) as [[r s2] tr2].
      cbn in *. exact B.
    + cbn. lia.
  - exact createLink_two_collisions.
  - exact createLink_three_collisions.
Qed.

(** C2 on the stores holding [aaaaaaaa], [bbbbbbbb] (and [cccccccc]), with
    these codes drawn in this order. *)
Lemma createLink_collision_retry_witness :
  (exists w' tr l,
     run Scenario.colliding (Service.createLink "https://example.com/x")
         (Scenario.holding [Scenario.link_a; Scenario.link_b] []) =
       (Ok {| Service.shortCode := "cccccccc"; Service.targetUrl := "https://example.com/x";
              Service.isNew := true |}, w', tr) /\
     link_inserts tr =
       [("aaaaaaaa", "https://example.com/x", Err short_code_conflict);
        ("bbbbbbbb", "https://example.com/x", Err short_code_conflict);
        ("cccccccc", "https://example.com/x", Ok l)]%string /\
     links (store w') = [Scenario.link_a; Scenario.link_b] ++ [l] /\
     shortCode l = "cccccccc"%string /\ targetUrl l = "https://example.com/x"%string) /\
  (exists w' tr,
     run Scenario.colliding (Service.createLink "https://example.com/x")
         (Scenario.holding [Scenario.link_a; Scenario.link_b; Scenario.link_c] []) =
       (Err short_code_conflict, w', tr) /\
     link_inserts tr =
       [("aaaaaaaa", "https://example.com/x", Err short_code_conflict);
        ("bbbbbbbb", "https://example.com/x", Err short_code_conflict);
        ("cccccccc", "https://example.com/x", Err short_code_conflict)]%string /\
     links (store w') = [Scenario.link_a; Scenario.link_b; Scenario.link_c]).
Proof.
  split.
  - apply (proj1 (proj2 createLink_collision_retry) Scenario.colliding
             (Scenario.holding [Scenario.link_a; Scenario.link_b] [])
             "https://example.com/x"%string Scenario.link_a Scenario.link_b);
      [exact quiet_colliding | reflexivity | reflexivity | reflexivity | reflexivity].
  - apply (proj2 (proj2 createLink_collision_retry) Scenario.colliding
             (Scenario.holding [Scenario.link_a; Scenario.link_b; Scenario.link_c] [])
             "https://example.com/x"%string Scenario.link_a Scenario.link_b Scenario.link_c);
      [exact quiet_colliding | reflexivity | reflexivity | reflexivity | reflexivity].
Defined.

(** C3.  Whatever the other writers do: when an insert of [createLink] is
    rejected with a uniqueness violation on [target_url], [createLink]
    resolves (it does not reject) to the [shortCode] and [targetUrl] of
    the Link that the store now holds for the target, with
    [isNew = false], and that rejected insert is its last one: the
    conflict is not retried. *)
Theorem createLink_target_conflict orc w url res w' tr code :
  run orc (Service.createLink url) w = (res, w', tr) ->
  In (code, url, Err target_url_conflict) (link_inserts tr) ->
  exists l colls,
    find_by_targetUrl (links (store w')) url = Some l /\
    targetUrl l = url /\
    res = Ok {| Service.shortCode := shortCode l; Service.targetUrl := targetUrl l;
                Service.isNew := false |} /\
    Forall (collided url) colls /\
    link_inserts tr = colls ++ [(code, url, Err target_url_conflict)].
Proof.
  intros H Hin.
  assert (NotColl : forall colls, Forall (collided url) colls ->
            ~ In (code, url, Err target_url_conflict) colls).
  { intros colls Fc Hc. rewrite Forall_forall in Fc.
    destruct (Fc _ Hc) as [c E]. discriminate E. }
  apply createLink_world in H.
  destruct H as (_ & _ & _ & [(l & F & R & I) | (colls & Fc & _ & Hcases)]).
  - rewrite I in Hin. destruct Hin.
  - destruct Hcases as [(l & I & R & F) | [(c & l & I & R & F) | (I & R & L)]].
    + rewrite I in Hin. apply in_app_or in Hin. destruct Hin as [Hc|[E|[]]].
      * destruct (NotColl _ Fc Hc).
      * discriminate E.
    + rewrite I in Hin. apply in_app_or in Hin. destruct Hin as [Hc|[E|[]]].
      * destruct (NotColl _ Fc Hc).
      * injection E as ->. exists l, colls.
        pose proof (find_by_targetUrl_some _ _ _ F) as [_ Eu].
        rewrite Eu. auto.
    + rewrite I in Hin. destruct (NotColl _ Fc Hin).
Qed.

(** C3 on the empty store, where another request creates the target
    between the lookup and the insert. *)
Lemma createLink_target_conflict_witness :
  let R := run Scenario.racing (Service.createLink "https://example.com/x")
               (Scenario.holding [] []) in
  exists l colls,
    find_by_targetUrl (links (store (snd (fst R)))) "https://example.com/x" = Some l /\
    targetUrl l = "https://example.com/x"%string /\
    fst (fst R) = Ok {| Service.shortCode := shortCode l; Service.targetUrl := targetUrl l;
                        Service.isNew := false |} /\
    Forall (collided "https://example.com/x") colls /\
    link_inserts (snd R) =
      colls ++ [("cccccccc", "https://example.com/x", Err target_url_conflict)]%string.
Proof.
  intros R.
  apply (createLink_target_conflict Scenario.racing (Scenario.holding [] [])
           "https://example.com/x"%string (fst (fst R)) (snd (fst R)) (snd R) "cccccccc"%string).
  - vm_compute. reflexivity.
  - vm_compute. left. reflexivity.
Defined.

(** C4.  Every Click [recordClick] asks the store to create carries the
    identifier of the Link its lookup returned and, as [earnedCredit], the
    decimal 0.05 when the validator answered valid and the decimal 0.00
    when it answered invalid, whatever the collaborators answer.  On the
    store, the Click persisted for an existing Link has that Link's
    identifier, the validator's verdict as [isValid] and the credit of
    that verdict; and a table of Clicks whose credits are all one of the
    two values stays so.  The credit is a [Decimal] throughout, never a
    [JS.double]. *)
Theorem recordClick_credit :
  (forall (S : Type) (h : handler S) (s : S) code lid valid credit,
     In (lid, valid, credit) (click_inserts (snd (interp h (Service.recordClick code) s))) ->
     credit = (if valid then Service.Decimal_0_05 else Service.Decimal_0_00) /\
     exists l, fst (h _ (link_findUnique_shortCode code) s) = Ok (Some l) /\ lid = id l) /\
  (forall orc w code l,
     find_by_shortCode (links (intrude orc (queries w) (store w))) code = Some l ->
     exists w' tr c,
       run orc (Service.recordClick code) w = (Ok tt, w', tr) /\
       clicks (store w') = clicks (store w) ++ [c] /\
       linkId c = id l /\
       isValid c = verdict orc (validations w) /\
       earnedCredit c = (if isValid c then Service.Decimal_0_05 else Service.Decimal_0_00)) /\
  (forall orc w code,
     credits_canonical (clicks (store w)) ->
     credits_canonical (clicks (store (snd (fst (run orc (Service.recordClick code) w)))))).
Proof.
  split; [|split].
  - intros S h s code lid valid credit. unfold Service.recordClick. cbn.
    destruct (h (option Link) (link_findUnique_shortCode code) s) as [[[l|]|e] s1]; cbn.
    + destruct (h bool fraud_validate s1) as [[v|e] s2]; cbn.
      * destruct (h Click (click_create _ _ _) s2) as [[c|e] s3]; cbn.
        -- destruct (h unit (logger _) s3) as [o s4]. cbn.
           intros [E|[]]. injection E as <- <- <-. split; [reflexivity|]. eauto.
        -- intros [E|[]]. injection E as <- <- <-. split; [reflexivity|]. eauto.
      * intros [].
    + destruct (h unit (logger _) s1) as [o s2]. cbn. intros [].
    + intros [].
  - intros orc w code l F.
    destruct (recordClick_world_found orc w code l F)
      as (w' & tr & c & R & Cs & _ & Hl & Hv & Hc & _).
    exists w', tr, c. auto.
  - intros orc w code Hcan.
    destruct (find_by_shortCode (links (intrude orc (queries w) (store w))) code) as [l|] eqn:F.
    + destruct (recordClick_world_found orc w code l F)
        as (w' & tr & c & R & Cs & _ & Hl & Hv & Hc & _).
      rewrite R. cbn. rewrite Cs. intros x Hx.
      apply in_app_or in Hx. destruct Hx as [Hx|[<-|[]]]; [apply Hcan, Hx | exact Hc].
    + destruct (recordClick_world_absent orc w code F) as (w' & tr & R & _ & Cs & _).
      rewrite R. cbn. rewrite Cs. exact Hcan.
Qed.

(** C4 on a store holding [link_a], the validator answering valid. *)
Lemma recordClick_credit_witness :
  exists w' tr c,
    run Scenario.colliding (Service.recordClick "aaaaaaaa")
        (Scenario.holding [Scenario.link_a] []) = (Ok tt, w', tr) /\
    clicks (store w') = [] ++ [c] /\
    linkId c = 1 /\
    isValid c = true /\
    earnedCredit c = (if isValid c then Service.Decimal_0_05 else Service.Decimal_0_00).
Proof.
  apply (proj1 (proj2 recordClick_credit) Scenario.colliding
           (Scenario.holding [Scenario.link_a] []) "aaaaaaaa"%string Scenario.link_a).
  reflexivity.
Defined.

(** C5.  For every Link of the page, [monthlyBreakdown] has one entry for
    each calendar month in which the Link has at least one Click and no
    other entry, in strictly ascending chronological order; the entry of
    a month carries the number of the Link's Clicks of that month (at
    least 1), the label [MM/YYYY] (for dates of the calendar in a year of
    four digits, as the database clock gives them) and the exact earnings
    of the month with two decimal places (for the credits [recordClick]
    writes, in a table within its [SERIAL] key).  Clicks dated
    2025-12-15, 2025-12-28 and 2026-01-03 give the entry of 12/2025 with
    2 clicks, then the entry of 01/2026 with 1 click. *)
Theorem getStats_monthly_breakdown :
  (forall orc w page limit,
     exists r w' tr page_links,
       run orc (Service.getStats page limit) w = (Ok r, w', tr) /\
       incl page_links (links (store w')) /\
       Forall2
         (fun l item =>
            Dto.shortCode item = shortCode l /\
            exists months,
              StronglySorted earlier months /\
              (forall m, In m months <->
                         exists c, In c (clicks_of (clicks (store w)) (id l)) /\
                                   date_trunc_month (clickedAt c) = m) /\
              map Dto.clicks (Dto.monthlyBreakdown item) =
                map (fun m => Z.of_nat (List.length
                                (clicks_in_month (clicks (store w)) (id l) m))) months /\
              Forall (fun e => 1 <= Dto.clicks e) (Dto.monthlyBreakdown item) /\
              ((forall c, In c (clicks (store w)) -> civil (clickedAt c)) ->
               map Dto.month (Dto.monthlyBreakdown item) = map month_label months) /\
              (credits_canonical (clicks (store w)) -> within_serial (clicks (store w)) ->
               map Dto.earnings (Dto.monthlyBreakdown item) =
                 map (fun m => two_decimals
                                 (sum_credit (clicks_in_month (clicks (store w)) (id l) m)))
                     months))
         page_links (Dto.data r)) /\
  (exists r w' tr,
     run Scenario.colliding (Service.getStats 1 10)
         (Scenario.holding [Scenario.link_a] Scenario.three_dated) = (Ok r, w', tr) /\
     map Dto.monthlyBreakdown (Dto.data r) =
       [[ {| Dto.month := "12/2025"; Dto.clicks := 2; Dto.earnings := "0.05" |};
          {| Dto.month := "01/2026"; Dto.clicks := 1; Dto.earnings := "0.05" |} ]]).
Proof.
  split.
  - intros orc w page limit.
    destruct (getStats_run orc w page limit) as (w' & tr & R & C & G).
    eexists _, w', tr,
      (list_links (links (intrude orc (queries w) (store w))) ((page - 1) * limit) limit).
    split; [exact R|]. cbn [Dto.data]. split.
    + intros l Hl. eapply grows_in; [exact G|]. eapply list_links_incl, Hl.
    + apply Forall2_map_right. intros l.
      split; [reflexivity|].
      exists (months_of (clicks_of (clicks (store w)) (id l))).
      split; [apply months_of_sorted|].
      split; [apply In_months_of|].
      split; [apply monthly_counts|].
      split; [apply monthly_counts|].
      split; [apply monthly_labels | apply monthly_earnings_exact].
  - eexists _, _, _. split; vm_compute; reflexivity.
Qed.

(** C5 on the store holding one Link with the three dated Clicks. *)
Lemma getStats_monthly_breakdown_witness :
  exists r w' tr,
    run Scenario.colliding (Service.getStats 1 10)
        (Scenario.holding [Scenario.link_a] Scenario.three_dated) = (Ok r, w', tr) /\
    Forall
      (fun item =>
         exists months lid,
           StronglySorted earlier months /\
           map Dto.month (Dto.monthlyBreakdown item) = map month_label months /\
           map Dto.earnings (Dto.monthlyBreakdown item) =
             map (fun m => two_decimals
                             (sum_credit (clicks_in_month Scenario.three_dated lid m)))
                 months)
      (Dto.data r).
Proof.
  destruct (proj1 getStats_monthly_breakdown Scenario.colliding
              (Scenario.holding [Scenario.link_a] Scenario.three_dated) 1 10)
    as (r & w' & tr & page_links & R & _ & F).
  exists r, w', tr. split; [exact R|]. clear R.
  induction F as [|l item ls items (_ & months & Hs & _ & _ & _ & Hl & He) _ IH];
    constructor; [|exact IH].
  exists months, (id l). split; [exact Hs|]. split; [exact (Hl three_dated_civil)|].
  apply He; [exact three_dated_canonical|].
  unfold within_serial. vm_compute. discriminate.
Defined.




(** C7.  [resolve] issues no insert and never calls the validator,
    whatever its collaborators answer.  On the store it returns the
    [targetUrl] of the Link with the short code, or rejects with
    [NotFoundException] when there is none, and the store it leaves is
    the one it looked the code up in: with no other writer, the very
    store it started from. *)
Theorem resolve_read_only :
  (forall (S : Type) (h : handler S) (s : S) code,
     let tr := snd (interp h (Service.resolve code) s) in
     count is_write tr = 0%nat /\ count is_fraud_validate tr = 0%nat /\
     link_inserts tr = [] /\ click_inserts tr = []) /\
  (forall orc w code,
     exists tr,
       run orc (Service.resolve code) w =
       (match find_by_shortCode (links (intrude orc (queries w) (store w))) code with
        | Some l => Ok (targetUrl l)
        | None => Err (NotFoundException "Short link not found")
        end,
        {| store := intrude orc (queries w) (store w); queries := S (queries w);
           codes_drawn := codes_drawn w; validations := validations w |}, tr)) /\
  (forall orc w code,
     quiet orc -> store (snd (fst (run orc (Service.resolve code) w))) = store w).
Proof.
  assert (W : forall orc w code,
     exists tr,
       run orc (Service.resolve code) w =
       (match find_by_shortCode (links (intrude orc (queries w) (store w))) code with
        | Some l => Ok (targetUrl l)
        | None => Err (NotFoundException "Short link not found")
        end,
        {| store := intrude orc (queries w) (store w); queries := S (queries w);
           codes_drawn := codes_drawn w; validations := validations w |}, tr)).
  { intros orc w code. unfold run, Service.resolve. eval_run.
    destruct (find_by_shortCode _ code); eval_run; eexists; reflexivity. }
  split; [|split].
  - intros S h s code. unfold Service.resolve. cbn.
    destruct (h (option Link) (link_findUnique_shortCode code) s) as [[[l|]|e] s1]; cbn.
    + destruct (h unit (logger _) s1) as [o s2]. cbn. auto.
    + destruct (h unit (logger _) s1) as [o s2]. cbn. auto.
    + auto.
  - exact W.
  - intros orc w code Q. destruct (W orc w code) as [tr ->]. cbn.
    apply intrude_quiet, Q.
Qed.

(** C7 on a store holding [link_a], with no other writer. *)
Lemma resolve_read_only_witness :
  store (snd (fst (run Scenario.colliding (Service.resolve "aaaaaaaa")
                       (Scenario.holding [Scenario.link_a] []))))
  = store (Scenario.holding [Scenario.link_a] []).
Proof.
  apply (proj2 (proj2 resolve_read_only) Scenario.colliding
           (Scenario.holding [Scenario.link_a] []) "aaaaaaaa"%string).
  exact quiet_colliding.
Defined.

(** C8.  When the lookup of [recordClick] finds no Link, [recordClick]
    resolves without an error, the validator is not called and no Click
    is created, whatever the collaborators are; on the store, the table
    of Clicks is unchanged.  When the lookup finds a Link, exactly one
    Click is created, for that Link. *)
Theorem recordClick_unknown_code_dropped :
  (forall (S : Type) (h : handler S) (s s1 : S) code,
     h _ (link_findUnique_shortCode code) s = (Ok None, s1) ->
     exists s' tr,
       interp h (Service.recordClick code) s = (Ok tt, s', tr) /\
       count is_fraud_validate tr = 0%nat /\ click_inserts tr = [] /\
       count is_write tr = 0%nat) /\
  (forall orc w code,
     find_by_shortCode (links (intrude orc (queries w) (store w))) code = None ->
     exists w' tr,
       run orc (Service.recordClick code) w = (Ok tt, w', tr) /\
       clicks (store w') = clicks (store w) /\
       count is_fraud_validate tr = 0%nat /\ click_inserts tr = []) /\
  (forall orc w code l,
     find_by_shortCode (links (intrude orc (queries w) (store w))) code = Some l ->
     exists w' tr c,
       run orc (Service.recordClick code) w = (Ok tt, w', tr) /\
       clicks (store w') = clicks (store w) ++ [c] /\
       linkId c = id l /\
       List.length (click_inserts tr) = 1%nat).
Proof.
  split; [|split].
  - intros S h s s1 code H. unfold Service.recordClick. cbn. rewrite H. cbn.
    destruct (h unit (logger _) s1) as [o s2]. cbn.
    eexists _, _. repeat split.
  - intros orc w code F.
    destruct (recordClick_world_absent orc w code F) as (w' & tr & R & _ & Cs & Fr & Ci).
    exists w', tr. auto.
  - intros orc w code l F.
    destruct (recordClick_world_found orc w code l F)
      as (w' & tr & c & R & Cs & _ & Hl & _ & _ & Ci & _).
    exists w', tr, c. rewrite Ci. auto.
Qed.

(** C8 on a store holding [link_a]: an unknown code, then the code of
    [link_a]. *)
Lemma recordClick_unknown_code_dropped_witness :
  (exists w' tr,
     run Scenario.colliding (Service.recordClick "nonexist")
         (Scenario.holding [Scenario.link_a] []) = (Ok tt, w', tr) /\
     clicks (store w') = [] /\
     count is_fraud_validate tr = 0%nat /\ click_inserts tr = []) /\
  (exists w' tr c,
     run Scenario.colliding (Service.recordClick "aaaaaaaa")
         (Scenario.holding [Scenario.link_a] []) = (Ok tt, w', tr) /\
     clicks (store w') = [] ++ [c] /\
     linkId c = 1 /\
     List.length (click_inserts tr) = 1%nat).
Proof.
  split.
  - apply (proj1 (proj2 recordClick_unknown_code_dropped) Scenario.colliding
             (Scenario.holding [Scenario.link_a] []) "nonexist"%string).
    reflexivity.
  - apply (proj2 (proj2 recordClick_unknown_code_dropped) Scenario.colliding
             (Scenario.holding [Scenario.link_a] []) "aaaaaaaa"%string Scenario.link_a).
    reflexivity.
Defined.

(** C9.  When the lookup by target finds a Link, [createLink] returns the
    code and target of that very Link with [isNew = false] after the
    lookup and one log line, whatever the collaborators are: no insert
    is attempted.  On the store, what [createLink] resolves to is the
    code of the Link the table holds for the target; every later call
    for the same target, in any later state of the store and whatever
    the other writers do, looks that Link up, resolves to the same
    [shortCode] with [isNew = false], attempts no insert and leaves the
    store to the other writers; and [createLink] keeps both unique
    indexes of [links], so that no two Links share a target. *)
Theorem createLink_dedup :
  (forall (S : Type) (h : handler S) (s s1 s2 : S) url l o,
     h _ (link_findUnique_targetUrl url) s = (Ok (Some l), s1) ->
     h _ (logger (ExistingLinkFound url (shortCode l))) s1 = (o, s2) ->
     interp h (Service.createLink url) s =
       (Ok {| Service.shortCode := shortCode l; Service.targetUrl := targetUrl l;
              Service.isNew := false |},
        s2,
        [Ev (link_findUnique_targetUrl url) (Ok (Some l));
         Ev (logger (ExistingLinkFound url (shortCode l))) o])) /\
  (forall orc w url r w1 tr,
     run orc (Service.createLink url) w = (Ok r, w1, tr) ->
     Service.targetUrl r = url /\
     (exists l, find_by_targetUrl (links (store w1)) url = Some l /\
                Service.shortCode r = shortCode l) /\
     (forall orc2 w2,
        grows (links (store w1)) (links (store w2)) ->
        exists w3 tr2 l,
          run orc2 (Service.createLink url) w2 =
            (Ok {| Service.shortCode := Service.shortCode r;
                   Service.targetUrl := Service.targetUrl r;
                   Service.isNew := false |}, w3, tr2) /\
          find_by_targetUrl (links (store w1)) url = Some l /\
          shortCode l = Service.shortCode r /\ targetUrl l = url /\
          tr2 = [Ev (link_findUnique_targetUrl url) (Ok (Some l));
                 Ev (logger (ExistingLinkFound url (shortCode l))) (Ok tt)] /\
          link_inserts tr2 = [] /\
          store w3 = intrude orc2 (queries w2) (store w2) /\
          find_by_targetUrl (links (store w3)) url = Some l /\
          grows (links (store w1)) (links (store w3))) /\
     (unique_links (links (store w)) ->
      unique_links (links (store w1)) /\
      forall l1 l2, In l1 (links (store w1)) -> In l2 (links (store w1)) ->
                    targetUrl l1 = targetUrl l2 -> l1 = l2)).
Proof.
  split.
  - intros S h s s1 s2 url l o H1 H2. unfold Service.createLink.
    cbn. rewrite H1. cbn. rewrite H2. reflexivity.
  - intros orc w url r w1 tr H. apply createLink_world in H.
    destruct H as (G & C & U & Hcases).
    assert (F : exists l, find_by_targetUrl (links (store w1)) url = Some l /\
                          Service.shortCode r = shortCode l /\ Service.targetUrl r = url).
    { destruct Hcases as [(l & F & R & I) | (colls & Fc & _ & [(l & I & R & F) | [(c & l & I & R & F) | (I & R & L)]])].
      - injection R as Er. subst r. exists l. auto.
      - injection R as Er. subst r. exists l. auto.
      - injection R as Er. subst r. exists l. auto.
      - discriminate R. }
    destruct F as (l & F & Ec & Eu).
    split; [exact Eu|]. split; [exists l; auto|]. split.
    + intros orc2 w2 G2.
      pose proof (intrude_grows orc2 (queries w2) (store w2)) as G3.
      assert (F2 : find_by_targetUrl (links (intrude orc2 (queries w2) (store w2))) url = Some l).
      { eapply grows_find_targetUrl; [|exact F]. eapply grows_trans; eassumption. }
      pose proof (find_by_targetUrl_some _ _ _ F) as [_ Et].
      unfold run, Service.createLink. eval_run. rewrite F2. eval_run.
      eexists _, _, l. split.
      { rewrite Ec, Eu, Et. reflexivity. }
      split; [exact F|]. split; [symmetry; exact Ec|]. split; [exact Et|].
      split; [reflexivity|]. split; [reflexivity|]. split; [reflexivity|].
      split; [exact F2|].
      cbn. eapply grows_trans; eassumption.
    + intros Hu. specialize (U Hu). split; [exact U|].
      intros l1 l2 H1 H2 E. destruct U as [Nt _].
      eapply NoDup_map_inj; eassumption.
Qed.

(** C9: a first call creates the Link with code [bbbbbbbb]; a second call
    returns it. *)
Lemma createLink_dedup_witness :
  let R := run Scenario.colliding (Service.createLink "https://example.com/x")
               (Scenario.holding [Scenario.link_a] []) in
  exists w3 tr2 l,
    run Scenario.racing (Service.createLink "https://example.com/x") (snd (fst R)) =
      (Ok {| Service.shortCode := "bbbbbbbb"; Service.targetUrl := "https://example.com/x";
             Service.isNew := false |}, w3, tr2) /\
    find_by_targetUrl (links (store (snd (fst R)))) "https://example.com/x" = Some l /\
    shortCode l = "bbbbbbbb"%string /\ targetUrl l = "https://example.com/x"%string /\
    tr2 = [Ev (link_findUnique_targetUrl "https://example.com/x") (Ok (Some l));
           Ev (logger (ExistingLinkFound "https://example.com/x" (shortCode l))) (Ok tt)] /\
    link_inserts tr2 = [] /\
    store w3 = intrude Scenario.racing (queries (snd (fst R))) (store (snd (fst R))) /\
    find_by_targetUrl (links (store w3)) "https://example.com/x" = Some l /\
    grows (links (store (snd (fst R)))) (links (store w3)).
Proof.
  intros R.
  apply (proj1 (proj2 (proj2 (proj2 createLink_dedup Scenario.colliding
           (Scenario.holding [Scenario.link_a] []) "https://example.com/x"%string
           {| Service.shortCode := "bbbbbbbb"; Service.targetUrl := "https://example.com/x";
              Service.isNew := true |} (snd (fst R)) (snd R) ltac:(vm_compute; reflexivity))))
           Scenario.racing (snd (fst R))).
  apply grows_refl.
Defined.

(** C10.  The [GET /:shortCode] handler, whatever its collaborators
    answer: up to its return it has called neither the validator nor
    [click.create], and when it returns normally the redirect is the last
    thing it did and the recording chain is what it leaves behind,
    unawaited.  That chain never rejects and never touches the response;
    when [recordClick] fails, the chain ends with one log line carrying
    the failure.  Over the whole request the only response is the
    redirect the handler sent. *)
Theorem redirect_before_detached_recording :
  (forall (S : Type) (h : handler S) (s : S) code,
     let '(r, s1, tr) := interp h (Controller.redirect code) s in
     count is_fraud_validate tr = 0%nat /\ click_inserts tr = [] /\
     match r with
     | Ok tasks =>
         tasks = [Controller.record_and_log code] /\
         exists url pre,
           tr = pre ++ [Ev (res_redirect Controller.FOUND url) (Ok tt)] /\
           responses pre = []
     | Err _ => True
     end) /\
  (forall (S : Type) (h : handler S) (s : S) code,
     let '(o, s2, dtr) := interp h (Controller.record_and_log code) s in
     o = Ok tt /\ responses dtr = [] /\
     forall e s' rtr,
       interp h (Service.recordClick code) s = (Err e, s', rtr) ->
       exists lo, dtr = rtr ++ [Ev (logger (FailedToRecordClick code e)) lo]) /\
  (forall (S : Type) (h : handler S) (s : S) code tr os s' dtr,
     Controller.serve h (Controller.redirect code) s = (Ok tt, tr, (os, s', dtr)) ->
     os = [Ok tt] /\
     exists url, responses tr = [(Controller.FOUND, url)] /\
                 responses (tr ++ dtr) = [(Controller.FOUND, url)]).
Proof.
  assert (A : forall (S : Type) (h : handler S) (s : S) code,
     let '(r, s1, tr) := interp h (Controller.redirect code) s in
     count is_fraud_validate tr = 0%nat /\ click_inserts tr = [] /\
     match r with
     | Ok tasks =>
         tasks = [Controller.record_and_log code] /\
         exists url pre,
           tr = pre ++ [Ev (res_redirect Controller.FOUND url) (Ok tt)] /\
           responses pre = []
     | Err _ => True
     end).
  { intros S h s code. unfold Controller.redirect, Service.resolve. cbn.
    destruct (h unit (logger (Redirecting code)) s) as [o0 s0]. cbn.
    destruct (h (option Link) (link_findUnique_shortCode code) s0) as [[[l|]|e] s1]; cbn.
    - destruct (h unit (logger _) s1) as [o s2]. cbn.
      destruct (h unit (res_redirect _ _) s2) as [[[]|e] s3]; cbn; [|auto].
      repeat split.
      exists (targetUrl l),
        [Ev (logger (Redirecting code)) o0;
         Ev (link_findUnique_shortCode code) (Ok (Some l));
         Ev (logger (Resolved code (targetUrl l))) o].
      split; reflexivity.
    - destruct (h unit (logger _) s1) as [o s2]. cbn. auto.
    - auto. }
  assert (B : forall (S : Type) (h : handler S) (s : S) code,
     let '(o, s2, dtr) := interp h (Controller.record_and_log code) s in
     o = Ok tt /\ responses dtr = [] /\
     forall e s' rtr,
       interp h (Service.recordClick code) s = (Err e, s', rtr) ->
       exists lo, dtr = rtr ++ [Ev (logger (FailedToRecordClick code e)) lo]).
  { intros S h s code. rewrite record_and_log_spec.
    pose proof (recordClick_no_response h s code) as NR.
    destruct (interp h (Service.recordClick code) s) as [[[[]|e] s1] tr1]; cbn in NR.
    - split; [reflexivity|]. split; [exact NR|]. intros e s' rtr E. discriminate E.
    - destruct (h unit (logger _) s1) as [o s2].
      split; [reflexivity|]. split.
      + rewrite responses_app, NR. reflexivity.
      + intros e' s' rtr E. injection E as <- <- <-. eexists. reflexivity. }
  split; [exact A|]. split; [exact B|].
  intros S h s code tr os s' dtr H. unfold Controller.serve in H.
  specialize (A S h s code).
  destruct (interp h (Controller.redirect code) s) as [[[tasks|e] s1] tr0]; [|discriminate H].
  destruct A as (_ & _ & -> & url & pre & -> & Hp).
  cbn [Controller.run_detached] in H.
  specialize (B S h s1 code).
  destruct (interp h (Controller.record_and_log code) s1) as [[o s2] dtr0].
  destruct B as (-> & Hd & _).
  injection H as <- <- <- <-.
  split; [reflexivity|]. exists url.
  rewrite !responses_app, Hp, app_nil_r, Hd. cbn. split; reflexivity.
Qed.

(** C10 on a store holding [link_a], a request for its code. *)
Lemma redirect_before_detached_recording_witness :
  let R := Controller.serve (world_handler Scenario.colliding)
             (Controller.redirect "aaaaaaaa") (Scenario.holding [Scenario.link_a] []) in
  fst (fst (snd R)) = [Ok tt] /\
  exists url, responses (snd (fst R)) = [(Controller.FOUND, url)] /\
              responses (snd (fst R) ++ snd (snd R)) = [(Controller.FOUND, url)].
Proof.
  intros R.
  apply (proj2 (proj2 redirect_before_detached_recording) World
           (world_handler Scenario.colliding) (Scenario.holding [Scenario.link_a] [])
           "aaaaaaaa"%string (snd (fst R)) (fst (fst (snd R))) (snd (fst (snd R))) (snd (snd R))).
  vm_compute. reflexivity.
Defined.

(* ===================================================================== *)
(** * Further properties of the implementation *)
(* ===================================================================== *)

(** ** Lookups and the unique indexes *)

Lemma find_by_shortCode_unique ls l :
  NoDup (map shortCode ls) -> In l ls -> find_by_shortCode ls (shortCode l) = Some l.
Proof.
  unfold find_by_shortCode.
  induction ls as [|x ls IH]; intros N H; [destruct H|].
  inversion N as [|? ? Nx N']; subst. simpl.
  destruct H as [->|H].
  - rewrite String.eqb_refl. reflexivity.
  - destruct (String.eqb_spec (shortCode x) (shortCode l)) as [E|_].
    + exfalso. apply Nx. rewrite E. apply in_map, H.
    + apply IH; assumption.
Qed.

(** What [createLink] resolves to is the Link the table holds for the
    target. *)
Lemma createLink_returns_stored orc w url r w1 tr :
  run orc (Service.createLink url) w = (Ok r, w1, tr) ->
  exists l, find_by_targetUrl (links (store w1)) url = Some l /\
            Service.shortCode r = shortCode l /\ Service.targetUrl r = url.
Proof.
  intros H. apply createLink_world in H.
  destruct H as (_ & _ & _ & Hcases).
  destruct Hcases as [(l & F & R & I) | (colls & Fc & _ & [(l & I & R & F) | [(c & l & I & R & F) | (I & R & L)]])].
  - injection R as Er. subst r. exists l. auto.
  - injection R as Er. subst r. exists l. auto.
  - injection R as Er. subst r. exists l. auto.
  - discriminate R.
Qed.

Lemma resolve_world orc w code :
  exists tr,
    run orc (Service.resolve code) w =
    (match find_by_shortCode (links (intrude orc (queries w) (store w))) code with
     | Some l => Ok (targetUrl l)
     | None => Err (NotFoundException "Short link not found")
     end,
     {| store := intrude orc (queries w) (store w); queries := S (queries w);
        codes_drawn := codes_drawn w; validations := validations w |}, tr) /\
    responses tr = [] /\ click_inserts tr = [] /\ link_inserts tr = [].
Proof.
  unfold run, Service.resolve. eval_run.
  destruct (find_by_shortCode _ code); eval_run; eexists; repeat split.
Qed.

(** The Link a target resolves to stays the one its code resolves to. *)
Lemma stored_code_resolves orc w ls l url :
  find_by_targetUrl ls url = Some l ->
  grows ls (links (store w)) ->
  unique_links (links (store w)) ->
  find_by_shortCode (links (intrude orc (queries w) (store w))) (shortCode l) = Some l /\
  targetUrl l = url.
Proof.
  intros F G U.
  pose proof (find_by_targetUrl_some _ _ _ F) as [Hin Hu].
  split; [|exact Hu].
  apply find_by_shortCode_unique.
  - apply (intrude_unique orc (queries w)) in U. apply U.
  - eapply grows_in; [apply intrude_grows|]. eapply grows_in; eassumption.
Qed.

(** The loop of [createLink] when no other writer is active and the
    target is not in the table. *)
Lemma attempts_quiet url orc : quiet orc -> forall n attempt w res w' tr,
  attempt + Z.of_nat n = Service.maxRetries ->
  find_by_targetUrl (links (store w)) url = None ->
  run orc (Service.createLink_attempts n attempt url) w = (res, w', tr) ->
  clicks (store w') = clicks (store w) /\
  match res with
  | Ok r =>
      exists l, links (store w') = links (store w) ++ [l] /\
                r = {| Service.shortCode := shortCode l; Service.targetUrl := url;
                       Service.isNew := true |} /\
                targetUrl l = url /\
                exists k, createdAt l = clock orc k
  | Err _ => links (store w') = links (store w)
  end.
Proof.
  intros Q. induction n as [|n IH]; intros attempt w res w' tr Hn F H.
  - simpl in H. injection H as <- <- <-. auto.
  - unfold run in H. cbn [Service.createLink_attempts] in H.
    rewrite interp_try_catch in H.
    cbn -[insert_link intrude find_by_targetUrl Service.createLink_attempts] in H.
    unfold query in H. cbn -[insert_link intrude find_by_targetUrl Service.createLink_attempts] in H.
    rewrite (intrude_quiet _ _ _ Q) in H.
    pose proof (insert_link_clicks (store w) (gen_code orc (codes_drawn w)) url (clock orc (queries w))) as C1.
    pose proof (insert_link_cases (store w) (gen_code orc (codes_drawn w)) url (clock orc (queries w))) as Cs.
    destruct (insert_link (store w) (gen_code orc (codes_drawn w)) url (clock orc (queries w))) as [r st1] eqn:E.
    cbn [fst snd] in *.
    destruct Cs as [(l & F1 & ->) | [(F1 & l & F2 & ->) | (F1 & F2 & l & -> & Hc & Hu & Hl)]].
    + assert (L1 : links st1 = links (store w)).
      { unfold insert_link in E. rewrite F1 in E. injection E as <-. reflexivity. }
      cbn -[intrude find_by_targetUrl Service.createLink_attempts] in H.
      destruct (attempt =? 2) eqn:A2.
      * cbn in H. injection H as <- <- <-. cbn [store]. split; assumption.
      * apply Z.eqb_neq in A2. unfold Service.maxRetries in Hn.
        destruct (interp (world_handler orc) (Service.createLink_attempts n (attempt + 1) url) _)
          as [[r2 w2] tr2] eqn:R.
        injection H as <- <- <-.
        apply IH in R; [|unfold Service.maxRetries; lia | cbn [store]; rewrite L1; exact F].
        cbn [store] in R. rewrite L1, C1 in R. exact R.
    + congruence.
    + assert (Hk : createdAt l = clock orc (queries w)).
      { unfold insert_link in E. rewrite F1, F2 in E. injection E as <- _. reflexivity. }
      cbn -[intrude find_by_targetUrl Service.createLink_attempts] in H.
      injection H as <- <- <-. cbn [store].
      split; [assumption|]. exists l. rewrite Hc, Hu. eauto.
Qed.

(** [createLink] when it creates, no other writer being active. *)
Lemma createLink_quiet_new orc url w r w' tr :
  quiet orc ->
  run orc (Service.createLink url) w = (Ok r, w', tr) ->
  Service.isNew r = true ->
  exists l k, links (store w') = links (store w) ++ [l] /\
              shortCode l = Service.shortCode r /\ targetUrl l = url /\
              createdAt l = clock orc k.
Proof.
  intros Q H N. unfold run, Service.createLink in H.
  cbn -[intrude find_by_targetUrl Service.createLink_attempts Z.to_nat] in H.
  unfold read, query in H.
  cbn -[intrude find_by_targetUrl Service.createLink_attempts Z.to_nat] in H.
  rewrite (intrude_quiet _ _ _ Q) in H.
  destruct (find_by_targetUrl (links (store w)) url) as [l|] eqn:F.
  - cbn in H. injection H as <- <- <-. discriminate N.
  - cbn -[intrude find_by_targetUrl Service.createLink_attempts Z.to_nat] in H.
    destruct (interp (world_handler orc) (Service.createLink_attempts _ 0 url) _)
      as [[r2 w2] tr2] eqn:R.
    injection H as -> <- <-.
    apply (attempts_quiet url orc Q 3 0) in R; [|reflexivity | exact F].
    cbn [store] in R. destruct R as [_ (l & L & -> & U & k & K)].
    exists l, k. auto.
Qed.

(** ** Where a rejection comes from *)

Lemma rejections_app a b :
  Faults.rejections (a ++ b) = Faults.rejections a ++ Faults.rejections b.
Proof.
  induction a as [|[A c [x|e]] a IH]; simpl; rewrite ?IH; reflexivity.
Qed.

Lemma rethrows_weaken {S R} (h : handler S) (K K' : error -> Prop) (p : prog R) :
  (forall e, K e -> K' e) -> Faults.rethrows h K p -> Faults.rethrows h K' p.
Proof.
  intros HK H s e He. destruct (H s e He) as [k|i]; [left; apply HK, k | right; exact i].
Qed.

Lemma rethrows_ret {S R} (h : handler S) K (r : R) : Faults.rethrows h K (Ret r).
Proof. intros s e He. discriminate He. Qed.

Lemma rethrows_throw {S R} (h : handler S) e : Faults.rethrows h (eq e) (@Throw R e).
Proof. intros s e' He. cbn in He. left. congruence. Qed.

Lemma rethrows_await {S A} (h : handler S) K (c : call A) : Faults.rethrows h K (await c).
Proof.
  intros s e He. right. cbn in *.
  destruct (h A c s) as [[a|e'] s1]; cbn in *; [discriminate|].
  left. congruence.
Qed.

Lemma rethrows_say {S} (h : handler S) K line : Faults.rethrows h K (say line).
Proof.
  intros s e He. cbn in He. destruct (h unit (logger line) s) as [o s1]. discriminate He.
Qed.

Lemma rethrows_bind {S R T} (h : handler S) K (p : prog R) (f : R -> prog T) :
  Faults.rethrows h K p -> (forall a, Faults.rethrows h K (f a)) ->
  Faults.rethrows h K (bind p f).
Proof.
  intros Hp Hf s e. rewrite interp_bind.
  specialize (Hp s). destruct (interp h p s) as [[[a|e1] s1] tr1]; cbn in *.
  - specialize (Hf a s1).
    destruct (interp h (f a) s1) as [[r2 s2] tr2]. cbn in *. intros He.
    destruct (Hf e He) as [k|i]; [left; exact k | right].
    rewrite rejections_app. apply in_or_app. right. exact i.
  - intros He. injection He as <-. apply Hp. reflexivity.
Qed.

Lemma rethrows_try_catch {S R} (h : handler S) K (p : prog R) (c : error -> prog R) :
  Faults.rethrows h K p ->
  (forall e, Faults.rethrows h (fun x => K x \/ x = e) (c e)) ->
  Faults.rethrows h K (try_catch p c).
Proof.
  intros Hp Hc s e. rewrite interp_try_catch.
  specialize (Hp s). destruct (interp h p s) as [[[a|e1] s1] tr1]; cbn in *.
  - intros He. discriminate He.
  - specialize (Hc e1 s1).
    destruct (interp h (c e1) s1) as [[r2 s2] tr2]. cbn in *. intros He.
    rewrite rejections_app.
    destruct (Hc e He) as [[k| ->]|i].
    + left. exact k.
    + destruct (Hp e1 eq_refl) as [k|i]; [left; exact k | right].
      apply in_or_app. left. exact i.
    + right. apply in_or_app. right. exact i.
Qed.

Lemma attempts_rethrows {S} (h : handler S) url : forall n attempt,
  attempt + Z.of_nat n = Service.maxRetries -> n <> O ->
  Faults.rethrows h (fun _ => False) (Service.createLink_attempts n attempt url).
Proof.
  induction n as [|n IH]; intros attempt Hn Hz; [congruence|].
  cbn [Service.createLink_attempts].
  assert (Coll : forall e,
    Faults.rethrows h (fun x => False \/ x = e)
      (bind (say (ShortCodeCollision (attempt + 1) Service.maxRetries))
         (fun _ => if attempt =? Service.maxRetries - 1 then Throw e
                   else Service.createLink_attempts n (attempt + 1) url))).
  { intros e. apply rethrows_bind; [apply rethrows_say|]. intros _.
    destruct (attempt =? Service.maxRetries - 1) eqn:A.
    - eapply rethrows_weaken; [|apply rethrows_throw]. intros x <-. right. reflexivity.
    - apply Z.eqb_neq in A. unfold Service.maxRetries in *.
      eapply rethrows_weaken; [|apply IH; [lia|]].
      + intros x [].
      + intros ->. simpl in Hn. lia. }
  apply rethrows_try_catch.
  - apply rethrows_bind; [apply rethrows_await|]. intros code.
    apply rethrows_bind; [apply rethrows_await|]. intros link.
    apply rethrows_bind; [apply rethrows_say|]. intros _. apply rethrows_ret.
  - intros e. destruct (Service.is_P2002 e).
    + destruct (Service.target_includes e "target_url").
      * apply rethrows_bind; [apply rethrows_await|]. intros [existing|].
        -- apply rethrows_bind; [apply rethrows_say|]. intros _. apply rethrows_ret.
        -- apply Coll.
      * apply Coll.
    + eapply rethrows_weaken; [|apply rethrows_throw]. intros x <-. right. reflexivity.
Qed.

(** The loop against a database that rejects every insert with the same
    conflict and shows no row for the target. *)
Lemma attempts_exhaust {S} (h : handler S) url e :
  (forall s, fst (h _ (link_findUnique_targetUrl url) s) = Ok None) ->
  (forall s, exists code, fst (h _ (nanoid 8) s) = Ok code) ->
  (forall s code, fst (h _ (link_create code url) s) = Err e) ->
  Service.is_P2002 e = true ->
  forall n attempt s,
    attempt + Z.of_nat n = Service.maxRetries -> n <> O ->
    let R := interp h (Service.createLink_attempts n attempt url) s in
    fst (fst R) = Err e /\
    List.length (link_inserts (snd R)) = n /\
    Forall (fun x => snd x = Err e) (link_inserts (snd R)) /\
    Faults.lookups_by_url (snd R) =
      (if Service.target_includes e "target_url" then n else O).
Proof.
  intros Hf Hg Hc HP.
  induction n as [|n IH]; intros attempt s Hn Hz; [congruence|].
  cbn zeta. cbn [Service.createLink_attempts]. rewrite interp_try_catch.
  cbn -[Service.createLink_attempts Service.is_P2002 Service.target_includes].
  destruct (Hg s) as [code Hcode].
  destruct (h string (nanoid 8) s) as [o1 s1]. cbn in Hcode. subst o1.
  cbn -[Service.createLink_attempts Service.is_P2002 Service.target_includes].
  specialize (Hc s1 code).
  destruct (h Link (link_create code url) s1) as [o2 s2]. cbn in Hc. subst o2.
  cbn -[Service.createLink_attempts Service.is_P2002 Service.target_includes].
  rewrite HP.
  assert (Coll : forall s',
    let R := interp h
      (bind (say (ShortCodeCollision (attempt + 1) Service.maxRetries))
         (fun _ => if attempt =? Service.maxRetries - 1 then Throw e
                   else Service.createLink_attempts n (attempt + 1) url)) s' in
    fst (fst R) = Err e /\
    List.length (link_inserts (snd R)) = n /\
    Forall (fun x => snd x = Err e) (link_inserts (snd R)) /\
    Faults.lookups_by_url (snd R) =
      (if Service.target_includes e "target_url" then n else O)).
  { intros s'. cbn -[Service.createLink_attempts Service.target_includes].
    destruct (h unit (logger _) s') as [o3 s3].
    destruct (attempt =? 2) eqn:A.
    - apply Z.eqb_eq in A. unfold Service.maxRetries in Hn.
      assert (n = O) by lia. subst n. cbn -[Service.target_includes].
      repeat split; [constructor|]. destruct (Service.target_includes _ _); reflexivity.
    - apply Z.eqb_neq in A. unfold Service.maxRetries in Hn.
      assert (Hn' : n <> O) by lia.
      specialize (IH (attempt + 1) s3 ltac:(unfold Service.maxRetries; lia) Hn').
      cbn zeta in IH.
      destruct (interp h (Service.createLink_attempts n (attempt + 1) url) s3) as [[r4 s4] tr4].
      cbn -[Service.target_includes] in *. exact IH. }
  assert (Fin : forall s' pre,
    link_inserts pre = [] ->
    let R := interp h
      (bind (say (ShortCodeCollision (attempt + 1) Service.maxRetries))
         (fun _ => if attempt =? Service.maxRetries - 1 then Throw e
                   else Service.createLink_attempts n (attempt + 1) url)) s' in
    fst (fst R) = Err e /\
    List.length (link_inserts (Ev (link_create code url) (@Err Link e) :: pre ++ snd R)) = Datatypes.S n /\
    Forall (fun x => snd x = Err e)
           (link_inserts (Ev (link_create code url) (@Err Link e) :: pre ++ snd R)) /\
    Faults.lookups_by_url (snd R) =
      (if Service.target_includes e "target_url" then n else O)).
  { intros s' pre Hpre. specialize (Coll s'). cbn zeta in *.
    destruct (interp h _ s') as [[r5 s5] tr5]. cbn [fst snd] in *.
    destruct Coll as (C1 & C2 & C3 & C4).
    assert (E : link_inserts (pre ++ tr5) = link_inserts tr5).
    { clear - Hpre. induction pre as [|[A c o] pre IH]; [reflexivity|].
      destruct c; cbn in *; try discriminate; apply IH; assumption. }
    cbn [link_inserts]. rewrite E.
    split; [exact C1|]. split; [cbn; congruence|].
    split; [constructor; [reflexivity | exact C3] | exact C4]. }
  clear Coll.
  destruct (Service.target_includes e "target_url") eqn:T.
  - cbn -[Service.createLink_attempts].
    specialize (Hf s2).
    destruct (h (option Link) (link_findUnique_targetUrl url) s2) as [o4 s4].
    cbn in Hf. subst o4.
    specialize (Fin s4 [Ev (link_findUnique_targetUrl url) (Ok None)] eq_refl).
    revert Fin. cbn -[Service.createLink_attempts].
    destruct (h unit (logger _) s4) as [o5 s5].
    destruct (attempt =? 2).
    + cbn. intros (C1 & C2 & C3 & C4). repeat split; try assumption;
        unfold Faults.lookups_by_url, count in *; cbn in *; congruence.
    + destruct (interp h (Service.createLink_attempts n (attempt + 1) url) s5)
        as [[r6 s6] tr6].
      cbn. intros (C1 & C2 & C3 & C4). repeat split; try assumption;
        unfold Faults.lookups_by_url, count in *; cbn in *; congruence.
  - specialize (Fin s2 [] eq_refl).
    revert Fin. cbn -[Service.createLink_attempts].
    destruct (h unit (logger _) s2) as [o5 s5].
    destruct (attempt =? 2).
    + cbn. intros (C1 & C2 & C3 & C4). repeat split; try assumption.
    + destruct (interp h (Service.createLink_attempts n (attempt + 1) url) s5)
        as [[r6 s6] tr6].
      cbn. intros (C1 & C2 & C3 & C4). repeat split; try assumption.
Qed.

(** ** The constraints of the schema *)

Lemma NoDup_map_snoc {A B} (f : A -> B) l x :
  NoDup (map f l) -> ~ In (f x) (map f l) -> NoDup (map f (l ++ [x])).
Proof.
  induction l as [|y l IH]; simpl; intros N Hx.
  - constructor; [intros [] | constructor].
  - inversion N as [|? ? Ny N']; subst. constructor.
    + rewrite map_app, in_app_iff. simpl. intros [H|[H|[]]]; [exact (Ny H)|].
      apply Hx. left. symmetry. exact H.
    + apply IH; [exact N'|]. intros H. apply Hx. right. exact H.
Qed.

Lemma find_by_id_some ls i l : find_by_id ls i = Some l -> In l ls /\ id l = i.
Proof.
  unfold find_by_id. intros H. apply find_some in H. destruct H as [H E].
  split; [exact H | apply Z.eqb_eq, E].
Qed.

Lemma insert_link_holds st code url now :
  Schema.holds st -> Schema.holds (snd (insert_link st code url now)).
Proof.
  intros ((Ln & Lb) & Cp & U & Fk).
  pose proof (insert_link_unique st code url now U) as U'.
  assert (Bump : forall l, In l (links st) -> id l <= links_id_seq st + 1).
  { intros l H. specialize (Lb l H). lia. }
  unfold insert_link in *.
  destruct (find_by_shortCode (links st) code).
  { cbn in *. split; [split; assumption|]. split; [exact Cp|]. split; assumption. }
  destruct (find_by_targetUrl (links st) url).
  { cbn in *. split; [split; assumption|]. split; [exact Cp|]. split; assumption. }
  cbn in *. split; [split|split; [exact Cp|split; [exact U'|]]].
  - apply NoDup_map_snoc; [exact Ln|]. cbn. intros H.
    apply in_map_iff in H. destruct H as (l0 & E & H). specialize (Lb l0 H). lia.
  - intros l H. apply in_app_iff in H. destruct H as [H|[<-|[]]]; [apply Bump, H|].
    cbn. lia.
  - intros c H. destruct (Fk c H) as (l & Hl & E).
    exists l. split; [apply in_or_app; left; exact Hl | exact E].
Qed.

Lemma insert_click_holds st lid valid credit now :
  Schema.holds st -> Schema.holds (snd (insert_click st lid valid credit now)).
Proof.
  intros (Lp & (Cn & Cb) & U & Fk).
  assert (Bump : forall c, In c (clicks st) -> click_id c <= clicks_id_seq st + 1).
  { intros c H. specialize (Cb c H). lia. }
  unfold insert_click.
  destruct (find_by_id (links st) lid) as [l0|] eqn:F.
  - apply find_by_id_some in F. destruct F as [Hin Hid].
    cbn. split; [exact Lp|]. split; [split|split; [exact U|]].
    + apply NoDup_map_snoc; [exact Cn|]. cbn. intros H.
      apply in_map_iff in H. destruct H as (c0 & E & H). specialize (Cb c0 H). lia.
    + intros c H. apply in_app_iff in H. destruct H as [H|[<-|[]]]; [apply Bump, H|].
      cbn. lia.
    + intros c H. apply in_app_iff in H. destruct H as [H|[<-|[]]]; [apply Fk, H|].
      exists l0. cbn. auto.
  - cbn. split; [exact Lp|]. split; [split; assumption|]. split; assumption.
Qed.

Lemma intrude_holds orc n st : Schema.holds st -> Schema.holds (intrude orc n st).
Proof.
  unfold intrude. generalize (intruders orc n) as l. intros l. revert st.
  induction l as [|[c u] l IH]; intros st H; simpl.
  - exact H.
  - apply IH, insert_link_holds, H.
Qed.

Lemma world_handler_holds orc A (c : call A) w :
  Schema.holds (store w) -> Schema.holds (store (snd (world_handler orc A c w))).
Proof.
  intros H. pose proof (intrude_holds orc (queries w) (store w) H) as H1.
  destruct c as [| |code url| | |lid valid credit| | | | | |];
    cbn -[intrude insert_link insert_click]; unfold read, query;
    cbn -[intrude insert_link insert_click]; try assumption.
  - pose proof (insert_link_holds (intrude orc (queries w) (store w))
                  code url (clock orc (queries w)) H1) as H2.
    destruct (insert_link _ _ _ _) as [r st']. exact H2.
  - pose proof (insert_click_holds (intrude orc (queries w) (store w))
                  lid valid credit (clock orc (queries w)) H1) as H2.
    destruct (insert_click _ _ _ _ _) as [r st']. exact H2.
Qed.

Lemma interp_invariant {S R} (h : handler S) (I : S -> Prop) :
  (forall A (c : call A) s, I s -> I (snd (h A c s))) ->
  forall (p : prog R) s, I s -> I (snd (fst (interp h p s))).
Proof.
  intros Hh. induction p as [r|e|A c k IH]; intros s Hs; cbn; try assumption.
  specialize (Hh A c s Hs). destruct (h A c s) as [o s1]. cbn in Hh.
  specialize (IH o s1 Hh). destruct (interp h (k o) s1) as [[r s2] tr]. exact IH.
Qed.

(** ** A Link that was just created *)

Lemma createLink_new orc w url r w' tr :
  run orc (Service.createLink url) w = (Ok r, w', tr) ->
  Service.isNew r = true ->
  find_by_targetUrl (links (store w)) url = None /\
  exists l, find_by_targetUrl (links (store w')) url = Some l /\
            Service.shortCode r = shortCode l.
Proof.
  intros H N. unfold run, Service.createLink in H.
  cbn -[intrude find_by_targetUrl Service.createLink_attempts Z.to_nat] in H.
  unfold read, query in H.
  cbn -[intrude find_by_targetUrl Service.createLink_attempts Z.to_nat] in H.
  pose proof (intrude_grows orc (queries w) (store w)) as G0.
  destruct (find_by_targetUrl (links (intrude orc (queries w) (store w))) url) as [l|] eqn:F.
  - cbn in H. injection H as <- <- <-. discriminate N.
  - cbn -[intrude find_by_targetUrl Service.createLink_attempts Z.to_nat] in H.
    destruct (interp (world_handler orc) (Service.createLink_attempts _ 0 url) _)
      as [[r2 w2] tr2] eqn:R.
    injection H as -> <- <-.
    apply (attempts_world url orc 3 0) in R; [|reflexivity]. cbn [store] in R.
    destruct R as (_ & _ & _ & colls & _ & _ & Hcases).
    split; [eapply grows_find_targetUrl_none; eassumption|].
    destruct Hcases as [(l' & I & Rs & _ & Fs) | [(code & l' & I & Rs & Fs) | (e & I & Rs & _)]].
    + injection Rs as ->. exists l'. auto.
    + injection Rs as ->. discriminate N.
    + discriminate Rs.
Qed.

Lemma find_none_not_in ls url l :
  find_by_targetUrl ls url = None -> targetUrl l = url -> ~ In l ls.
Proof.
  intros F E H. unfold find_by_targetUrl in F.
  apply (find_none _ _ F) in H. rewrite E, String.eqb_refl in H. discriminate.
Qed.

Lemma NoDup_map_app_fresh {A B} (f : A -> B) l extra x :
  NoDup (map f (l ++ extra)) -> In x extra -> ~ In (f x) (map f l).
Proof.
  induction l as [|y l IH]; simpl; intros N Hx; [intros []|].
  inversion N as [|? ? Ny N']; subst. intros [E|H].
  - apply Ny. rewrite E. apply in_map, in_or_app. right. exact Hx.
  - exact (IH N' Hx H).
Qed.

(** No Click refers to a Link that came later than every Click. *)
Lemma later_link_unclicked ls ls' cs l :
  grows ls ls' -> NoDup (map id ls') -> In l ls' -> ~ In l ls ->
  (forall c, In c cs -> exists l0, In l0 ls /\ id l0 = linkId c) ->
  clicks_of cs (id l) = [].
Proof.
  intros [extra ->] N Hin Hnot Fk.
  assert (Hx : In l extra).
  { apply in_app_iff in Hin. destruct Hin as [H|H]; [contradiction | exact H]. }
  pose proof (NoDup_map_app_fresh id ls extra l N Hx) as Fresh.
  unfold clicks_of. induction cs as [|c cs IH]; [reflexivity|]. simpl.
  destruct (Z.eqb_spec (linkId c) (id l)) as [E|_].
  - exfalso. destruct (Fk c (or_introl eq_refl)) as (l0 & H0 & E0).
    apply Fresh. rewrite <- E, <- E0. apply in_map, H0.
  - apply IH. intros c' H. apply Fk. right. exact H.
Qed.

(** ** One more Click *)

Lemma sum_credit_app a b : sum_credit (a ++ b) = sum_credit a + sum_credit b.
Proof.
  unfold sum_credit. induction a as [|c a IH]; simpl; [reflexivity|]. rewrite IH. lia.
Qed.

Lemma aggregate_clicks_snoc cs c lid :
  aggregate_clicks (cs ++ [c]) lid =
  if lid =? linkId c
  then (fst (aggregate_clicks cs lid) + 1, Some (exact_total cs lid + earnedCredit c))
  else aggregate_clicks cs lid.
Proof.
  unfold aggregate_clicks, exact_total, clicks_of. rewrite filter_app. cbn [filter fst].
  rewrite (Z.eqb_sym lid). destruct (linkId c =? lid).
  - rewrite length_app, sum_credit_app. cbn [List.length sum_credit fold_right].
    f_equal; [lia|].
    destruct (filter _ cs); cbn; f_equal; lia.
  - rewrite app_nil_r. reflexivity.
Qed.

Lemma grows_find_shortCode ls ls' code l :
  grows ls ls' -> find_by_shortCode ls code = Some l -> find_by_shortCode ls' code = Some l.
Proof.
  intros [x ->] H. unfold find_by_shortCode in *. rewrite find_app, H. reflexivity.
Qed.

(** ** The months partition the Clicks of a Link *)

Lemma sum_add {A} (f g : A -> Z) l :
  fold_right Z.add 0 (map (fun x => f x + g x) l) =
  fold_right Z.add 0 (map f l) + fold_right Z.add 0 (map g l).
Proof. induction l as [|x l IH]; simpl; [reflexivity|]. rewrite IH. lia. Qed.

Lemma sum_indicator_absent ms k v :
  ~ In k ms -> fold_right Z.add 0 (map (fun m => if ts_eqb k m then v else 0) ms) = 0.
Proof.
  induction ms as [|m ms IH]; simpl; intros H; [reflexivity|].
  destruct (ts_eqb k m) eqn:E.
  - exfalso. apply H. left. symmetry. apply ts_eqb_eq, E.
  - rewrite IH; [reflexivity|]. intros H'. apply H. right. exact H'.
Qed.

Lemma sum_indicator ms k v :
  NoDup ms -> In k ms ->
  fold_right Z.add 0 (map (fun m => if ts_eqb k m then v else 0) ms) = v.
Proof.
  induction ms as [|m ms IH]; simpl; intros N H; [destruct H|].
  inversion N as [|? ? Nm N']; subst.
  destruct H as [->|H].
  - rewrite ts_eqb_refl, sum_indicator_absent by exact Nm. lia.
  - destruct (ts_eqb k m) eqn:E.
    + apply ts_eqb_eq in E. subst m. contradiction.
    + rewrite IH by assumption. reflexivity.
Qed.

Lemma earlier_NoDup ms : StronglySorted earlier ms -> NoDup ms.
Proof.
  induction 1 as [|m ms Hs IH Hm]; constructor; [|exact IH].
  intros H. rewrite Forall_forall in Hm. specialize (Hm m H).
  unfold earlier in Hm. pose proof (ts_ltb_asym _ _ Hm). congruence.
Qed.

Lemma months_partition (wt : Click -> Z) ms g :
  NoDup ms ->
  (forall c, In c g -> In (date_trunc_month (clickedAt c)) ms) ->
  fold_right Z.add 0
    (map (fun m => fold_right (fun c acc => wt c + acc) 0 (filter (in_month m) g)) ms) =
  fold_right (fun c acc => wt c + acc) 0 g.
Proof.
  intros N. induction g as [|c g IH]; intros H.
  - simpl. clear N H. induction ms as [|m ms IHm]; simpl; auto.
  - rewrite (map_ext _
      (fun m => (if ts_eqb (date_trunc_month (clickedAt c)) m then wt c else 0)
                + fold_right (fun c acc => wt c + acc) 0 (filter (in_month m) g))).
    + rewrite sum_add, sum_indicator; [|exact N | apply H; left; reflexivity].
      rewrite IH; [reflexivity|]. intros c' Hc. apply H. right. exact Hc.
    + intros m. simpl. unfold in_month at 1.
      destruct (ts_eqb (date_trunc_month (clickedAt c)) m); simpl; lia.
Qed.

Lemma length_as_sum {A} (l : list A) :
  Z.of_nat (List.length l) = fold_right (fun _ acc => 1 + acc) 0 l.
Proof.
  induction l as [|x l IH]; cbn [List.length fold_right]; [reflexivity|].
  rewrite Nat2Z.inj_succ, IH. lia.
Qed.

Lemma monthly_rows_add_up cs lid :
  fold_right Z.add 0 (map row_clicks (monthly_clicks cs lid)) =
    Z.of_nat (List.length (clicks_of cs lid)) /\
  fold_right Z.add 0 (map row_earnings (monthly_clicks cs lid)) =
    sum_credit (clicks_of cs lid).
Proof.
  unfold monthly_clicks. rewrite !map_map. cbn [row_clicks row_earnings].
  pose proof (earlier_NoDup _ (months_of_sorted (clicks_of cs lid))) as N.
  assert (Hin : forall c, In c (clicks_of cs lid) ->
                          In (date_trunc_month (clickedAt c)) (months_of (clicks_of cs lid))).
  { intros c H. apply In_months_of. exists c. auto. }
  split.
  - rewrite (map_ext _ (fun m => fold_right (fun (_ : Click) acc => 1 + acc) 0
                                   (filter (in_month m) (clicks_of cs lid)))).
    + rewrite (months_partition (fun _ => 1)) by assumption.
      symmetry. apply length_as_sum.
    + intros m. apply length_as_sum.
  - apply (months_partition earnedCredit); assumption.
Qed.

(** ** [getStats] only reads *)

Lemma count_app f a b : count f (a ++ b) = (count f a + count f b)%nat.
Proof. unfold count. rewrite filter_app, length_app. reflexivity. Qed.

Section Reads.
Variable f : event -> bool.
Hypothesis f_findMany : forall skip take o, f (Ev (link_findMany skip take) o) = false.
Hypothesis f_count : forall o, f (Ev link_count o) = false.
Hypothesis f_aggregate : forall lid o, f (Ev (click_aggregate lid) o) = false.
Hypothesis f_monthly : forall lid o, f (Ev (queryRaw_monthly lid) o) = false.

Lemma link_stats_reads {S} (h : handler S) l s :
  count f (snd (interp h (Service.link_stats l) s)) = 0%nat.
Proof.
  unfold Service.link_stats. cbn -[Service.stats_item].
  destruct (h _ (click_aggregate (id l)) s) as [[a|e] s1]; cbn -[Service.stats_item].
  - destruct (h _ (queryRaw_monthly (id l)) s1) as [[m|e] s2];
      unfold count; cbn -[Service.stats_item];
      rewrite f_aggregate, f_monthly; reflexivity.
  - unfold count. cbn. rewrite f_aggregate. reflexivity.
Qed.

Lemma for_each_link_stats_reads {S} (h : handler S) : forall ls s,
  count f (snd (interp h (for_each Service.link_stats ls) s)) = 0%nat.
Proof.
  induction ls as [|l ls IH]; intros s; [reflexivity|].
  cbn [for_each]. rewrite interp_bind.
  pose proof (link_stats_reads h l s) as H1.
  destruct (interp h (Service.link_stats l) s) as [[[y|e] s1] tr1]; cbn [snd] in *;
    [|exact H1].
  rewrite interp_bind. specialize (IH s1).
  destruct (interp h (for_each Service.link_stats ls) s1) as [[[ys|e] s2] tr2];
    cbn [snd interp] in *; rewrite ?count_app, H1, IH; reflexivity.
Qed.

Lemma getStats_reads {S} (h : handler S) page limit s :
  count f (snd (interp h (Service.getStats page limit) s)) = 0%nat.
Proof.
  unfold Service.getStats.
  cbn -[for_each Service.link_stats JS.Math_ceil JS.div_int].
  destruct (h _ (link_findMany ((page - 1) * limit) limit) s) as [[ls|e] s1];
    cbn -[for_each Service.link_stats JS.Math_ceil JS.div_int];
    [|unfold count; cbn; rewrite f_findMany; reflexivity].
  destruct (h _ link_count s1) as [[n|e] s2];
    cbn -[for_each Service.link_stats JS.Math_ceil JS.div_int];
    [|unfold count; cbn; rewrite f_findMany, f_count; reflexivity].
  rewrite interp_bind.
  pose proof (for_each_link_stats_reads h ls s2) as H.
  destruct (interp h (for_each Service.link_stats ls) s2) as [[[ys|e] s3] tr3];
    cbn -[JS.Math_ceil JS.div_int] in *;
    unfold count in *; cbn -[JS.Math_ceil JS.div_int];
    rewrite f_findMany, f_count, ?app_nil_r; exact H.
Qed.
End Reads.

(** A run that writes nothing leaves the store alone when no other
    writer is active. *)
Lemma quiet_reads_keep_store orc (Q : quiet orc) {R} : forall (p : prog R) w,
  count is_write (snd (run orc p w)) = 0%nat ->
  store (snd (fst (run orc p w))) = store w.
Proof.
  unfold run. induction p as [r|e|A c k IH]; intros w H; cbn; try reflexivity.
  cbn in H.
  assert (Hc : is_write (Ev c (fst (world_handler orc A c w))) = false ->
               store (snd (world_handler orc A c w)) = store w).
  { destruct c; cbn -[intrude]; unfold read, query; cbn -[intrude];
      rewrite ?(intrude_quiet _ _ _ Q); try reflexivity; discriminate. }
  destruct (world_handler orc A c w) as [o w1]. cbn [fst snd] in Hc.
  specialize (IH o w1).
  destruct (interp (world_handler orc) (k o) w1) as [[r w2] tr]. cbn [fst snd] in *.
  unfold count in H. cbn [filter] in H.
  destruct (is_write (Ev c o)); [discriminate H|].
  rewrite IH by exact H. apply Hc. reflexivity.
Qed.

(** ** Pages *)

Lemma firstn_plus {A} a b (l : list A) :
  firstn (a + b) l = firstn a l ++ firstn b (skipn a l).
Proof.
  revert l. induction a as [|a IH]; intros l; [reflexivity|].
  destruct l as [|x l]; simpl.
  - rewrite firstn_nil. reflexivity.
  - rewrite IH. reflexivity.
Qed.

Lemma pages_concat {A} (s : list A) L n :
  List.concat (map (fun p => firstn L (skipn ((p - 1) * L) s)) (seq 1 n)) = firstn (n * L) s.
Proof.
  induction n as [|n IH]; [reflexivity|].
  rewrite seq_S, map_app, concat_app, IH. cbn [map List.concat].
  rewrite app_nil_r. replace (1 + n - 1)%nat with n by lia.
  replace (S n * L)%nat with (n * L + L)%nat by lia.
  symmetry. apply firstn_plus.
Qed.

Lemma stats_item_codes cs ls :
  map Dto.shortCode
      (map (fun l => Service.stats_item l (aggregate_clicks cs (id l))
                                          (monthly_clicks cs (id l))) ls) =
  map shortCode ls.
Proof. rewrite map_map. reflexivity. Qed.

Lemma page_codes_quiet refusal orc w limit n p :
  quiet orc -> 1 <= limit -> Z.of_nat n * limit < 2 ^ 53 -> (1 <= p <= n)%nat ->
  (exists r w' tr,
     interp (Prisma.client refusal orc) (Service.getStats (Z.of_nat p) limit) w
       = (Ok r, w', tr)) /\
  Observe.page_codes refusal orc w limit p =
  map shortCode (firstn (Z.to_nat limit)
                   (skipn ((p - 1) * Z.to_nat limit)
                      (order_by_createdAt_desc (links (store w))))).
Proof.
  intros Q Hl Hn Hp. unfold Observe.page_codes.
  assert (Ha : Prisma.accepts ((Z.of_nat p - 1) * limit) limit = true).
  { unfold Prisma.accepts, Prisma.Int_max.
    change (2 ^ 53) with 9007199254740992 in *.
    change (2 ^ 63) with 9223372036854775808.
    rewrite !andb_true_iff, !Z.leb_le. nia. }
  rewrite (getStats_client refusal orc w (Z.of_nat p) limit Ha) by lia.
  destruct (getStats_run orc w (Z.of_nat p) limit) as (w' & tr & R & _).
  rewrite R. split; [eexists _, _, _; reflexivity|].
  cbn [fst Dto.data]. rewrite stats_item_codes.
  rewrite (intrude_quiet _ _ _ Q). unfold list_links.
  replace (Z.to_nat ((Z.of_nat p - 1) * limit)) with ((p - 1) * Z.to_nat limit)%nat
    by (rewrite Z2Nat.inj_mul by lia; lia).
  reflexivity.
Qed.

(** Where no two Links were created at the same time the listing is
    strictly ordered. *)
Lemma sorted_strict s :
  StronglySorted not_older s -> NoDup (map createdAt s) ->
  StronglySorted Observe.newer s.
Proof.
  induction 1 as [|a s Hs IH Ha]; intros N; constructor.
  - apply IH. inversion N; assumption.
  - inversion N as [|? ? Na N']; subst.
    rewrite Forall_forall in *. intros b Hb. specialize (Ha b Hb).
    unfold Observe.newer. unfold not_older in Ha.
    destruct (ts_eqb (createdAt a) (createdAt b)) eqn:E.
    + exfalso. apply ts_eqb_eq in E. apply Na. rewrite E. apply in_map, Hb.
    + apply ts_ltb_total; assumption.
Qed.

(** A Link created after all the others is the first of the listing. *)
Lemma order_newest_first ls l :
  (forall x, In x ls -> ts_ltb (createdAt x) (createdAt l) = true) ->
  order_by_createdAt_desc (ls ++ [l]) = l :: order_by_createdAt_desc ls.
Proof.
  unfold order_by_createdAt_desc. rewrite fold_right_app. cbn [fold_right insert_desc].
  induction ls as [|x ls IH]; intros H; [reflexivity|].
  cbn [fold_right]. rewrite IH by (intros y Hy; apply H; right; exact Hy).
  cbn [insert_desc]. rewrite (H x (or_introl eq_refl)). reflexivity.
Qed.

(** ** The redirect handler on the store *)

Lemma redirect_world orc w code :
  let st1 := intrude orc (queries w) (store w) in
  let w1 := {| store := st1; queries := S (queries w);
               codes_drawn := codes_drawn w; validations := validations w |} in
  exists tr,
    interp (world_handler orc) (Controller.redirect code) w =
      (match find_by_shortCode (links st1) code with
       | Some l => Ok [Controller.record_and_log code]
       | None => Err (NotFoundException "Short link not found")
       end, w1, tr) /\
    responses tr = match find_by_shortCode (links st1) code with
                   | Some l => [(Controller.FOUND, targetUrl l)]
                   | None => []
                   end /\
    click_inserts tr = [] /\ count is_fraud_validate tr = 0%nat.
Proof.
  cbn zeta. unfold Controller.redirect, Service.resolve.
  cbn -[intrude find_by_shortCode Controller.record_and_log].
  unfold read, query. cbn -[intrude find_by_shortCode Controller.record_and_log].
  destruct (find_by_shortCode _ code);
    cbn -[intrude Controller.record_and_log]; eexists; repeat split.
Qed.

(** ** The handler of [POST /links] *)

Lemma post_links_run {S} (h : handler S) env url s :
  interp h (Handlers.work (Handlers.createLink env url)) s =
  let '(r, s1, tr) := interp h (Service.createLink url) s in
  (match r with
   | Ok result =>
       Ok {| Handlers.status := if Service.isNew result then Handlers.CREATED
                                else Handlers.OK;
             Handlers.json :=
               {| Handlers.shortUrl :=
                    (Handlers.baseUrl env ++ "/" ++ Service.shortCode result)%string;
                  Handlers.targetUrl := Service.targetUrl result |} |}
   | Err e => Err e
   end, s1, tr).
Proof.
  unfold Handlers.createLink. cbn [Handlers.work]. rewrite interp_bind.
  destruct (interp h (Service.createLink url) s) as [[[result|e] s1] tr]; [|reflexivity].
  cbn. rewrite app_nil_r. reflexivity.
Qed.

Lemma has_slash_app a b :
  Client.has_slash (a ++ b) = Client.has_slash a || Client.has_slash b.
Proof.
  induction a as [|c a IH]; simpl; [reflexivity|]. rewrite IH, orb_assoc. reflexivity.
Qed.

Lemma last_segment_after_slash base code :
  Client.has_slash code = false ->
  Client.last_segment (base ++ "/" ++ code) = code.
Proof.
  intros H. induction base as [|c base IH]; simpl.
  - rewrite H. reflexivity.
  - rewrite has_slash_app. simpl. rewrite orb_true_r. exact IH.
Qed.

(** ** More stores of the examples *)

Lemma holding_a_dated_holds :
  Schema.holds (store (Scenario.holding [Scenario.link_a] Scenario.three_dated)).
Proof.
  split; [|split; [|split]].
  - split; [repeat constructor; cbn; intuition discriminate|].
    intros l [<-|[]]. cbn. lia.
  - split; [repeat constructor; cbn; intuition discriminate|].
    intros c H. cbn in H. repeat (destruct H as [<-|H]; [cbn; lia|]). destruct H.
  - split; repeat constructor; cbn; intuition discriminate.
  - intros c H. exists Scenario.link_a. split; [left; reflexivity|].
    cbn in H. repeat (destruct H as [<-|H]; [reflexivity|]). destruct H.
Qed.

Lemma two_links_unique :
  unique_links
    (links (store (snd (fst (run Scenario.colliding
                              (Service.createLink "https://example.com/x")
                              (Scenario.holding [Scenario.link_a] [])))))).
Proof.
  vm_compute. split; repeat constructor; cbn; intuition discriminate.
Qed.

Lemma two_links_without_slash l :
  In l (links (store (snd (fst (run Scenario.colliding
                                  (Service.createLink "https://example.com/x")
                                  (Scenario.holding [Scenario.link_a] [])))))) ->
  Client.has_slash (shortCode l) = false.
Proof.
  vm_compute. intros [<-|[<-|[]]]; reflexivity.
Qed.
Lemma NoDup_map_of_inj {A B} (f : A -> B) l :
  (forall x y, f x = f y -> x = y) -> NoDup l -> NoDup (map f l).
Proof.
  intros Hf. induction 1 as [|x l Hx N IH]; simpl; constructor; [|exact IH].
  intros H. apply in_map_iff in H. destruct H as (y & E & Hy).
  apply Hf in E. subst y. contradiction.
Qed.

Lemma forty_two_distinct :
  NoDup (map createdAt (links (store (Scenario.holding Scenario.forty_two [])))).
Proof.
  cbn [Scenario.holding Scenario.world_of store links].
  unfold Scenario.forty_two. rewrite map_map. cbn [createdAt].
  apply NoDup_map_of_inj; [|apply seq_NoDup].
  intros i j E. injection E as E. lia.
Qed.

(** ** The properties *)

(** X1.  [createLink] followed by [resolve]: the short code [createLink] resolved
    to is, in every later state of [links] that keeps the unique indexes
    and whatever the other writers do, resolved by [resolve] to the very
    target the Link was asked for. *)
Theorem createLink_then_resolve orc url w r w1 tr orc2 w2 :
  run orc (Service.createLink url) w = (Ok r, w1, tr) ->
  grows (links (store w1)) (links (store w2)) ->
  unique_links (links (store w2)) ->
  Service.targetUrl r = url /\
  fst (fst (run orc2 (Service.resolve (Service.shortCode r)) w2)) = Ok url.
Proof.
  intros H G U.
  destruct (createLink_returns_stored _ _ _ _ _ _ H) as (l & F & Ec & Eu).
  split; [exact Eu|].
  destruct (stored_code_resolves orc2 w2 _ l url F G U) as [F2 Et].
  destruct (resolve_world orc2 w2 (Service.shortCode r)) as (tr2 & R & _).
  rewrite R. cbn [fst]. rewrite Ec, F2, Et. reflexivity.
Qed.

(** X1 on a store holding [link_a]: the code drawn second resolves to the new target. *)
Lemma createLink_then_resolve_witness :
  let R := run Scenario.colliding (Service.createLink "https://example.com/x")
               (Scenario.holding [Scenario.link_a] []) in
  Service.targetUrl
    {| Service.shortCode := "bbbbbbbb"; Service.targetUrl := "https://example.com/x";
       Service.isNew := true |} = "https://example.com/x"%string /\
  fst (fst (run Scenario.racing (Service.resolve "bbbbbbbb") (snd (fst R)))) =
    Ok "https://example.com/x"%string.
Proof.
  intros R.
  apply (createLink_then_resolve Scenario.colliding "https://example.com/x"%string
           (Scenario.holding [Scenario.link_a] [])
           {| Service.shortCode := "bbbbbbbb"; Service.targetUrl := "https://example.com/x";
              Service.isNew := true |}
           (snd (fst R)) (snd R) Scenario.racing (snd (fst R))).
  - vm_compute. reflexivity.
  - apply grows_refl.
  - exact two_links_unique.
Defined.

(** X2.  With no other writer, [isNew] says what [createLink] did to the
    table: [true] exactly when the target was absent and this call
    appended one Link, with the returned code and the target; [false]
    when the Link was there and [links] is left as it was; a rejected
    call leaves [links] as it was too.  [clicks] is never touched. *)
Theorem createLink_isNew_tells_the_store orc url w res w' tr :
  quiet orc ->
  run orc (Service.createLink url) w = (res, w', tr) ->
  clicks (store w') = clicks (store w) /\
  match res with
  | Ok r =>
      Service.targetUrl r = url /\
      if Service.isNew r
      then find_by_targetUrl (links (store w)) url = None /\
           exists l, links (store w') = links (store w) ++ [l] /\
                     shortCode l = Service.shortCode r /\ targetUrl l = url
      else links (store w') = links (store w) /\
           exists l, find_by_targetUrl (links (store w)) url = Some l /\
                     shortCode l = Service.shortCode r
  | Err _ => links (store w') = links (store w)
  end.
Proof.
  intros Q H. unfold run, Service.createLink in H.
  cbn -[intrude find_by_targetUrl Service.createLink_attempts Z.to_nat] in H.
  unfold read, query in H.
  cbn -[intrude find_by_targetUrl Service.createLink_attempts Z.to_nat] in H.
  rewrite (intrude_quiet _ _ _ Q) in H.
  destruct (find_by_targetUrl (links (store w)) url) as [l|] eqn:F.
  - cbn in H. injection H as <- <- <-. cbn.
    pose proof (find_by_targetUrl_some _ _ _ F) as [_ E].
    split; [reflexivity|]. split; [exact E|]. split; [reflexivity|].
    exists l. auto.
  - cbn -[intrude find_by_targetUrl Service.createLink_attempts Z.to_nat] in H.
    destruct (interp (world_handler orc) (Service.createLink_attempts _ 0 url) _)
      as [[r2 w2] tr2] eqn:R.
    injection H as <- <- <-.
    apply (attempts_quiet url orc Q 3 0) in R; [|reflexivity | exact F].
    cbn [store] in R. destruct R as [C R]. split; [exact C|].
    destruct r2 as [r|e]; [|exact R].
    destruct R as (l & L & -> & U & _). cbn. split; [reflexivity|]. split; [reflexivity|].
    exists l. auto.
Qed.

(** X2 on a store holding [link_a] and [link_b], where two codes collide first. *)
Lemma createLink_isNew_tells_the_store_witness :
  let w := Scenario.holding [Scenario.link_a; Scenario.link_b] [] in
  let R := run Scenario.colliding (Service.createLink "https://example.com/x") w in
  clicks (store (snd (fst R))) = clicks (store w) /\
  match fst (fst R) with
  | Ok r =>
      Service.targetUrl r = "https://example.com/x"%string /\
      if Service.isNew r
      then find_by_targetUrl (links (store w)) "https://example.com/x" = None /\
           exists l, links (store (snd (fst R))) = links (store w) ++ [l] /\
                     shortCode l = Service.shortCode r /\
                     targetUrl l = "https://example.com/x"%string
      else links (store (snd (fst R))) = links (store w) /\
           exists l, find_by_targetUrl (links (store w)) "https://example.com/x" = Some l /\
                     shortCode l = Service.shortCode r
  | Err _ => links (store (snd (fst R))) = links (store w)
  end.
Proof.
  intros w R.
  apply (createLink_isNew_tells_the_store Scenario.colliding "https://example.com/x"%string
           w (fst (fst R)) (snd (fst R)) (snd R)).
  - exact quiet_colliding.
  - vm_compute. reflexivity.
Defined.

(** X3.  Failures that are not unique-constraint conflicts are not retried.
    When the first lookup rejects, [createLink] rejects with that error
    and calls nothing else.  When the insert rejects with an error that
    is not a [P2002], [createLink] rejects with it after that single
    attempt: no warning is logged, the target is not read again, no
    second code is drawn. *)
Theorem createLink_other_failures_propagate (S : Type) (h : handler S) url :
  (forall s s1 e,
     h _ (link_findUnique_targetUrl url) s = (Err e, s1) ->
     interp h (Service.createLink url) s =
       (Err e, s1, [Ev (link_findUnique_targetUrl url) (Err e)])) /\
  (forall s s1 s2 s3 code e,
     h _ (link_findUnique_targetUrl url) s = (Ok None, s1) ->
     h _ (nanoid 8) s1 = (Ok code, s2) ->
     h _ (link_create code url) s2 = (Err e, s3) ->
     Service.is_P2002 e = false ->
     interp h (Service.createLink url) s =
       (Err e, s3, [Ev (link_findUnique_targetUrl url) (Ok None);
                    Ev (nanoid 8) (Ok code);
                    Ev (link_create code url) (Err e)])).
Proof.
  split.
  - intros s s1 e H. unfold Service.createLink. cbn. rewrite H. reflexivity.
  - intros s s1 s2 s3 code e H1 H2 H3 HP. unfold Service.createLink.
    cbn -[Service.is_P2002 Service.target_includes]. rewrite H1.
    change (Pos.to_nat 3) with 3%nat.
    cbn -[Service.is_P2002 Service.target_includes]. rewrite H2.
    cbn -[Service.is_P2002 Service.target_includes]. rewrite H3.
    cbn -[Service.is_P2002 Service.target_includes]. rewrite HP. reflexivity.
Qed.

(** X3 with collaborators that are down, and with a database that refuses inserts with a connection error. *)
Lemma createLink_other_failures_propagate_witness :
  (interp (Faults.down (Error "Connection lost"))
          (Service.createLink "https://example.com/x") tt =
     (Err (Error "Connection lost"), tt,
      [Ev (link_findUnique_targetUrl "https://example.com/x")
          (Err (Error "Connection lost"))])) /\
  (let h := Faults.refusing (Error "Connection lost") Scenario.colliding in
   let w := Scenario.holding [] [] in
   let s1 := snd (h _ (link_findUnique_targetUrl "https://example.com/x") w) in
   let s2 := snd (h _ (nanoid 8) s1) in
   interp h (Service.createLink "https://example.com/x") w =
     (Err (Error "Connection lost"), s2,
      [Ev (link_findUnique_targetUrl "https://example.com/x") (Ok None);
       Ev (nanoid 8) (Ok "aaaaaaaa"%string);
       Ev (link_create "aaaaaaaa" "https://example.com/x")
          (Err (Error "Connection lost"))])).
Proof.
  split.
  - apply (proj1 (createLink_other_failures_propagate unit
                    (Faults.down (Error "Connection lost"))
                    "https://example.com/x"%string) tt tt (Error "Connection lost")).
    reflexivity.
  - intros h w s1 s2.
    apply (proj2 (createLink_other_failures_propagate World h "https://example.com/x"%string)
             w s1 s2 s2 "aaaaaaaa"%string (Error "Connection lost"));
      reflexivity.
Defined.

(** X4.  Whatever the collaborators answer, an error [createLink] rejects with
    is one a collaborator rejected with in the same call.  So the
    [throw new Error('Failed to generate unique short code after
    retries')] below the loop is never reached: the third attempt
    returns or rethrows. *)
Theorem createLink_rejects_with_a_rejection (S : Type) (h : handler S) url s e :
  fst (fst (interp h (Service.createLink url) s)) = Err e ->
  In e (Faults.rejections (snd (interp h (Service.createLink url) s))).
Proof.
  intros He.
  assert (R : Faults.rethrows h (fun _ => False) (Service.createLink url)).
  { unfold Service.createLink.
    apply rethrows_bind; [apply rethrows_await|]. intros [existing|].
    - apply rethrows_bind; [apply rethrows_say|]. intros _. apply rethrows_ret.
    - apply attempts_rethrows; [reflexivity | discriminate]. }
  destruct (R s e He) as [[]|i]. exact i.
Qed.

(** X4 on a store where all three drawn codes are taken: the rejection is the conflict of an insert. *)
Lemma createLink_rejects_with_a_rejection_witness :
  In short_code_conflict
     (Faults.rejections
        (snd (interp (world_handler Scenario.colliding)
                (Service.createLink "https://example.com/x")
                (Scenario.holding [Scenario.link_a; Scenario.link_b; Scenario.link_c] [])))).
Proof.
  apply (createLink_rejects_with_a_rejection World (world_handler Scenario.colliding)
           "https://example.com/x"%string
           (Scenario.holding [Scenario.link_a; Scenario.link_b; Scenario.link_c] [])
           short_code_conflict).
  vm_compute. reflexivity.
Defined.

(** X5.  A conflict whose cause the re-read does not show is handled as a
    short-code collision.  Against a database that rejects every insert
    with the same [P2002] and shows no row for the target,
    [createLink] makes exactly three insert attempts and rejects with
    that conflict; when the conflict names [target_url] the target is
    read once more after each attempt, four reads in all, otherwise
    once. *)
Theorem createLink_unseen_conflict_exhausts (S : Type) (h : handler S) url e s :
  (forall s, fst (h _ (link_findUnique_targetUrl url) s) = Ok None) ->
  (forall s, exists code, fst (h _ (nanoid 8) s) = Ok code) ->
  (forall s code, fst (h _ (link_create code url) s) = Err e) ->
  Service.is_P2002 e = true ->
  let R := interp h (Service.createLink url) s in
  fst (fst R) = Err e /\
  List.length (link_inserts (snd R)) = 3%nat /\
  Forall (fun x => snd x = Err e) (link_inserts (snd R)) /\
  Faults.lookups_by_url (snd R) =
    (if Service.target_includes e "target_url" then 4%nat else 1%nat).
Proof.
  intros Hf Hg Hc HP. cbn zeta. unfold Service.createLink.
  rewrite interp_bind. cbn -[Service.createLink_attempts Z.to_nat].
  pose proof (Hf s) as F0.
  destruct (h (option Link) (link_findUnique_targetUrl url) s) as [o0 s0].
  cbn in F0. subst o0. cbn -[Service.createLink_attempts Z.to_nat].
  pose proof (attempts_exhaust h url e Hf Hg Hc HP 3 0 s0 eq_refl ltac:(discriminate)) as A.
  cbn zeta in A. change (Z.to_nat Service.maxRetries) with 3%nat.
  destruct (interp h (Service.createLink_attempts 3 0 url) s0) as [[r1 s1] tr1].
  cbn -[Service.target_includes] in *.
  destruct A as (A1 & A2 & A3 & A4).
  split; [exact A1|]. split; [exact A2|]. split; [exact A3|].
  unfold Faults.lookups_by_url, count in *. cbn -[Service.target_includes].
  rewrite A4. destruct (Service.target_includes e "target_url"); reflexivity.
Qed.

(** X5 with a replica that never shows the row and inserts rejected for [target_url]. *)
Lemma createLink_unseen_conflict_exhausts_witness :
  let R := interp (Faults.stale target_url_conflict Scenario.colliding)
                  (Service.createLink "https://example.com/x") (Scenario.holding [] []) in
  fst (fst R) = Err target_url_conflict /\
  List.length (link_inserts (snd R)) = 3%nat /\
  Forall (fun x => snd x = Err target_url_conflict) (link_inserts (snd R)) /\
  Faults.lookups_by_url (snd R) =
    (if Service.target_includes target_url_conflict "target_url" then 4%nat else 1%nat).
Proof.
  apply (createLink_unseen_conflict_exhausts World
           (Faults.stale target_url_conflict Scenario.colliding)
           "https://example.com/x"%string target_url_conflict (Scenario.holding [] [])).
  - intros s. reflexivity.
  - intros s. eexists. reflexivity.
  - intros s code. reflexivity.
  - reflexivity.
Defined.

(** X7.  A Link that [createLink] has just created has no Clicks.  In a store
    that satisfies the constraints of the migration, when [createLink]
    resolves with [isNew = true] the Link found under the returned code
    has the target, its aggregate is a count of 0 with a [null] sum, the
    monthly query returns no row, and [getStats] shows it with
    [totalClicks = 0], [totalEarnings = "0.00"] and an empty breakdown,
    whatever the other writers do. *)
Theorem createLink_new_link_has_no_clicks orc url w r w' tr :
  Schema.holds (store w) ->
  run orc (Service.createLink url) w = (Ok r, w', tr) ->
  Service.isNew r = true ->
  exists l,
    find_by_shortCode (links (store w')) (Service.shortCode r) = Some l /\
    targetUrl l = url /\
    aggregate_clicks (clicks (store w')) (id l) = (0, None) /\
    monthly_clicks (clicks (store w')) (id l) = [] /\
    Service.stats_item l (aggregate_clicks (clicks (store w')) (id l))
                         (monthly_clicks (clicks (store w')) (id l)) =
      {| Dto.shortCode := Service.shortCode r; Dto.url := url; Dto.totalClicks := 0;
         Dto.totalEarnings := "0.00"; Dto.monthlyBreakdown := [] |}.
Proof.
  intros Hs H N.
  destruct (createLink_new _ _ _ _ _ _ H N) as (Fn & l & Fs & Ec).
  pose proof (find_by_targetUrl_some _ _ _ Fs) as [Hin Hu].
  pose proof (interp_invariant (world_handler orc) (fun w => Schema.holds (store w))
                (fun A c w => world_handler_holds orc A c w)
                (Service.createLink url) w Hs) as Hs'.
  unfold run in H. rewrite H in Hs'. cbn in Hs'.
  fold (run orc (Service.createLink url) w) in H.
  destruct (createLink_world _ _ _ _ _ _ H) as (G & C & _ & _).
  destruct Hs as (_ & _ & _ & Fk).
  destruct Hs' as ((Ln & _) & _ & (_ & Nc) & _).
  assert (E : clicks_of (clicks (store w')) (id l) = []).
  { rewrite C. eapply later_link_unclicked; try eassumption.
    eapply find_none_not_in; eassumption. }
  exists l. rewrite Ec.
  split; [apply find_by_shortCode_unique; assumption|].
  split; [exact Hu|].
  unfold aggregate_clicks, monthly_clicks. rewrite E. cbn.
  split; [reflexivity|]. split; [reflexivity|].
  assert (T : JS.toFixed 2 (JS.or_zero (Service.Number_of_nullable None)) = "0.00"%string)
    by (vm_compute; reflexivity).
  unfold Service.stats_item. cbn [fst snd map]. rewrite T, Hu. reflexivity.
Qed.

(** X7 on a store with [link_a] and its three Clicks: the new Link shows none of them. *)
Lemma createLink_new_link_has_no_clicks_witness :
  let w := Scenario.holding [Scenario.link_a] Scenario.three_dated in
  let R := run Scenario.colliding (Service.createLink "https://example.com/x") w in
  exists l,
    find_by_shortCode (links (store (snd (fst R)))) "bbbbbbbb" = Some l /\
    targetUrl l = "https://example.com/x"%string /\
    aggregate_clicks (clicks (store (snd (fst R)))) (id l) = (0, None) /\
    monthly_clicks (clicks (store (snd (fst R)))) (id l) = [] /\
    Service.stats_item l (aggregate_clicks (clicks (store (snd (fst R)))) (id l))
                         (monthly_clicks (clicks (store (snd (fst R)))) (id l)) =
      {| Dto.shortCode := "bbbbbbbb"; Dto.url := "https://example.com/x";
         Dto.totalClicks := 0; Dto.totalEarnings := "0.00"; Dto.monthlyBreakdown := [] |}.
Proof.
  intros w R.
  apply (createLink_new_link_has_no_clicks Scenario.colliding "https://example.com/x"%string w
           {| Service.shortCode := "bbbbbbbb"; Service.targetUrl := "https://example.com/x";
              Service.isNew := true |} (snd (fst R)) (snd R)).
  - exact holding_a_dated_holds.
  - vm_compute. reflexivity.
  - reflexivity.
Defined.

(** X8.  [recordClick] on a known code adds exactly one Click to the
    aggregate of that Link and nothing to any other: the count of the
    Link grows by one, its sum by 0.05 or by 0.00 as the validator
    decided, and the aggregate of every other Link id is the one of
    before. *)
Theorem recordClick_counts_once orc w code l :
  find_by_shortCode (links (intrude orc (queries w) (store w))) code = Some l ->
  exists w' tr,
    run orc (Service.recordClick code) w = (Ok tt, w', tr) /\
    forall lid,
      aggregate_clicks (clicks (store w')) lid =
      if lid =? id l
      then (fst (aggregate_clicks (clicks (store w)) lid) + 1,
            Some (exact_total (clicks (store w)) lid
                  + (if verdict orc (validations w) then 5 else 0)))
      else aggregate_clicks (clicks (store w)) lid.
Proof.
  intros F.
  destruct (recordClick_world_found orc w code l F)
    as (w' & tr & c & R & C & _ & Hl & Hv & Hc & _).
  exists w', tr. split; [exact R|]. intros lid.
  rewrite C, aggregate_clicks_snoc, Hl, Hc, Hv. reflexivity.
Qed.

(** X8 on a store with [link_a] and three Clicks, the validator accepting. *)
Lemma recordClick_counts_once_witness :
  let w := Scenario.holding [Scenario.link_a] Scenario.three_dated in
  exists w' tr,
    run Scenario.colliding (Service.recordClick "aaaaaaaa") w = (Ok tt, w', tr) /\
    forall lid,
      aggregate_clicks (clicks (store w')) lid =
      if lid =? 1
      then (fst (aggregate_clicks Scenario.three_dated lid) + 1,
            Some (exact_total Scenario.three_dated lid + 5))
      else aggregate_clicks Scenario.three_dated lid.
Proof.
  intros w.
  apply (recordClick_counts_once Scenario.colliding w "aaaaaaaa"%string Scenario.link_a).
  reflexivity.
Defined.

(** X10.  The two queries [getStats] runs for a Link agree on every table of
    Clicks: the [clicks] of the monthly rows add up to the [_count] of
    the aggregate, their [earnings] add up, as exact decimals, to the
    sum of [earnedCredit], and the aggregate sum is [null] exactly when
    there is no monthly row. *)
Theorem monthly_rows_partition_the_aggregate cs lid :
  fold_right Z.add 0 (map row_clicks (monthly_clicks cs lid)) =
    fst (aggregate_clicks cs lid) /\
  fold_right Z.add 0 (map row_earnings (monthly_clicks cs lid)) = exact_total cs lid /\
  (snd (aggregate_clicks cs lid) = None <-> monthly_clicks cs lid = []).
Proof.
  destruct (monthly_rows_add_up cs lid) as [H1 H2].
  split; [exact H1|]. split; [exact H2|].
  unfold aggregate_clicks, monthly_clicks. cbn [snd].
  destruct (clicks_of cs lid) as [|c g] eqn:E.
  - split; reflexivity.
  - split; [discriminate|]. intros H. apply map_eq_nil in H.
    assert (Hin : In (date_trunc_month (clickedAt c)) (months_of (c :: g))).
    { apply In_months_of. exists c. split; [left|]; reflexivity. }
    rewrite H in Hin. destruct Hin.
Qed.

(** X11.  A Link of the page that has no Click is shown with zeros: its item
    is its code and target with [totalClicks = 0],
    [totalEarnings = "0.00"], the [|| 0] applied to the [null] sum,
    and an empty [monthlyBreakdown]. *)
Theorem getStats_link_without_clicks orc w page limit l :
  In l (list_links (links (intrude orc (queries w) (store w))) ((page - 1) * limit) limit) ->
  clicks_of (clicks (store w)) (id l) = [] ->
  exists r w' tr,
    run orc (Service.getStats page limit) w = (Ok r, w', tr) /\
    In {| Dto.shortCode := shortCode l; Dto.url := targetUrl l; Dto.totalClicks := 0;
          Dto.totalEarnings := "0.00"; Dto.monthlyBreakdown := [] |} (Dto.data r).
Proof.
  intros Hin E.
  destruct (getStats_run orc w page limit) as (w' & tr & R & _).
  eexists _, w', tr. split; [exact R|]. cbn [Dto.data].
  apply in_map_iff. exists l. split; [|exact Hin].
  unfold Service.stats_item, aggregate_clicks, monthly_clicks. rewrite E.
  cbn [List.length Z.of_nat fst snd months_of map fold_right].
  assert (T : JS.toFixed 2 (JS.or_zero (Service.Number_of_nullable None)) = "0.00"%string)
    by (vm_compute; reflexivity).
  rewrite T. reflexivity.
Qed.

(** X11 for [link_b] beside [link_a] and its three Clicks. *)
Lemma getStats_link_without_clicks_witness :
  exists r w' tr,
    run Scenario.colliding (Service.getStats 1 10)
        (Scenario.holding [Scenario.link_a; Scenario.link_b] Scenario.three_dated) =
      (Ok r, w', tr) /\
    In {| Dto.shortCode := "bbbbbbbb"; Dto.url := "https://example.com/b";
          Dto.totalClicks := 0; Dto.totalEarnings := "0.00"; Dto.monthlyBreakdown := [] |}
       (Dto.data r).
Proof.
  apply (getStats_link_without_clicks Scenario.colliding
           (Scenario.holding [Scenario.link_a; Scenario.link_b] Scenario.three_dated)
           1 10 Scenario.link_b).
  - vm_compute. left. reflexivity.
  - reflexivity.
Defined.

(** X12.  [getStats] only reads.  Whatever its collaborators answer it issues
    no insert and never calls the validator; on the store, with no other
    writer, it leaves the store it started from. *)
Theorem getStats_read_only :
  (forall (S : Type) (h : handler S) (s : S) page limit,
     let tr := snd (interp h (Service.getStats page limit) s) in
     count is_write tr = 0%nat /\ count is_fraud_validate tr = 0%nat) /\
  (forall orc w page limit,
     quiet orc ->
     store (snd (fst (run orc (Service.getStats page limit) w))) = store w).
Proof.
  split.
  - intros S h s page limit. cbn zeta. split; apply getStats_reads; reflexivity.
  - intros orc w page limit Q. apply (quiet_reads_keep_store orc Q).
    unfold run. apply getStats_reads; reflexivity.
Qed.

(** X12 on a store with [link_a] and three Clicks, with no other writer. *)
Lemma getStats_read_only_witness :
  store (snd (fst (run Scenario.colliding (Service.getStats 1 10)
                       (Scenario.holding [Scenario.link_a] Scenario.three_dated))))
  = store (Scenario.holding [Scenario.link_a] Scenario.three_dated).
Proof.
  apply (proj2 getStats_read_only Scenario.colliding
           (Scenario.holding [Scenario.link_a] Scenario.three_dated) 1 10).
  exact quiet_colliding.
Defined.

(** X13.  The pages of [getStats] partition the Links.  On a store that does
    not change and where no two Links were created at the same time,
    with every offset below [2^53], each of the pages 1 to [n] is
    returned, and their codes, one page after the other, are the codes
    of the first [n * limit] Links in the one strict order of their
    creation, the latest first; when [n * limit] reaches the number of
    Links, every Link is on exactly one of these pages. *)
Theorem getStats_pages_partition refusal orc w limit n :
  quiet orc -> 1 <= limit -> Z.of_nat n * limit < 2 ^ 53 ->
  NoDup (map createdAt (links (store w))) ->
  exists newest_first,
    Permutation (links (store w)) newest_first /\
    StronglySorted Observe.newer newest_first /\
    (forall p, In p (seq 1 n) ->
       exists r w' tr,
         interp (Prisma.client refusal orc) (Service.getStats (Z.of_nat p) limit) w
           = (Ok r, w', tr)) /\
    List.concat (map (Observe.page_codes refusal orc w limit) (seq 1 n)) =
      map shortCode (firstn (n * Z.to_nat limit) newest_first) /\
    ((List.length (links (store w)) <= n * Z.to_nat limit)%nat ->
     Permutation (List.concat (map (Observe.page_codes refusal orc w limit) (seq 1 n)))
                 (map shortCode (links (store w)))).
Proof.
  intros Q Hl Hn Hd.
  exists (order_by_createdAt_desc (links (store w))).
  pose proof (order_by_createdAt_desc_perm (links (store w))) as P.
  split; [exact P|]. split.
  { apply sorted_strict; [apply order_by_createdAt_desc_sorted|].
    eapply Permutation_NoDup; [apply Permutation_map, P | exact Hd]. }
  split.
  { intros p Hp. apply in_seq in Hp.
    apply (page_codes_quiet refusal orc w limit n p Q Hl Hn). lia. }
  assert (E : List.concat (map (Observe.page_codes refusal orc w limit) (seq 1 n)) =
              map shortCode (firstn (n * Z.to_nat limit)
                               (order_by_createdAt_desc (links (store w))))).
  { rewrite <- (pages_concat (order_by_createdAt_desc (links (store w)))).
    rewrite concat_map, map_map. f_equal. apply map_ext_in. intros p Hp.
    apply in_seq in Hp.
    apply (page_codes_quiet refusal orc w limit n p Q Hl Hn). lia. }
  split; [exact E|]. intros Hc. rewrite E.
  rewrite firstn_all2 by (rewrite order_by_createdAt_desc_length; exact Hc).
  apply Permutation_map, Permutation_sym, P.
Qed.

(** X13 for the five pages of ten over forty-two Links created a millisecond apart. *)
Lemma getStats_pages_partition_witness :
  let w := Scenario.holding Scenario.forty_two [] in
  let pages := map (Observe.page_codes Scenario.refusal Scenario.colliding w 10) (seq 1 5) in
  exists newest_first,
    Permutation (links (store w)) newest_first /\
    StronglySorted Observe.newer newest_first /\
    (forall p, In p (seq 1 5) ->
       exists r w' tr,
         interp (Prisma.client Scenario.refusal Scenario.colliding)
                (Service.getStats (Z.of_nat p) 10) w = (Ok r, w', tr)) /\
    List.concat pages = map shortCode (firstn (5 * Z.to_nat 10) newest_first) /\
    ((List.length (links (store w)) <= 5 * Z.to_nat 10)%nat ->
     Permutation (List.concat pages) (map shortCode (links (store w)))).
Proof.
  intros w pages.
  apply (getStats_pages_partition Scenario.refusal Scenario.colliding w 10 5).
  - exact quiet_colliding.
  - lia.
  - reflexivity.
  - exact forty_two_distinct.
Defined.

(** X14.  With [limit = 0] [getStats] does not fail: it resolves with no item,
    and the division by zero shows in [totalPages], which is
    [Infinity] when there are Links and [NaN] when there are none. *)
Theorem getStats_limit_zero orc w page :
  exists r w' tr,
    run orc (Service.getStats page 0) w = (Ok r, w', tr) /\
    Dto.data r = [] /\
    Dto.totalPages (Dto.meta r) =
      (if Dto.totalItems (Dto.meta r) =? 0 then JS.NaN else JS.Infinity false).
Proof.
  destruct (getStats_run orc w page 0) as (w' & tr & R & _).
  eexists _, w', tr. split; [exact R|]. split; [reflexivity|].
  cbn [Dto.meta Dto.totalPages Dto.totalItems].
  unfold JS.div_int, count_links. cbn [Z.eqb].
  destruct (Z.of_nat _ =? 0) eqn:E; [reflexivity|].
  rewrite (proj2 (Z.ltb_ge _ 0)) by lia. reflexivity.
Qed.

(** X15.  A request for a code no Link has is rejected with
    [NotFoundException]; no response is sent by the handler, no
    recording is started, the validator is not called, and [clicks] is
    left as it was. *)
Theorem redirect_unknown_code orc w code :
  find_by_shortCode (links (intrude orc (queries w) (store w))) code = None ->
  exists tr w',
    Controller.serve (world_handler orc) (Controller.redirect code) w =
      (Err (NotFoundException "Short link not found"), tr, ([], w', [])) /\
    responses tr = [] /\ click_inserts tr = [] /\ count is_fraud_validate tr = 0%nat /\
    clicks (store w') = clicks (store w).
Proof.
  intros F. destruct (redirect_world orc w code) as (tr & R & Hr & Hc & Hf).
  cbn zeta in *. rewrite F in *.
  unfold Controller.serve. rewrite R.
  eexists _, _. split; [reflexivity|]. repeat split; try assumption.
  cbn. apply intrude_clicks.
Qed.

(** X15 for the code [nonexist] on a store holding [link_a]. *)
Lemma redirect_unknown_code_witness :
  let w := Scenario.holding [Scenario.link_a] [] in
  exists tr w',
    Controller.serve (world_handler Scenario.colliding) (Controller.redirect "nonexist") w =
      (Err (NotFoundException "Short link not found"), tr, ([], w', [])) /\
    responses tr = [] /\ click_inserts tr = [] /\ count is_fraud_validate tr = 0%nat /\
    clicks (store w') = clicks (store w).
Proof.
  intros w.
  apply (redirect_unknown_code Scenario.colliding w "nonexist"%string).
  reflexivity.
Defined.

(** X16.  A request for the code of a Link is answered with one response, 302
    to the target of that Link, sent before the recording; the detached
    recording then sends nothing and appends exactly one Click, for that
    Link, with the verdict of the validator and the credit that goes
    with it. *)
Theorem redirect_known_code orc w code l :
  find_by_shortCode (links (intrude orc (queries w) (store w))) code = Some l ->
  exists tr w' dtr c,
    Controller.serve (world_handler orc) (Controller.redirect code) w =
      (Ok tt, tr, ([Ok tt], w', dtr)) /\
    responses tr = [(Controller.FOUND, targetUrl l)] /\
    responses dtr = [] /\
    clicks (store w') = clicks (store w) ++ [c] /\
    linkId c = id l /\
    isValid c = verdict orc (validations w) /\
    earnedCredit c = (if isValid c then Service.Decimal_0_05 else Service.Decimal_0_00).
Proof.
  intros F. destruct (redirect_world orc w code) as (tr & R & Hr & Hc & Hf).
  cbn zeta in *. rewrite F in *.
  unfold Controller.serve. rewrite R. cbn [Controller.run_detached].
  rewrite record_and_log_spec.
  set (w1 := {| store := intrude orc (queries w) (store w); queries := S (queries w);
                codes_drawn := codes_drawn w; validations := validations w |}).
  assert (F1 : find_by_shortCode (links (intrude orc (queries w1) (store w1))) code = Some l).
  { eapply grows_find_shortCode; [apply intrude_grows | exact F]. }
  destruct (recordClick_world_found orc w1 code l F1)
    as (w' & dtr & c & Rc & C & _ & Hl & Hv & Hcr & Hci & _).
  unfold run in Rc. rewrite Rc.
  exists tr, w', (dtr ++ []), c. split; [reflexivity|].
  split; [exact Hr|]. split.
  { rewrite app_nil_r.
    pose proof (recordClick_no_response (world_handler orc) w1 code) as N.
    rewrite Rc in N. exact N. }
  split; [rewrite C; cbn; rewrite intrude_clicks; reflexivity|].
  repeat split; assumption.
Qed.

(** X16 for the code of [link_a], the validator accepting. *)
Lemma redirect_known_code_witness :
  let w := Scenario.holding [Scenario.link_a] [] in
  exists tr w' dtr c,
    Controller.serve (world_handler Scenario.colliding) (Controller.redirect "aaaaaaaa") w =
      (Ok tt, tr, ([Ok tt], w', dtr)) /\
    responses tr = [(Controller.FOUND, "https://example.com/a"%string)] /\
    responses dtr = [] /\
    clicks (store w') = clicks (store w) ++ [c] /\
    linkId c = 1 /\
    isValid c = true /\
    earnedCredit c = (if isValid c then Service.Decimal_0_05 else Service.Decimal_0_00).
Proof.
  intros w.
  apply (redirect_known_code Scenario.colliding w "aaaaaaaa"%string Scenario.link_a).
  reflexivity.
Defined.

(** X17.  The status of [POST /links] tells whether this request created the
    Link.  When the handler answers, the body holds the target and the
    base URL, a slash and the code of the Link the table holds for the
    target; the status is 201 exactly when the target was absent and
    the last insert of this request created that Link, and 200 when no
    insert of this request succeeded. *)
Theorem post_links_status orc env url w rep w' tr :
  run orc (Handlers.work (Handlers.createLink env url)) w = (Ok rep, w', tr) ->
  exists l,
    find_by_targetUrl (links (store w')) url = Some l /\
    Handlers.json rep =
      {| Handlers.shortUrl := (Handlers.baseUrl env ++ "/" ++ shortCode l)%string;
         Handlers.targetUrl := url |} /\
    ((Handlers.status rep = Handlers.CREATED /\
      find_by_targetUrl (links (store w)) url = None /\
      exists colls, link_inserts tr = colls ++ [(shortCode l, url, Ok l)]) \/
     (Handlers.status rep = Handlers.OK /\
      Forall (fun x => forall l', snd x <> Ok l') (link_inserts tr))).
Proof.
  intros H. unfold run in H. rewrite post_links_run in H.
  destruct (interp (world_handler orc) (Service.createLink url) w) as [[[r|e] w1] tr1] eqn:R;
    [|discriminate H].
  injection H as <- <- <-. fold (run orc (Service.createLink url) w) in R.
  pose proof (createLink_world _ _ _ _ _ _ R) as (_ & _ & _ & Hcases).
  assert (Rej : forall colls, Forall (collided url) colls ->
                  Forall (fun x : string * string * outcome Link =>
                            forall l', snd x <> Ok l') colls).
  { intros colls Fc. eapply Forall_impl; [|exact Fc].
    intros x (code & ->). cbn. discriminate. }
  destruct Hcases as [(l & F & Rs & I) | (colls & Fc & _ & [(l & I & Rs & F) | [(c & l & I & Rs & F) | (I & Rs & L)]])].
  - injection Rs as ->. exists l. cbn. split; [exact F|]. split; [reflexivity|].
    right. split; [reflexivity|]. rewrite I. constructor.
  - pose proof (createLink_new _ _ _ _ _ _ R) as N.
    injection Rs as ->. exists l. cbn. split; [exact F|]. split; [reflexivity|].
    left. split; [reflexivity|]. split; [apply N; reflexivity|]. exists colls. exact I.
  - injection Rs as ->. exists l. cbn. split; [exact F|]. split; [reflexivity|].
    right. split; [reflexivity|]. rewrite I. apply Forall_app.
    split; [apply Rej, Fc|]. constructor; [|constructor]. cbn. discriminate.
  - discriminate Rs.
Qed.

(** X17 on a store holding [link_a], with [BASE_URL] not set. *)
Lemma post_links_status_witness :
  let w := Scenario.holding [Scenario.link_a] [] in
  let R := run Scenario.colliding
               (Handlers.work (Handlers.createLink None "https://example.com/x")) w in
  exists l,
    find_by_targetUrl (links (store (snd (fst R)))) "https://example.com/x" = Some l /\
    {| Handlers.shortUrl := "http://localhost:3000/bbbbbbbb";
       Handlers.targetUrl := "https://example.com/x" |} =
      {| Handlers.shortUrl := (Handlers.baseUrl None ++ "/" ++ shortCode l)%string;
         Handlers.targetUrl := "https://example.com/x" |} /\
    ((Handlers.CREATED = Handlers.CREATED /\
      find_by_targetUrl (links (store w)) "https://example.com/x" = None /\
      exists colls, link_inserts (snd R) =
                      colls ++ [(shortCode l, "https://example.com/x"%string, Ok l)]) \/
     (Handlers.CREATED = Handlers.OK /\
      Forall (fun x => forall l', snd x <> Ok l') (link_inserts (snd R)))).
Proof.
  intros w R.
  apply (post_links_status Scenario.colliding None "https://example.com/x"%string w
           {| Handlers.status := Handlers.CREATED;
              Handlers.json := {| Handlers.shortUrl := "http://localhost:3000/bbbbbbbb";
                                  Handlers.targetUrl := "https://example.com/x" |} |}
           (snd (fst R)) (snd R)).
  vm_compute. reflexivity.
Defined.

(** X18.  [POST /links] is idempotent on its body.  Once a request for a target
    has been answered, every later request for the same target, in any
    later state of [links] and whatever the other writers do, is
    answered with status 200 and the same body, and attempts no
    insert. *)
Theorem post_links_twice orc env url w rep w1 tr orc2 w2 :
  run orc (Handlers.work (Handlers.createLink env url)) w = (Ok rep, w1, tr) ->
  grows (links (store w1)) (links (store w2)) ->
  exists w3 tr2,
    run orc2 (Handlers.work (Handlers.createLink env url)) w2 =
      (Ok {| Handlers.status := Handlers.OK; Handlers.json := Handlers.json rep |},
       w3, tr2) /\
    link_inserts tr2 = [].
Proof.
  intros H G. unfold run in H. rewrite post_links_run in H.
  destruct (interp (world_handler orc) (Service.createLink url) w) as [[[r|e] w1'] tr1] eqn:R;
    [|discriminate H].
  injection H as <- <- <-. fold (run orc (Service.createLink url) w) in R.
  destruct (createLink_returns_stored _ _ _ _ _ _ R) as (l & F & Ec & Eu).
  pose proof (intrude_grows orc2 (queries w2) (store w2)) as G3.
  assert (F2 : find_by_targetUrl (links (intrude orc2 (queries w2) (store w2))) url = Some l).
  { eapply grows_find_targetUrl; [|exact F]. eapply grows_trans; eassumption. }
  unfold run. rewrite post_links_run. unfold Service.createLink. eval_run.
  rewrite F2. eval_run.
  eexists _, _. split.
  - cbn. rewrite Ec, Eu. pose proof (find_by_targetUrl_some _ _ _ F) as [_ ->].
    reflexivity.
  - reflexivity.
Qed.

(** X18 posting the same target again after it has been created. *)
Lemma post_links_twice_witness :
  let w := Scenario.holding [Scenario.link_a] [] in
  let R := run Scenario.colliding
               (Handlers.work (Handlers.createLink None "https://example.com/x")) w in
  exists w3 tr2,
    run Scenario.racing
        (Handlers.work (Handlers.createLink None "https://example.com/x")) (snd (fst R)) =
      (Ok {| Handlers.status := Handlers.OK;
             Handlers.json := {| Handlers.shortUrl := "http://localhost:3000/bbbbbbbb";
                                 Handlers.targetUrl := "https://example.com/x" |} |},
       w3, tr2) /\
    link_inserts tr2 = [].
Proof.
  intros w R.
  apply (post_links_twice Scenario.colliding None "https://example.com/x"%string w
           {| Handlers.status := Handlers.CREATED;
              Handlers.json := {| Handlers.shortUrl := "http://localhost:3000/bbbbbbbb";
                                  Handlers.targetUrl := "https://example.com/x" |} |}
           (snd (fst R)) (snd R) Scenario.racing (snd (fst R))).
  - vm_compute. reflexivity.
  - apply grows_refl.
Defined.

(** X19.  The short code can be read back from the short URL.  For a code
    without a slash, as [nanoid] draws them, the last segment of
    [baseUrl + "/" + code], what [split('/').pop()] returns, is the
    code, whatever [BASE_URL] is; a [BASE_URL] that is not set or empty
    stands for [http://localhost:3000]. *)
Theorem short_url_ends_in_the_code env code :
  Client.has_slash code = false ->
  Client.last_segment (Handlers.baseUrl env ++ "/" ++ code) = code.
Proof. apply last_segment_after_slash. Qed.

(** X19 for a base URL with slashes of its own. *)
Lemma short_url_ends_in_the_code_witness :
  Client.last_segment (Handlers.baseUrl (Some "https://sho.rt"%string) ++ "/" ++ "aaaaaaaa")
  = "aaaaaaaa"%string.
Proof.
  apply (short_url_ends_in_the_code (Some "https://sho.rt"%string) "aaaaaaaa"%string).
  reflexivity.
Defined.

(** X20.  The flow of the end-to-end test.  After [POST /links] has answered
    for a target, a request for the last segment of the returned
    [shortUrl], in any later state of [links] that keeps the unique
    indexes, the codes being free of slashes, is answered with one
    response, 302 to that target, and its detached recording appends
    one Click for the Link of the target. *)
Theorem post_then_follow orc env url w rep w1 tr orc2 w2 :
  run orc (Handlers.work (Handlers.createLink env url)) w = (Ok rep, w1, tr) ->
  grows (links (store w1)) (links (store w2)) ->
  unique_links (links (store w2)) ->
  (forall l, In l (links (store w1)) -> Client.has_slash (shortCode l) = false) ->
  exists rtr w3 dtr c l,
    Controller.serve (world_handler orc2)
      (Controller.redirect (Client.last_segment (Handlers.shortUrl (Handlers.json rep)))) w2 =
      (Ok tt, rtr, ([Ok tt], w3, dtr)) /\
    responses (rtr ++ dtr) = [(Controller.FOUND, url)] /\
    clicks (store w3) = clicks (store w2) ++ [c] /\
    find_by_targetUrl (links (store w3)) url = Some l /\
    linkId c = id l.
Proof.
  intros H G U Hs. unfold run in H. rewrite post_links_run in H.
  destruct (interp (world_handler orc) (Service.createLink url) w) as [[[r|e] w1'] tr1] eqn:R;
    [|discriminate H].
  injection H as <- <- <-. fold (run orc (Service.createLink url) w) in R.
  destruct (createLink_returns_stored _ _ _ _ _ _ R) as (l & F & Ec & Eu).
  destruct (stored_code_resolves orc2 w2 _ l url F G U) as [F2 Et].
  pose proof (find_by_targetUrl_some _ _ _ F) as [Hin _].
  cbn [Handlers.json Handlers.shortUrl].
  rewrite Ec.
  change (Handlers.baseUrl env ++ String "/" (shortCode l))%string
    with (Handlers.baseUrl env ++ "/" ++ shortCode l)%string.
  rewrite last_segment_after_slash by (apply Hs, Hin).
  destruct (redirect_world orc2 w2 (shortCode l)) as (rtr & Rr & Hr & _).
  cbn zeta in *. rewrite F2 in *.
  unfold Controller.serve. rewrite Rr. cbn [Controller.run_detached].
  rewrite record_and_log_spec.
  set (w2' := {| store := intrude orc2 (queries w2) (store w2); queries := S (queries w2);
                 codes_drawn := codes_drawn w2; validations := validations w2 |}).
  assert (F3 : find_by_shortCode (links (intrude orc2 (queries w2') (store w2')))
                 (shortCode l) = Some l).
  { eapply grows_find_shortCode; [apply intrude_grows | exact F2]. }
  destruct (recordClick_world_found orc2 w2' (shortCode l) l F3)
    as (w3 & dtr & c & Rc & C & G3 & Hl & _).
  pose proof (recordClick_no_response (world_handler orc2) w2' (shortCode l)) as N.
  unfold run in Rc. rewrite Rc in N. cbn [snd] in N. rewrite Rc.
  exists rtr, w3, (dtr ++ []), c, l. split; [reflexivity|].
  split; [rewrite responses_app, Hr, app_nil_r, N, Et; reflexivity|].
  split; [rewrite C; cbn; rewrite intrude_clicks; reflexivity|].
  split; [|exact Hl].
  eapply grows_find_targetUrl; [|exact F].
  eapply grows_trans; [exact G|].
  eapply grows_trans; [apply (intrude_grows orc2 (queries w2))|]. exact G3.
Qed.

(** X20 creating a target beside [link_a], then following its short URL. *)
Lemma post_then_follow_witness :
  let w := Scenario.holding [Scenario.link_a] [] in
  let R := run Scenario.colliding (Service.createLink "https://example.com/x") w in
  exists rtr w3 dtr c l,
    Controller.serve (world_handler Scenario.racing)
      (Controller.redirect (Client.last_segment "http://localhost:3000/bbbbbbbb"))
      (snd (fst R)) =
      (Ok tt, rtr, ([Ok tt], w3, dtr)) /\
    responses (rtr ++ dtr) = [(Controller.FOUND, "https://example.com/x"%string)] /\
    clicks (store w3) = clicks (store (snd (fst R))) ++ [c] /\
    find_by_targetUrl (links (store w3)) "https://example.com/x" = Some l /\
    linkId c = id l.
Proof.
  intros w R.
  apply (post_then_follow Scenario.colliding None "https://example.com/x"%string w
           {| Handlers.status := Handlers.CREATED;
              Handlers.json := {| Handlers.shortUrl := "http://localhost:3000/bbbbbbbb";
                                  Handlers.targetUrl := "https://example.com/x" |} |}
           (snd (fst R)) (snd R) Scenario.racing (snd (fst R))).
  - vm_compute. reflexivity.
  - apply grows_refl.
  - exact two_links_unique.
  - exact two_links_without_slash.
Defined.

(** X21.  When the validator rejects, no Click is written.  [recordClick]
    rejects with the error of the validator right after the lookup and
    the validation, without a [click.create]; the chain the controller
    detaches catches it, logs the failure with the short code, and
    resolves. *)
Theorem recordClick_validator_failure (S : Type) (h : handler S) code s s1 s2 l e :
  h _ (link_findUnique_shortCode code) s = (Ok (Some l), s1) ->
  h _ fraud_validate s1 = (Err e, s2) ->
  interp h (Service.recordClick code) s =
    (Err e, s2, [Ev (link_findUnique_shortCode code) (Ok (Some l));
                 Ev fraud_validate (Err e)]) /\
  (forall o s3,
     h _ (logger (FailedToRecordClick code e)) s2 = (o, s3) ->
     interp h (Controller.record_and_log code) s =
       (Ok tt, s3, [Ev (link_findUnique_shortCode code) (Ok (Some l));
                    Ev fraud_validate (Err e);
                    Ev (logger (FailedToRecordClick code e)) o])).
Proof.
  intros H1 H2.
  assert (R : interp h (Service.recordClick code) s =
              (Err e, s2, [Ev (link_findUnique_shortCode code) (Ok (Some l));
                           Ev fraud_validate (Err e)])).
  { unfold Service.recordClick. cbn. rewrite H1. cbn. rewrite H2. reflexivity. }
  split; [exact R|]. intros o s3 H3.
  rewrite record_and_log_spec, R, H3. reflexivity.
Qed.

(** X21 with a fraud service that times out, on a store holding [link_a]. *)
Lemma recordClick_validator_failure_witness :
  let h := Faults.unvalidated (Error "Fraud service timed out") Scenario.colliding in
  let w := Scenario.holding [Scenario.link_a] [] in
  let s1 := snd (h _ (link_findUnique_shortCode "aaaaaaaa") w) in
  interp h (Service.recordClick "aaaaaaaa") w =
    (Err (Error "Fraud service timed out"), s1,
     [Ev (link_findUnique_shortCode "aaaaaaaa") (Ok (Some Scenario.link_a));
      Ev fraud_validate (Err (Error "Fraud service timed out"))]) /\
  (forall o s3,
     h _ (logger (FailedToRecordClick "aaaaaaaa" (Error "Fraud service timed out"))) s1
       = (o, s3) ->
     interp h (Controller.record_and_log "aaaaaaaa") w =
       (Ok tt, s3,
        [Ev (link_findUnique_shortCode "aaaaaaaa") (Ok (Some Scenario.link_a));
         Ev fraud_validate (Err (Error "Fraud service timed out"));
         Ev (logger (FailedToRecordClick "aaaaaaaa" (Error "Fraud service timed out"))) o])).
Proof.
  intros h w s1.
  apply (recordClick_validator_failure World h "aaaaaaaa"%string w s1 s1 Scenario.link_a
           (Error "Fraud service timed out")); reflexivity.
Defined.

(** X22.  A Link that was just created leads the listing.  With no other
    writer and a clock that is later than the creation of every Link of
    the table, after [createLink] has resolved with [isNew = true] the
    first item of page 1 of [getStats], for any limit of at least 1, is
    the new Link, and [totalItems] has grown by one. *)
Theorem createLink_new_link_listed_first orc url w r w1 tr orc2 limit :
  quiet orc -> quiet orc2 ->
  (forall x n, In x (links (store w)) -> ts_ltb (createdAt x) (clock orc n) = true) ->
  run orc (Service.createLink url) w = (Ok r, w1, tr) ->
  Service.isNew r = true ->
  1 <= limit ->
  exists resp w2 tr2 item rest,
    run orc2 (Service.getStats 1 limit) w1 = (Ok resp, w2, tr2) /\
    Dto.data resp = item :: rest /\
    Dto.shortCode item = Service.shortCode r /\ Dto.url item = url /\
    Dto.totalItems (Dto.meta resp) = Z.of_nat (List.length (links (store w))) + 1.
Proof.
  intros Q Q2 Hc H N Hl.
  destruct (createLink_quiet_new _ _ _ _ _ _ Q H N) as (l & k & L & Ec & Eu & Ek).
  destruct (getStats_run orc2 w1 1 limit) as (w2 & tr2 & R & _).
  rewrite !(intrude_quiet _ _ _ Q2) in R. rewrite R.
  unfold list_links. rewrite L, order_newest_first
    by (intros x Hx; rewrite Ek; apply Hc, Hx).
  change (Z.to_nat ((1 - 1) * limit)) with 0%nat. cbn [skipn].
  destruct (Z.to_nat limit) as [|n] eqn:En; [lia|]. cbn [firstn map].
  eexists _, w2, tr2, _, _. split; [reflexivity|]. cbn [Dto.data Dto.meta Dto.totalItems].
  split; [reflexivity|]. cbn [Service.stats_item Dto.shortCode Dto.url].
  split; [exact Ec|]. split; [exact Eu|].
  unfold count_links. rewrite length_app. cbn [List.length]. lia.
Qed.

(** X22 creating a target beside [link_a], then asking for page 1. *)
Lemma createLink_new_link_listed_first_witness :
  let w := Scenario.holding [Scenario.link_a] [] in
  let R := run Scenario.colliding (Service.createLink "https://example.com/x") w in
  exists resp w2 tr2 item rest,
    run Scenario.colliding (Service.getStats 1 10) (snd (fst R)) = (Ok resp, w2, tr2) /\
    Dto.data resp = item :: rest /\
    Dto.shortCode item = "bbbbbbbb"%string /\
    Dto.url item = "https://example.com/x"%string /\
    Dto.totalItems (Dto.meta resp) = Z.of_nat (List.length (links (store w))) + 1.
Proof.
  intros w R.
  apply (createLink_new_link_listed_first Scenario.colliding "https://example.com/x"%string w
           {| Service.shortCode := "bbbbbbbb"; Service.targetUrl := "https://example.com/x";
              Service.isNew := true |} (snd (fst R)) (snd R) Scenario.colliding 10).
  - exact quiet_colliding.
  - exact quiet_colliding.
  - intros x n [<-|[]]. reflexivity.
  - vm_compute. reflexivity.
  - reflexivity.
  - lia.
Defined.
